(** * Nano-SQL storage query core: a shallow embedding

    The development follows the storage query source: [_compare] and
    [_where] (module [Where]), the tokenizer and the search index writer
    (module [Search]), [_RowSelection] and [InstanceSelection] (module
    [Selection]), [_MutateSelection] (module [Mutate]) and
    [_NanoSQLStorageQuery] (module [StorageQuery]).  JavaScript values are a
    tagged variant, rows are finite maps from column names to values, the
    callbacks of [fastALL] and [fastCHAIN] run one after the other as with a
    synchronous adapter, and a thrown error is an explicit outcome that
    keeps the state reached.  The storage class, the adapters and the
    utilities are outside the source: what the query core asks of them is
    modelled in module [Storage] or taken as a parameter ([externals]). *)

From Stdlib Require Import ZArith Ascii String List Bool Lia.
From stdpp Require Import gmap strings list fin_maps pretty.

Open Scope string_scope.
Open Scope Z_scope.

(** ** JavaScript values *)

Module JS.

(** Primitive values.  Numbers are the integers among the JavaScript
    numbers; strings are ASCII strings. *)
Inductive prim : Type :=
  | PUndef
  | PNull
  | PBool (b : bool)
  | PNum (n : Z)
  | PStr (s : string).

(** A column value: a primitive or an array of primitives. *)
Inductive value : Type :=
  | VPrim (p : prim)
  | VArr (l : list prim).

#[global] Instance prim_eq_dec : EqDecision prim.
Proof. solve_decision. Defined.

#[global] Instance value_eq_dec : EqDecision value.
Proof. solve_decision. Defined.

Definition undefined : value := VPrim PUndef.
Definition null : value := VPrim PNull.
Definition num (n : Z) : value := VPrim (PNum n).
Definition str (s : string) : value := VPrim (PStr s).

(** A row (a plain object): a property that is absent reads as
    [undefined]. *)
Abbreviation row := (gmap string value).

Definition get (r : row) (k : string) : value :=
  default undefined (r !! k).

(** Outcome of a computation that may throw. *)
Inductive res (A : Type) : Type :=
  | Ok (a : A)
  | Throw (e : string).
Arguments Ok {A} a.
Arguments Throw {A} e.

Definition rbind {A B} (m : res A) (f : A -> res B) : res B :=
  match m with
  | Ok a => f a
  | Throw e => Throw e
  end.

Definition TypeError : string := "TypeError".

(** [x === y] on primitives. *)
Definition prim_strict_eq (x y : prim) : bool := bool_decide (x = y).

(** [x === y].  Two arrays are equal only when they are the same object;
    the arrays compared by the query core always come from different
    objects (a row and a query, or two rows). *)
Definition strict_eq (x y : value) : bool :=
  match x, y with
  | VPrim a, VPrim b => prim_strict_eq a b
  | _, _ => false
  end.

(** Truthiness, as used by [x || y], [!x] and [filter(v => v)]. *)
Definition truthy (v : value) : bool :=
  match v with
  | VPrim PUndef | VPrim PNull => false
  | VPrim (PBool b) => b
  | VPrim (PNum n) => negb (Z.eqb n 0)
  | VPrim (PStr s) => negb (bool_decide (s = EmptyString))
  | VArr _ => true
  end.


(** [l.indexOf(x)] on an array of primitives, [-1] when absent. *)
Fixpoint indexOf_from (i : Z) (l : list prim) (x : prim) : Z :=
  match l with
  | [] => -1
  | y :: l' => if prim_strict_eq y x then i else indexOf_from (i + 1) l' x
  end.

Definition indexOf (l : list prim) (x : prim) : Z := indexOf_from 0 l x.

Definition includes (l : list prim) (x : prim) : bool :=
  negb (Z.eqb (indexOf l x) (-1)).

(** [String(p)] on a primitive. *)
Definition prim_to_string (p : prim) : string :=
  match p with
  | PUndef => "undefined"
  | PNull => "null"
  | PBool true => "true"
  | PBool false => "false"
  | PNum n => pretty n
  | PStr s => s
  end.

(** [Array.prototype.join(",")]: [null] and [undefined] print as the empty
    string. *)
Definition elem_to_string (p : prim) : string :=
  match p with
  | PUndef | PNull => EmptyString
  | _ => prim_to_string p
  end.

Fixpoint join_comma (l : list string) : string :=
  match l with
  | [] => EmptyString
  | [s] => s
  | s :: l' => s +:+ "," +:+ join_comma l'
  end.

(** [String(v)]. *)
Definition to_string (v : value) : string :=
  match v with
  | VPrim p => prim_to_string p
  | VArr l => join_comma (map elem_to_string l)
  end.

(** [toLowerCase] on ASCII letters. *)
Definition lower_ascii (c : ascii) : ascii :=
  let n := nat_of_ascii c in
  if (65 <=? n)%nat && (n <=? 90)%nat then ascii_of_nat (n + 32) else c.

Fixpoint toLowerCase (s : string) : string :=
  match s with
  | EmptyString => EmptyString
  | String c s' => String (lower_ascii c) (toLowerCase s')
  end.

(** [s.indexOf(t) >= 0]: [t] occurs in [s]. *)
Fixpoint str_contains (s t : string) : bool :=
  String.prefix t s ||
  match s with
  | EmptyString => false
  | String _ s' => str_contains s' t
  end.

(** [s[i]]: the character at index [i], [undefined] out of range. *)
Definition char_at (s : string) (i : nat) : value :=
  match String.get i s with
  | Some c => str (String c EmptyString)
  | None => undefined
  end.

End JS.

Import JS.

(** ** The predicate evaluator: [_compare] and [_where] *)

Module Where.

(** A leaf [[path, op, value]]. *)
Record leaf : Type := mk_leaf {
  path : string;
  op : string;
  val : value
}.

#[global] Instance leaf_eq_dec : EqDecision leaf.
Proof. solve_decision. Defined.

(** One element of a compound WHERE list: a leaf or a connective string. *)
Inductive witem : Type :=
  | WLeaf (l : leaf)
  | WConn (c : string).

#[global] Instance witem_eq_dec : EqDecision witem.
Proof. solve_decision. Defined.

(** A WHERE descriptor: a single leaf, or a flat list that alternates leaves
    and connective strings, given by its first leaf and the following
    (connective, leaf) pairs; [WEmpty] is the empty list.  [_where] tells a
    single leaf from a list by [typeof where[0] !== "string"]. *)
Inductive whereT : Type :=
  | WSingle (l : leaf)
  | WCompound (first : leaf) (rest : list (string * leaf))
  | WEmpty.

(** The elements of a compound list, as the array holds them. *)
Definition items_of (first : leaf) (rest : list (string * leaf))
  : list witem :=
  WLeaf first :: concat (map (fun p => [WConn (fst p); WLeaf (snd p)]) rest).

Section Evaluator.

(** Helpers of the query core that live outside the storage query source. *)

(** [objQuery(path, row, ignoreFirstPath)]: dotted path resolution. *)
Variable objQuery : string -> row -> bool -> value.
(** [s.match(pattern)] is not [null]. *)
Variable js_match : string -> value -> bool.
(** [ToNumber] on a string, [None] for [NaN]. *)
Variable toNumberStr : string -> option Z.

Definition to_primitive (v : value) : prim :=
  match v with
  | VPrim p => p
  | VArr l => PStr (to_string v)
  end.

Definition to_number (p : prim) : option Z :=
  match p with
  | PUndef => None
  | PNull => Some 0
  | PBool b => Some (if b then 1 else 0)
  | PNum n => Some n
  | PStr s => toNumberStr s
  end.

(** The abstract relational comparison [x < y]; [None] is the undefined
    outcome of a comparison with [NaN]. *)
Definition js_lt (x y : value) : option bool :=
  match to_primitive x, to_primitive y with
  | PStr a, PStr b => Some (String.ltb a b)
  | a, b =>
      match to_number a, to_number b with
      | Some m, Some n => Some (m <? n)
      | _, _ => None
      end
  end.

Definition lt (x y : value) : bool := bool_decide (js_lt x y = Some true).
Definition gt (x y : value) : bool := bool_decide (js_lt y x = Some true).
Definition le (x y : value) : bool := bool_decide (js_lt y x = Some false).
Definition ge (x y : value) : bool := bool_decide (js_lt x y = Some false).

(** [(x || []).indexOf(y) >= 0]. *)
Definition or_empty_has (x y : value) : res bool :=
  if negb (truthy x) then Ok false
  else match x with
       | VArr l =>
           match y with
           | VPrim p => Ok (includes l p)
           | VArr _ => Ok false
           end
       | VPrim (PStr s) => Ok (str_contains s (to_string y))
       | VPrim _ => Throw TypeError
       end.

(** [(x || []).filter(l => (y || []).indexOf(l) > -1)]. *)
Fixpoint filter_has (l : list prim) (y : value) : res (list prim) :=
  match l with
  | [] => Ok []
  | p :: l' =>
      rbind (or_empty_has y (VPrim p)) (fun keep =>
      rbind (filter_has l' y) (fun tl =>
      Ok (if keep then p :: tl else tl)))
  end.

Definition or_empty_filter (x y : value) : res (list prim) :=
  if negb (truthy x) then Ok []
  else match x with
       | VArr l => filter_has l y
       | VPrim _ => Throw TypeError
       end.

(** [x[i]] for a property read on a value. *)
Definition index_value (x : value) (i : nat) : res value :=
  match x with
  | VArr l => Ok (from_option VPrim undefined (l !! i))
  | VPrim (PStr s) => Ok (char_at s i)
  | VPrim PUndef | VPrim PNull => Throw TypeError
  | VPrim _ => Ok undefined
  end.

Definition is_like (compare : value) : bool :=
  strict_eq compare (str "LIKE") || strict_eq compare (str "NOT LIKE").

(** [String(val || empty).toLowerCase()], [empty] the empty string. *)
Definition lowered (val : value) : string :=
  toLowerCase (to_string (if truthy val then val else str EmptyString)).

(** [setValue] of [_compare]. *)
Definition setValue (compare : value) (val : value) : value :=
  if is_like compare then str (lowered val) else val.

Definition is_nullish (v : value) : bool :=
  strict_eq v null || strict_eq v undefined.

(** [_compare(val1, compare, val2)]: [val1] is the given value, [val2] the
    column value. *)
Definition _compare (val1 compare val2 : value) : res bool :=
  let columnValue := setValue compare val2 in
  let givenValue := setValue compare val1 in
  if strict_eq val1 (str "NULL") || strict_eq val1 (str "NOT NULL") then
    let pos := strict_eq compare (str "=") || strict_eq compare (str "LIKE") in
    Ok (if (if strict_eq val1 (str "NULL")
            then is_nullish val2 else negb (is_nullish val2))
        then pos else negb pos)
  else
    match compare with
    | VPrim (PStr "=") => Ok (strict_eq columnValue givenValue)
    | VPrim (PStr "!=") => Ok (negb (strict_eq columnValue givenValue))
    | VPrim (PStr ">") => Ok (gt columnValue givenValue)
    | VPrim (PStr "<") => Ok (lt columnValue givenValue)
    | VPrim (PStr "<=") => Ok (le columnValue givenValue)
    | VPrim (PStr ">=") => Ok (ge columnValue givenValue)
    | VPrim (PStr "IN") => or_empty_has givenValue columnValue
    | VPrim (PStr "NOT IN") =>
        rbind (or_empty_has givenValue columnValue) (fun b => Ok (negb b))
    | VPrim (PStr "REGEX") =>
        match columnValue with
        | VPrim (PStr s) =>
            if js_match s givenValue then Ok true else Throw TypeError
        | _ => Throw TypeError
        end
    | VPrim (PStr "LIKE") =>
        Ok (str_contains (lowered columnValue) (to_string givenValue))
    | VPrim (PStr "NOT LIKE") =>
        Ok (negb (str_contains (lowered columnValue) (to_string givenValue)))
    | VPrim (PStr "BETWEEN") =>
        rbind (index_value givenValue 0) (fun g0 =>
        if le g0 columnValue
        then rbind (index_value givenValue 1) (fun g1 => Ok (ge g1 columnValue))
        else Ok false)
    | VPrim (PStr "HAVE") => or_empty_has columnValue givenValue
    | VPrim (PStr "NOT HAVE") =>
        rbind (or_empty_has columnValue givenValue) (fun b => Ok (negb b))
    | VPrim (PStr "INTERSECT") =>
        rbind (or_empty_filter columnValue givenValue) (fun l =>
        Ok (negb (bool_decide (l = []))))
    | VPrim (PStr "NOT INTERSECT") =>
        rbind (or_empty_filter columnValue givenValue) (fun l =>
        Ok (bool_decide (l = [])))
    | _ => Ok false
    end.


(** *** [_where] *)

(** The pre-computed search results handed to [_where] by the full table
    scan: [searchCache[idx]] is the row list of the search leaf at [idx]. *)
Abbreviation searchCacheT := (gmap nat (list row)).

Variable singleRow : row.
Variable ignoreFirstPath : bool.
Variable searchCache : option searchCacheT.
Variable pk : string.

(** [wArg[0]], [wArg[1]], [wArg[2]] of the element at an even index.  A
    string in that place is indexed by character. *)
Definition leaf_parts (wArg : witem) : res (string * value * value) :=
  match wArg with
  | WLeaf l => Ok (path l, str (op l), val l)
  | WConn EmptyString => Throw TypeError
  | WConn (String c s) =>
      Ok (String c EmptyString, char_at (String c s) 1, char_at (String c s) 2)
  end.

(** The comparison of one leaf, [compareResult]. *)
Definition leafResult (idx : nat) (wArg : witem) : res bool :=
  rbind (leaf_parts wArg) (fun '(path, op, val) =>
  match searchCache with
  | Some cache =>
      if str_contains path "search(" then
        match cache !! idx with
        | Some rows =>
            Ok (existsb (fun r => strict_eq (get r pk) (get singleRow pk)) rows)
        | None => Throw TypeError
        end
      else _compare val op (objQuery path singleRow ignoreFirstPath)
  | None => _compare val op (objQuery path singleRow ignoreFirstPath)
  end).

(** The variables closed over by the callback of [where.reduce], together
    with its accumulator [prev] and the indices of the leaves compared so
    far. *)
Record wstate : Type := mk_wstate {
  decided : option bool;
  prevCondition : option witem;
  prev : bool;
  evaluated : list nat
}.

Definition winit : wstate :=
  {| decided := None; prevCondition := None; prev := false; evaluated := [] |}.

(** One call of the callback of [where.reduce]. *)
Definition where_step (hasOr : bool) (st : wstate) (idx : nat) (wArg : witem)
  : res wstate :=
  match decided st with
  | Some d =>
      Ok {| decided := decided st; prevCondition := prevCondition st;
            prev := d; evaluated := evaluated st |}
  | None =>
      if Nat.odd idx then
        Ok {| decided := None; prevCondition := Some wArg;
              prev := prev st; evaluated := evaluated st |}
      else
        rbind (leafResult idx wArg) (fun compareResult =>
        let ev := (evaluated st ++ [idx])%list in
        if negb hasOr && negb compareResult then
          Ok {| decided := Some false; prevCondition := prevCondition st;
                prev := false; evaluated := ev |}
        else if Nat.eqb idx 0 then
          Ok {| decided := None; prevCondition := prevCondition st;
                prev := compareResult; evaluated := ev |}
        else if bool_decide (prevCondition st = Some (WConn "AND")) then
          Ok {| decided := None; prevCondition := prevCondition st;
                prev := prev st && compareResult; evaluated := ev |}
        else
          Ok {| decided := None; prevCondition := prevCondition st;
                prev := prev st || compareResult; evaluated := ev |})
  end.

(** [where.reduce(callback, false)] from index [idx] on. *)
Fixpoint where_reduce (hasOr : bool) (items : list witem) (idx : nat)
  (st : wstate) : res wstate :=
  match items with
  | [] => Ok st
  | wArg :: rest =>
      rbind (where_step hasOr st idx wArg) (where_reduce hasOr rest (S idx))
  end.

(** [where.indexOf("OR") !== -1]. *)
Definition hasOr_of (items : list witem) : bool :=
  existsb (fun w => bool_decide (w = WConn "OR")) items.

(** [_where] together with the indices of the leaves it compared. *)
Definition where_run (w : whereT) : res wstate :=
  match w with
  | WSingle l =>
      rbind (_compare (val l) (str (op l))
               (objQuery (path l) singleRow ignoreFirstPath))
        (fun b => Ok {| decided := None; prevCondition := None;
                        prev := b; evaluated := [0%nat] |})
  | WCompound first rest =>
      let items := items_of first rest in
      where_reduce (hasOr_of items) items 0 winit
  | WEmpty => Ok winit
  end.

(** [_where(singleRow, where, rowIDX, ignoreFirstPath, searchCache, pk)]. *)
Definition _where (w : whereT) : res bool :=
  rbind (where_run w) (fun st => Ok (prev st)).

(** *** The reading of a compound list as a fold

    The comparison results of the leaves after the first, each with the
    connective before it; the element after the connective at [idx] is the
    leaf at [idx + 1]. *)
Fixpoint eval_rest (idx : nat) (rest : list (string * leaf))
  : res (list (string * bool)) :=
  match rest with
  | [] => Ok []
  | (c, l) :: tl =>
      rbind (leafResult (S idx) (WLeaf l)) (fun r =>
      rbind (eval_rest (S (S idx)) tl) (fun rs => Ok ((c, r) :: rs)))
  end.

End Evaluator.


(** The elements of a compound list after its first leaf. *)
Definition flat (rest : list (string * leaf)) : list witem :=
  concat (map (fun p => [WConn (fst p); WLeaf (snd p)]) rest).




End Where.

(** ** The store: table descriptors, adapter state and the storage calls *)

Module Store.

(** *** Table descriptors ([_NanoSQLStorage.tableInfo]) *)

Inductive arity : Type := ArrayT | SingleT.

#[global] Instance arity_eq_dec : EqDecision arity.
Proof. solve_decision. Defined.

(** One ORM relationship of [_relToTable[table]]. *)
Record relation : Type := mk_relation {
  _thisColumn : string;
  _thisType : arity;
  _fromTable : string;
  _fromColumn : string;
  _fromType : arity
}.

Record viewColumn : Type := mk_viewColumn {
  thisColumn : string;
  otherColumn : string
}.

Inductive viewMode : Type := LIVE | GHOST.

#[global] Instance viewMode_eq_dec : EqDecision viewMode.
Proof. solve_decision. Defined.

(** A local view definition, [tableInfo[T]._views[U]]. *)
Record viewDef : Type := mk_viewDef {
  pkColumn : string;
  columns : list viewColumn;
  mode : viewMode
}.

(** An entry of [tableInfo[T]._viewTables]: a table whose view reads [T]. *)
Record viewTable : Type := mk_viewTable {
  vt_table : string;
  vt_column : string
}.

Record tableInfoT : Type := mk_tableInfo {
  _pk : string;
  _name : string;
  _keys : list string;
  _secondaryIndexes : list string;
  (** [_searchColumns[col] = [boost, mode]], in the order of [Object.keys] *)
  _searchColumns : list (string * (string * string));
  (** [_views[table]], in the order of [Object.keys] *)
  _views : list (string * viewDef);
  _viewTables : list viewTable
}.

(** A registered function of [NanoSQLInstance.functions]: an aggregate
    (type "A") hands one value to its callback, a scalar function (type
    "S") one value per row. *)
Inductive nsqlFunction : Type :=
  | FnA (call : list row -> list string -> value)
  | FnS (call : list row -> list string -> list value).

Record config : Type := mk_config {
  tableInfo : gmap string tableInfoT;
  _hasORM : bool;
  _hasViews : bool;
  _doCache : bool;
  _relToTable : gmap string (list relation);
  functions : gmap string nsqlFunction;
  (** [_store.models]: the columns and their types *)
  models : gmap string (list (string * string));
  (** whether the adapter's [rangeRead] includes the row at index [to] *)
  rangeInclusive : bool;
  (** whether the adapter hands out frozen rows *)
  adapterFreezes : bool
}.

(** *** Records of the search index tables *)

(** A row of [SearchRowIndex.rows]: [{id, l, i}]. *)
Record searchHit : Type := mk_hit {
  hit_id : value;
  hit_l : nat;
  hit_i : list nat
}.

(** [SearchRowIndex]: [{wrd, rows}]. *)
Record SearchRowIndex : Type := mk_sri {
  wrd : string;
  sri_rows : list searchHit
}.

(** A token [{o, w, i}] of [_tokenizer]. *)
Record token : Type := mk_token {
  tok_o : string;
  tok_w : string;
  tok_i : nat
}.

(** The token record of a row and column: [{id, hash, tokens}]. *)
Record tokenRecord : Type := mk_tokrec {
  tr_id : value;
  tr_hash : string;
  tr_tokens : list (string * nat)
}.

(** *** Rows as objects

    A row handed out by the adapter may be frozen; the module is in strict
    mode, where an assignment to a property of a frozen object throws. *)
Record obj : Type := mk_obj {
  frozen : bool;
  fields : row
}.

(** [o[k] = v]. *)
Definition set_prop (o : obj) (k : string) (v : value) : res obj :=
  if frozen o then Throw TypeError
  else Ok {| frozen := false; fields := <[k := v]> (fields o) |}.

(** [_assign(o)]: a copy, which is not frozen. *)
Definition _assign (o : obj) : obj :=
  {| frozen := false; fields := fields o |}.

(** *** Adapter state *)

(** What a query did to the adapter. *)
Inductive event : Type :=
  | EvRead (table : string)
  | EvWrite (table : string) (pk : value)
  | EvDelete (table : string) (pk : value)
  | EvDrop (table : string).

#[global] Instance event_eq_dec : EqDecision event.
Proof. solve_decision. Defined.

Record state : Type := mk_state {
  (** the rows of each user table, in primary key order *)
  rows_of : gmap string (list row);
  (** the tables [_T_search_col] and [_T_search_fuzzy_col], by word *)
  search_of : gmap string (gmap string SearchRowIndex);
  (** the tables [_T_search_tokens_col] *)
  tokens_of : gmap string (list tokenRecord);
  (** [_store._cache]: table, then query fingerprint *)
  _cache : gmap string (gmap string (list row));
  (** the adapter operations so far, oldest first *)
  log : list event
}.

Definition empty_state : state :=
  {| rows_of := ∅; search_of := ∅; tokens_of := ∅; _cache := ∅; log := [] |}.

(** *** The monad of the query core: adapter state and thrown errors.  The
    state at the time of a throw is kept. *)

Definition M (A : Type) : Type := state -> res A * state.

Definition ret {A} (a : A) : M A := fun s => (Ok a, s).

Definition bind {A B} (m : M A) (f : A -> M B) : M B :=
  fun s => match m s with
           | (Ok a, s') => f a s'
           | (Throw e, s') => (Throw e, s')
           end.

Definition throw {A} (e : string) : M A := fun s => (Throw e, s).

Definition lift {A} (r : res A) : M A := fun s => (r, s).

Definition gets {A} (f : state -> A) : M A := fun s => (Ok (f s), s).

Definition modify (f : state -> state) : M unit := fun s => (Ok tt, f s).

Declare Scope engine_scope.
Delimit Scope engine_scope with engine.
Bind Scope engine_scope with M.

Notation "'let*' x ':=' m 'in' k" := (bind m (fun x => k))
  (at level 10, x name, m at level 100, k at level 200) : engine_scope.
Notation "'let*' ' p ':=' m 'in' k" := (bind m (fun x => match x with p => k end))
  (at level 10, p pattern, m at level 100, k at level 200) : engine_scope.
Notation "m ';;' k" := (bind m (fun _ => k))
  (at level 100, k at level 200, right associativity) : engine_scope.

Open Scope engine_scope.

(** [fastALL] and [fastCHAIN] over a list, one element after the other. *)
Fixpoint mapM {A B} (f : A -> M B) (l : list A) : M (list B) :=
  match l with
  | [] => ret []
  | a :: l' => let* b := f a in let* bs := mapM f l' in ret (b :: bs)
  end.

Fixpoint iterM {A} (f : A -> M unit) (l : list A) : M unit :=
  match l with
  | [] => ret tt
  | a :: l' => f a ;; iterM f l'
  end.

Definition emit (e : event) : M unit :=
  modify (fun s => {| rows_of := rows_of s; search_of := search_of s;
                      tokens_of := tokens_of s; _cache := _cache s;
                      log := (log s ++ [e])%list |}).

Definition set_rows (table : string) (rs : list row) : M unit :=
  modify (fun s => {| rows_of := <[table := rs]> (rows_of s);
                      search_of := search_of s; tokens_of := tokens_of s;
                      _cache := _cache s; log := log s |}).

Definition set_search (table : string) (t : gmap string SearchRowIndex)
  : M unit :=
  modify (fun s => {| rows_of := rows_of s;
                      search_of := <[table := t]> (search_of s);
                      tokens_of := tokens_of s;
                      _cache := _cache s; log := log s |}).

Definition set_tokens (table : string) (t : list tokenRecord) : M unit :=
  modify (fun s => {| rows_of := rows_of s; search_of := search_of s;
                      tokens_of := <[table := t]> (tokens_of s);
                      _cache := _cache s; log := log s |}).

Definition set_cache (c : gmap string (gmap string (list row))) : M unit :=
  modify (fun s => {| rows_of := rows_of s; search_of := search_of s;
                      tokens_of := tokens_of s; _cache := c; log := log s |}).

Definition table_rows (s : state) (table : string) : list row :=
  default [] (rows_of s !! table).

End Store.

(** ** The storage calls

    The storage class and the adapters are outside the storage query
    source; what the query core asks of them is modelled here. *)

Module Storage.
Import Store.

Section Calls.

Variable cfg : config.

(** The primary key column of a table; [tableInfo[table]._pk] throws when the
    table has no descriptor. *)
Definition pk_of (table : string) : M string :=
  match tableInfo cfg !! table with
  | Some ti => ret (_pk ti)
  | None => throw TypeError
  end.

Definition info_of (table : string) : M tableInfoT :=
  match tableInfo cfg !! table with
  | Some ti => ret ti
  | None => throw TypeError
  end.

(** Modelled from the spec: adapter keys.  Keys are numeric or string.  The
    search lookup reads rows by the keys of a plain object, which are
    strings, so a key addresses the row whose key prints the same. *)
Definition key_eq (a b : value) : bool :=
  bool_decide (to_string a = to_string b).

(** Modelled from the spec: the primary key order of a table, numbers
    before strings. *)
Definition key_lt (a b : value) : bool :=
  match a, b with
  | VPrim (PNum m), VPrim (PNum n) => m <? n
  | VPrim (PNum _), _ => true
  | _, VPrim (PNum _) => false
  | _, _ => String.ltb (to_string a) (to_string b)
  end.

Definition find_row (pkcol : string) (rs : list row) (key : value)
  : option row :=
  List.find (fun r => key_eq (get r pkcol) key) rs.

(** Insert or replace a row, keeping primary key order. *)
Fixpoint put_row (pkcol : string) (r : row) (rs : list row) : list row :=
  match rs with
  | [] => [r]
  | x :: rs' =>
      if key_eq (get x pkcol) (get r pkcol) then r :: rs'
      else if key_lt (get r pkcol) (get x pkcol) then r :: x :: rs'
      else x :: put_row pkcol r rs'
  end.

Definition remove_row (pkcol : string) (key : value) (rs : list row)
  : list row :=
  List.filter (fun r => negb (key_eq (get r pkcol) key)) rs.

(** Modelled from the spec: [write] with a [null] key lets the adapter
    assign a monotone key. *)
Definition next_key (pkcol : string) (rs : list row) : value :=
  num (1 + fold_right (fun r m =>
                         match get r pkcol with
                         | VPrim (PNum n) => Z.max n m
                         | _ => m
                         end) 0 rs).

(** Modelled from the spec: [adapter.read(table, pk) -> row | nothing]. *)
Definition adapter_read (table : string) (key : value) : M (option row) :=
  let* pkcol := pk_of table in
  emit (EvRead table) ;;
  let* rs := gets (fun s => table_rows s table) in
  ret (find_row pkcol rs key).

(** Modelled from the spec: [adapterWrite(table, pk, row) -> row]. *)
Definition adapterWrite (table : string) (key : value) (r : row) : M row :=
  let* pkcol := pk_of table in
  let* rs := gets (fun s => table_rows s table) in
  let key' := if strict_eq key null || strict_eq key undefined
              then next_key pkcol rs else key in
  let r' := <[pkcol := key']> r in
  emit (EvWrite table key') ;;
  set_rows table (put_row pkcol r' rs) ;;
  ret r'.

(** Modelled from the spec: [_read(table, pks) -> rows], the batch read. *)
Definition _read_keys (table : string) (keys : list value) : M (list row) :=
  let* found := mapM (adapter_read table) keys in
  ret (omap id found).

Fixpoint filterM_idx (keep : row -> nat -> res bool) (idx : nat)
  (rs : list row) : res (list row) :=
  match rs with
  | [] => Ok []
  | r :: rs' =>
      rbind (keep r idx) (fun k =>
      rbind (filterM_idx keep (S idx) rs') (fun tl =>
      Ok (if k then r :: tl else tl)))
  end.

(** Modelled from the spec: [_read(table, (row, idx, keep) => ..., complete)],
    the full scan in primary key order. *)
Definition _read_scan (table : string) (keep : row -> nat -> res bool)
  : M (list row) :=
  let* _ := pk_of table in
  emit (EvRead table) ;;
  let* rs := gets (fun s => table_rows s table) in
  lift (filterM_idx keep 0 rs).

Fixpoint with_index {A} (i : Z) (l : list A) : list (Z * A) :=
  match l with
  | [] => []
  | a :: l' => (i, a) :: with_index (i + 1) l'
  end.

(** Modelled from the spec: [_rangeRead(table, from, to, false)], the rows at
    the positions [from] to [to] of the primary key order.  Whether the row
    at position [to] is part of the answer is the adapter's choice
    [rangeInclusive]. *)
Definition _rangeRead_idx (table : string) (from to : Z) : M (list row) :=
  let* _ := pk_of table in
  emit (EvRead table) ;;
  let* rs := gets (fun s => table_rows s table) in
  ret (map snd (List.filter
                  (fun '(i, _) =>
                     (from <=? i) &&
                     (if rangeInclusive cfg then i <=? to else i <? to))
                  (with_index 0 rs))).

(** Modelled from the spec: [_rangeRead(table, from, to, true)], the rows
    whose key lies between [from] and [to]. *)
Definition _rangeRead_pk (table : string) (from to : value) : M (list row) :=
  let* pkcol := pk_of table in
  emit (EvRead table) ;;
  let* rs := gets (fun s => table_rows s table) in
  ret (List.filter (fun r => negb (key_lt (get r pkcol) from) &&
                             negb (key_lt to (get r pkcol))) rs).

(** Modelled from the spec: [_rangeRead(table, undefined, undefined, false)],
    every row. *)
Definition _rangeRead_all (table : string) : M (list row) :=
  let* _ := pk_of table in
  emit (EvRead table) ;;
  gets (fun s => table_rows s table).

(** Modelled from the spec: [getIndex(table, true)], the row count. *)
Definition getIndex_length (table : string) : M Z :=
  let* _ := pk_of table in
  emit (EvRead table) ;;
  gets (fun s => Z.of_nat (length (table_rows s table))).

(** Modelled from the spec: [_secondaryIndexRead(table, column, value)], the
    rows whose column equals the index key. *)
Definition _secondaryIndexRead (table column : string) (v : value)
  : M (list row) :=
  let* _ := pk_of table in
  emit (EvRead table) ;;
  let* rs := gets (fun s => table_rows s table) in
  ret (List.filter (fun r => key_eq (get r column) v) rs).

(** Modelled from the spec: [_trieRead(table, column, search)], the rows
    whose column starts with the prefix. *)
Definition _trieRead (table column search : string) : M (list row) :=
  let* _ := pk_of table in
  emit (EvRead table) ;;
  let* rs := gets (fun s => table_rows s table) in
  ret (List.filter (fun r => String.prefix search (to_string (get r column)))
         rs).

(** Modelled from the spec: [_write(table, pk, oldRow, newRow) -> row]
    stores the columns of [newRow] over those of [oldRow]. *)
Definition _write (table : string) (key : value) (oldRow : option row)
  (newRow : row) : M row :=
  adapterWrite table key (newRow ∪ default ∅ oldRow).

(** Modelled from the spec: [_delete(table, pk)]. *)
Definition _delete (table : string) (key : value) : M unit :=
  let* pkcol := pk_of table in
  let* rs := gets (fun s => table_rows s table) in
  emit (EvDelete table key) ;;
  set_rows table (remove_row pkcol key rs).

(** Modelled from the spec: [_drop(table)]. *)
Definition _drop (table : string) : M unit :=
  let* _ := pk_of table in
  emit (EvDrop table) ;;
  set_rows table [].

(** Reads and writes of the search index tables and of the token tables go
    through the adapter as well. *)
Definition search_read (table word : string)
  : M (option SearchRowIndex) :=
  emit (EvRead table) ;;
  gets (fun s => default ∅ (search_of s !! table) !! word).

Definition search_write (table word : string) (r : SearchRowIndex)
  : M unit :=
  let* t := gets (fun s => default ∅ (search_of s !! table)) in
  emit (EvWrite table (str word)) ;;
  set_search table (<[word := r]> t).

Definition tokens_read (table : string) (key : value)
  : M (option tokenRecord) :=
  emit (EvRead table) ;;
  gets (fun s => List.find (fun t => key_eq (tr_id t) key)
                   (default [] (tokens_of s !! table))).

Definition tokens_write (table : string) (key : value) (t : tokenRecord)
  : M unit :=
  let* ts := gets (fun s => default [] (tokens_of s !! table)) in
  emit (EvWrite table key) ;;
  set_tokens table
    (List.filter (fun x => negb (key_eq (tr_id x) key)) ts ++ [t])%list.

Definition tokens_delete (table : string) (key : value) : M unit :=
  let* ts := gets (fun s => default [] (tokens_of s !! table)) in
  emit (EvDelete table key) ;;
  set_tokens table (List.filter (fun x => negb (key_eq (tr_id x) key)) ts).

End Calls.

End Storage.

(** ** The query descriptor ([IdbQuery]) *)

Module Query.

Inductive tableRef : Type :=
  | TName (name : string)
  | TInstance (rows : list row).

(** [actionArgs]: the column list of a select or the row of an upsert. *)
Inductive actionArgsT : Type :=
  | AColumns (l : list string)
  | ARow (r : row).

(** [where] and [having]: a list or a function of the row and its index. *)
Inductive whereClause : Type :=
  | WArr (w : Where.whereT)
  | WFn (f : row -> nat -> bool).

Record joinT : Type := mk_join {
  join_type : string;
  join_table : string;
  join_where : option (string * string * string)
}.

Record query : Type := mk_query {
  action : string;
  table : tableRef;
  actionArgs : option actionArgsT;
  qwhere : option whereClause;
  (** [[limit, offset]] *)
  range : option (Z * Z);
  (** [{column, search}] *)
  trie : option (string * string);
  join : option joinT;
  groupBy : option (list (string * string));
  orderBy : option (list (string * string));
  having : option whereClause;
  offset : option Z;
  limit : option Z;
  orm : option (list string);
  comments : list string;
  queryID : option string
}.

(** [query.result]: a row list, or the envelope of a write. *)
Inductive queryResult : Type :=
  | RRows (rows : list row)
  | RWrite (msg : string) (affectedRowPKS : list value)
      (affectedRows : list row)
  | RNames (names : list string)
  | RModel (model : list (string * string))
  | RNone.

(** Truthiness of the optional number fields [offset] and [limit]. *)
Definition num_set (o : option Z) : bool :=
  match o with
  | Some n => negb (n =? 0)
  | None => false
  end.

Definition is_set {A} (o : option A) : bool :=
  match o with Some _ => true | None => false end.

(** [{...q, queryID: null}]. *)
Definition clear_queryID (q : query) : query :=
  {| action := action q; table := table q; actionArgs := actionArgs q;
     qwhere := qwhere q; range := range q; trie := trie q; join := join q;
     groupBy := groupBy q; orderBy := orderBy q; having := having q;
     offset := offset q; limit := limit q; orm := orm q;
     comments := comments q; queryID := None |}.

(** [Array.isArray(query.table)]. *)
Definition isInstanceTable (q : query) : bool :=
  match table q with TInstance _ => true | TName _ => false end.

(** The property key that [tableInfo[query.table]] reads: an array prints
    as its elements joined by commas, a row as [[object Object]]. *)
Definition table_key (q : query) : string :=
  match table q with
  | TName name => name
  | TInstance rows => join_comma (map (fun _ => "[object Object]") rows)
  end.

End Query.

(** ** Full-text search: tokenizer and index writer *)

Module Search.
Import Store Storage Query.

Section Tokens.

Variable cfg : config.
(** The stemming and phonetic libraries. *)
Variable stemmer : string -> string.
Variable metaphone : string -> string.
(** [hash] of the utilities, on a column value. *)
Variable hash : value -> string.
(** [getConfig().tokenizer], when the user gave one: it returns the tokens
    or [false]. *)
Variable userTokenizer :
  option (string -> string -> string * string -> value -> option (list token)).

(** [\s] on ASCII: space, tab, line feed, vertical tab, form feed, carriage
    return. *)
Definition is_space (c : ascii) : bool :=
  let n := nat_of_ascii c in
  (n =? 32)%nat || ((9 <=? n)%nat && (n <=? 13)%nat).

(** [\w] without the underscore. *)
Definition is_alnum (c : ascii) : bool :=
  let n := nat_of_ascii c in
  ((48 <=? n)%nat && (n <=? 57)%nat) ||
  ((65 <=? n)%nat && (n <=? 90)%nat) ||
  ((97 <=? n)%nat && (n <=? 122)%nat).

Fixpoint filter_chars (keep : ascii -> bool) (s : string) : string :=
  match s with
  | EmptyString => EmptyString
  | String c s' =>
      if keep c then String c (filter_chars keep s') else filter_chars keep s'
  end.

(** The [replace] that drops what is neither a word character nor white
    space, and the underscore. *)
Definition strip_punctuation : string -> string :=
  filter_chars (fun c => is_alnum c || is_space c).

(** The [replace] that drops line breaks and tabs. *)
Definition strip_breaks : string -> string :=
  filter_chars (fun c => let n := nat_of_ascii c in
                         negb ((n =? 10)%nat || (n =? 13)%nat || (n =? 9)%nat)).

(** [replace(/\s+/g, " ")]. *)
Fixpoint collapse_spaces (in_space : bool) (s : string) : string :=
  match s with
  | EmptyString => EmptyString
  | String c s' =>
      if is_space c
      then (if in_space then collapse_spaces true s'
            else String " "%char (collapse_spaces true s'))
      else String c (collapse_spaces false s')
  end.

(** [split(" ")]: the empty string splits into one empty word. *)
Fixpoint split_space (cur : string) (s : string) : list string :=
  match s with
  | EmptyString => [cur]
  | String c s' =>
      if Ascii.eqb c " "%char then cur :: split_space EmptyString s'
      else split_space (cur +:+ String c EmptyString) s'
  end.

(** Step 1 of [_tokenizer]. *)
Definition words_of (s : string) : list string :=
  split_space EmptyString
    (collapse_spaces false (strip_breaks (strip_punctuation (toLowerCase s)))).

Fixpoint mapi_from {A B} (f : A -> nat -> B) (i : nat) (l : list A) : list B :=
  match l with
  | [] => []
  | a :: l' => f a i :: mapi_from f (S i) l'
  end.

Definition mapi {A B} (f : A -> nat -> B) (l : list A) : list B :=
  mapi_from f 0 l.

(** [_tokenizer(column, value)] on a table. *)
Definition _tokenizer (table column : string) (v : value)
  : M (list token) :=
  let* ti := info_of cfg table in
  match List.find (fun e => bool_decide (fst e = column)) (_searchColumns ti)
  with
  | None => ret []
  | Some (_, args) =>
      let builtin : M (list token) :=
        let* s := (if truthy v
                   then match v with
                        | VPrim (PStr s) => ret s
                        | _ => throw TypeError
                        end
                   else ret EmptyString) in
        let words := words_of s in
        ret (if bool_decide (snd args = "english")
             then mapi (fun w i => mk_token w (metaphone (stemmer w)) i) words
             else if bool_decide (snd args = "english-stem")
             then mapi (fun w i => mk_token w (stemmer w) i) words
             else if bool_decide (snd args = "english-meta")
             then mapi (fun w i => mk_token w (metaphone w) i) words
             else mapi (fun w i => mk_token w w i) words) in
      match userTokenizer with
      | Some tk =>
          match tk table column args v with
          | Some tokens => ret tokens
          | None => builtin
          end
      | None => builtin
      end
  end.

(** [wordCache[w]] after [tokens.forEach(t => wordCache[t.w] = t.o)]: the
    last token of a word decides. *)
Definition wordCache_get (tokens : list token) (w : string) : option string :=
  tok_o <$> List.find (fun t => bool_decide (tok_w t = w)) (rev tokens).

(** The word that [token.split(/-(.+)/)] recovers from ["i-w"]: an empty
    word comes back as [undefined], which keys the object as the text
    "undefined". *)
Definition split_word (w : string) : string :=
  if bool_decide (w = EmptyString) then "undefined" else w.

(** [reduceWords]: the positions of each word, words in the order of their
    first token. *)
Fixpoint reduceWords (tokens : list (string * nat))
  : list (string * list nat) :=
  match tokens with
  | [] => []
  | (w, i) :: rest =>
      let w' := split_word w in
      let later := reduceWords rest in
      (w', i :: default [] (snd <$> List.find
                              (fun e => bool_decide (fst e = w')) later))
        :: List.filter (fun e => negb (bool_decide (fst e = w'))) later
  end.

(** [rows.forEach((sRow, l) => { if (sRow.id === pk) rows.splice(l, 1) })]:
    after a removal the element that moved into the freed place is not
    visited. *)
Fixpoint splice_matching (pk : value) (rows : list searchHit)
  : list searchHit :=
  match rows with
  | [] => []
  | x :: rest =>
      if strict_eq (hit_id x) pk then
        match rest with
        | [] => []
        | y :: rest' => y :: splice_matching pk rest'
        end
      else x :: splice_matching pk rest
  end.

Definition token_in (l : list (string * nat)) (t : string * nat) : bool :=
  existsb (fun u => bool_decide (u = t)) l.

(** The body run for one word and one index table of [_updateSearchIndex]. *)
Definition update_word (table col : string) (pk : value)
  (newTokens : list token) (j : nat) (word : string) (positions : list nat)
  (l : nat) : M unit :=
  let section := if Nat.eqb l 0 then "_search_" else "_search_fuzzy_" in
  let key := if Nat.eqb l 0 then Some word else wordCache_get newTokens word in
  match key with
  | None => ret tt
  | Some k =>
      if bool_decide (k = EmptyString) then ret tt
      else
        let indexTable := "_" +:+ table +:+ section +:+ col in
        let* colRow := search_read indexTable k in
        let searchIndex := default (mk_sri word []) colRow in
        let rows' :=
          if Nat.eqb j 0 then splice_matching pk (sri_rows searchIndex)
          else (sri_rows searchIndex ++
                [mk_hit pk (length newTokens) positions])%list in
        search_write indexTable k (mk_sri (wrd searchIndex) rows')
  end.

(** [_updateSearchIndex(pk, newRowData, complete)]. *)
Definition _updateSearchIndex (table : string) (pk : value)
  (newRowData : row) : M unit :=
  let* ti := info_of cfg table in
  let columns := map fst (_searchColumns ti) in
  if bool_decide (columns = []) ||
     negb (existsb (fun c => bool_decide (is_Some (newRowData !! c))) columns)
  then ret tt
  else
    let tokenTable := "_" +:+ table +:+ "_search_tokens_" in
    iterM (fun col =>
      if Where.is_nullish (get newRowData col) then ret tt
      else
        let* row := tokens_read (tokenTable +:+ col) pk in
        let existing := default (mk_tokrec pk "1505" []) row in
        let thisHash := hash (get newRowData col) in
        if bool_decide (thisHash = tr_hash existing) then ret tt
        else
          let* newTokens := _tokenizer table col (get newRowData col) in
          let oldTokenIdx := map (fun t => (snd t, fst t)) (tr_tokens existing) in
          let newTokenIdx := map (fun t => (tok_i t, tok_w t)) newTokens in
          let addTokens :=
            List.filter (fun t => negb (bool_decide (t ∈ oldTokenIdx)))
              newTokenIdx in
          let removeTokens :=
            List.filter (fun t => negb (bool_decide (t ∈ newTokenIdx)))
              oldTokenIdx in
          iterM (fun '(j, tokens) =>
            iterM (fun '(word, positions) =>
              iterM (update_word table col pk newTokens j word positions)
                [0%nat; 1%nat])
              (reduceWords (map (fun t => (snd t, fst t)) tokens)))
            [(0%nat, removeTokens); (1%nat, addTokens)] ;;
          tokens_write (tokenTable +:+ col) pk
            (mk_tokrec pk thisHash
               (map (fun o => (tok_w o, tok_i o)) newTokens)))
      columns.

End Tokens.

End Search.

(** ** Plain objects used as dictionaries *)

Module JSObj.

(** The properties in insertion order. *)
Definition jsobj (A : Type) : Type := list (string * A).

Definition obj_get {A} (o : jsobj A) (k : string) : option A :=
  snd <$> List.find (fun e => bool_decide (fst e = k)) o.

Fixpoint obj_set {A} (o : jsobj A) (k : string) (a : A) : jsobj A :=
  match o with
  | [] => [(k, a)]
  | (k', a') :: o' =>
      if bool_decide (k' = k) then (k, a) :: o' else (k', a') :: obj_set o' k a
  end.

Definition obj_delete {A} (o : jsobj A) (k : string) : jsobj A :=
  List.filter (fun e => negb (bool_decide (fst e = k))) o.

Definition digit_of (c : ascii) : option N :=
  let n := N_of_ascii c in
  if (48 <=? n)%N && (n <=? 57)%N then Some (n - 48)%N else None.

Fixpoint parse_digits (acc : N) (s : string) : option N :=
  match s with
  | EmptyString => Some acc
  | String c s' =>
      match digit_of c with
      | Some d => parse_digits (acc * 10 + d)%N s'
      | None => None
      end
  end.

(** A key that is a canonical array index. *)
Definition index_key (k : string) : option N :=
  match k with
  | EmptyString => None
  | _ =>
      match parse_digits 0%N k with
      | Some n =>
          if bool_decide (pretty n = k) && (n <? 4294967295)%N
          then Some n else None
      | None => None
      end
  end.

Fixpoint insert_sorted (n : N) (k : string) (l : list (N * string))
  : list (N * string) :=
  match l with
  | [] => [(n, k)]
  | (m, k') :: l' =>
      if (n <=? m)%N then (n, k) :: l else (m, k') :: insert_sorted n k l'
  end.

(** [Object.keys]: the index keys in ascending order, then the other keys
    in insertion order. *)
Definition obj_keys {A} (o : jsobj A) : list string :=
  let ks := map fst o in
  let idx := fold_right (fun k acc =>
                           match index_key k with
                           | Some n => insert_sorted n k acc
                           | None => acc
                           end) [] ks in
  (map snd idx ++
   List.filter (fun k => negb (bool_decide (is_Some (index_key k)))) ks)%list.

End JSObj.

(** ** Row selection ([_RowSelection] and [InstanceSelection]) *)

Module Selection.
Import Store Storage Query Search JSObj.

(** The collaborators of the query core that live outside the storage query
    source. *)
Record externals : Type := mk_externals {
  (** [objQuery(path, row, ignoreFirstPath)] of the utilities *)
  objQuery : string -> row -> bool -> value;
  (** [s.match(pattern)] is not [null] *)
  js_match : string -> value -> bool;
  (** [ToNumber] on a string, [None] for [NaN] *)
  toNumberStr : string -> option Z;
  stemmer : string -> string;
  metaphone : string -> string;
  (** [hash] of the utilities on a column value *)
  hash : value -> string;
  (** [hash(JSON.stringify(query))] *)
  hashQuery : query -> string;
  userTokenizer :
    option (string -> string -> string * string -> value ->
            option (list token));
  (** the search lookup with a threshold ([>] and [<]): its scores are
      floating point numbers *)
  fuzzySearch : string -> Where.leaf -> M (list row);
  (** the join and the ORM expansion of [_MutateSelection]: their rows hold
      rows *)
  joinStage : query -> list row -> M (list row);
  ormStage : query -> list row -> M (list row)
}.

Section Selector.

Variable cfg : config.
Variable X : externals.
(** A query handed to the [nSQL] instance from inside a query. *)
Variable nested : query -> M queryResult.

Definition where_row (r : row) (w : Where.whereT) (ignoreFirstPath : bool)
  (searchCache : option (gmap nat (list row))) (pk : string) : res bool :=
  Where._where (objQuery X) (js_match X) (toNumberStr X) r ignoreFirstPath
    searchCache pk w.

Definition tokenize (table col : string) (v : value) : M (list token) :=
  _tokenizer cfg (stemmer X) (metaphone X) (userTokenizer X) table col v.

(** *** [_selectRowsByIndexOrSearch]: the search lookup *)

Fixpoint find_sub (s t : string) : option (string * string) :=
  if String.prefix t s
  then Some (EmptyString, String.substring (String.length t)
                   (String.length s - String.length t) s)
  else match s with
       | EmptyString => None
       | String c s' =>
           match find_sub s' t with
           | Some (b, a) => Some (String c b, a)
           | None => None
           end
       end.

(** The text before the last [")"] and the text after it. *)
Fixpoint split_last_paren (s : string) : option (string * string) :=
  match s with
  | EmptyString => None
  | String c s' =>
      match split_last_paren s' with
      | Some (b, a) => Some (String c b, a)
      | None => if Ascii.eqb c ")"%char then Some (EmptyString, s') else None
      end
  end.

(** The [replace] that puts, for the text from [search(] to the last
    closing parenthesis, what the parentheses hold. *)
Definition unwrap_search (p : string) : string :=
  match find_sub p "search(" with
  | Some (before, tl) =>
      match split_last_paren tl with
      | Some (inner, after) => before +:+ inner +:+ after
      | None => p
      end
  | None => p
  end.

Fixpoint split_comma (cur : string) (s : string) : list string :=
  match s with
  | EmptyString => [cur]
  | String c s' =>
      if Ascii.eqb c ","%char then cur :: split_comma EmptyString s'
      else split_comma (cur +:+ String c EmptyString) s'
  end.

Fixpoint trim_left (s : string) : string :=
  match s with
  | EmptyString => EmptyString
  | String c s' => if is_space c then trim_left s' else s
  end.

Definition trim (s : string) : string :=
  String.rev (trim_left (String.rev (trim_left s))).

(** The columns named by [search(col1, col2, ...)]. *)
Definition search_columns (p : string) : list string :=
  map trim (split_comma EmptyString (unwrap_search p)).

(** [reducedResults]: row key, then word, then the index entry. *)
Abbreviation reducedT := (jsobj (jsobj searchHit)).

Definition add_hits (w : string) (hits : list searchHit) (red : reducedT)
  : reducedT :=
  fold_left (fun red r =>
               let k := to_string (hit_id r) in
               obj_set red k (obj_set (default [] (obj_get red k)) w r))
    hits red.

(** The contiguity check of the exact lookup: the [i]-th position of the
    first term is held against the term at [i + 1]. *)
Definition doingGood (searchTerms : list token) (found : jsobj searchHit)
  : bool :=
  let startingWord :=
    match searchTerms with
    | t0 :: _ => default [] (hit_i <$> obj_get found (tok_w t0))
    | [] => []
    end in
  forallb id
    (mapi (fun location i =>
             match searchTerms !! S i with
             | Some nextWord =>
                 match obj_get found (tok_w nextWord) with
                 | Some h =>
                     bool_decide ((tok_i nextWord + location)%nat ∈ hit_i h)
                 | None => true
                 end
             | None => true
             end) startingWord).

(** The part of the exact lookup run for one column: [weights] holds the
    rows still selected. *)
Definition search_column (table : string) (term : value)
  (weights : jsobj unit) (col : string) : M (jsobj unit) :=
  let* searchTerms := tokenize table col term in
  let indexTable := "_" +:+ table +:+ "_search_" +:+ col in
  let* found := mapM (fun t =>
                        let* r := search_read indexTable (tok_w t) in
                        ret (tok_w t, r)) searchTerms in
  let reducedResults : reducedT :=
    fold_left (fun red wr =>
                 match snd wr with
                 | Some r => add_hits (fst wr) (sri_rows r) red
                 | None => red
                 end) found [] in
  ret (fold_left
         (fun weights rowPK =>
            let words := default [] (obj_get reducedResults rowPK) in
            if negb (Nat.eqb (length (obj_keys words)) (length searchTerms))
            then weights
            else
              let weights' :=
                match obj_get weights rowPK with
                | Some _ => weights
                | None => obj_set weights rowPK tt
                end in
              if (1 <? length searchTerms)%nat && negb (doingGood searchTerms words)
              then obj_delete weights' rowPK
              else weights')
         (obj_keys reducedResults) weights).

(** The search branch of [_selectRowsByIndexOrSearch]; the rows come back
    without the diagnostic fields [_weight] and [_locations], which are
    floating point scores. *)
Definition search_select (table : string) (l : Where.leaf) : M (list row) :=
  if str_contains (Where.op l) ">" || str_contains (Where.op l) "<"
  then fuzzySearch X table l
  else
    let* weights := (fix go cols weights :=
                       match cols with
                       | [] => ret weights
                       | col :: cols' =>
                           let* w := search_column table (Where.val l) weights col in
                           go cols' w
                       end) (search_columns (Where.path l)) [] in
    let* rows := mapM (fun k => adapter_read cfg table (str k))
                   (obj_keys weights) in
    mapM (fun r => match r with
                   | Some r => ret r
                   | None => throw TypeError
                   end) rows.

(** *** [_selectRowsByIndexOrSearch]: keys and secondary indexes *)

(** Modelled from the spec: the records [{id, rows}] of the secondary index
    table of a column, one per value, in key order. *)
Fixpoint index_records (pkcol column : string) (rs : list row)
  : list (value * list value) :=
  match rs with
  | [] => []
  | r :: rs' =>
      let recs := index_records pkcol column rs' in
      let v := get r column in
      if Where.is_nullish v then recs
      else
        (fix ins (l : list (value * list value)) :=
           match l with
           | [] => [(v, [get r pkcol])]
           | (v', pks) :: l' =>
               if key_eq v' v then (v', get r pkcol :: pks) :: l'
               else if key_lt v v' then (v, [get r pkcol]) :: l
               else (v', pks) :: ins l'
           end) recs
  end.

Definition secondary_range (table column : string) (from to : value)
  : M (list (value * list value)) :=
  let* pkcol := pk_of cfg table in
  emit (EvRead ("_" +:+ table +:+ "_idx_" +:+ column)) ;;
  let* rs := gets (fun s => table_rows s table) in
  ret (List.filter (fun e => negb (key_lt (fst e) from) &&
                             negb (key_lt to (fst e)))
         (index_records pkcol column rs)).

(** [_selectRowsByIndexOrSearch(where, callback)]. *)
Definition _selectRowsByIndexOrSearch (table : string) (l : Where.leaf)
  : M (list row) :=
  if str_contains (Where.path l) "search(" then search_select table l
  else
    let* pkcol := pk_of cfg table in
    if bool_decide (Where.op l = "BETWEEN") then
      let secondaryIndexKey :=
        if bool_decide (Where.path l = pkcol) then EmptyString
        else Where.path l in
      let* lo := lift (Where.index_value (Where.val l) 0) in
      let* hi := lift (Where.index_value (Where.val l) 1) in
      if negb (bool_decide (secondaryIndexKey = EmptyString)) then
        let* recs := secondary_range table secondaryIndexKey lo hi in
        _read_keys cfg table (concat (map snd (rev recs)))
      else _rangeRead_pk cfg table lo hi
    else
      let* keys :=
        (if bool_decide (Where.op l = "IN") then
           match Where.val l with
           | VArr ks => ret (map VPrim ks)
           | VPrim _ => throw TypeError
           end
         else if bool_decide (Where.op l = "=") then ret [Where.val l]
         else ret []) in
      if bool_decide (Where.path l = pkcol) then _read_keys cfg table keys
      else
        let* rows := mapM (_secondaryIndexRead cfg table (Where.path l)) keys in
        ret (concat rows).

(** Dropping the rows whose key was seen already. *)
Fixpoint dedupe (pkcol : string) (pks : list value) (rs : list row)
  : list row :=
  match rs with
  | [] => []
  | r :: rs' =>
      if existsb (strict_eq (get r pkcol)) pks then dedupe pkcol pks rs'
      else r :: dedupe pkcol (pks ++ [get r pkcol])%list rs'
  end.

(** [_selectByKeysOrSeach(where, callback)]. *)
Definition _selectByKeysOrSeach (table : string) (w : Where.whereT)
  : M (list row) :=
  let* pkcol := pk_of cfg table in
  match w with
  | Where.WSingle l => _selectRowsByIndexOrSearch table l
  | Where.WEmpty => ret []
  | Where.WCompound first rest =>
      let* acc :=
        (fix go items (lastCommand : string) (resultRows : list row) :=
           match items with
           | [] => ret resultRows
           | Where.WConn c :: items' => go items' c resultRows
           | Where.WLeaf l :: items' =>
               let* rows := _selectRowsByIndexOrSearch table l in
               if bool_decide (lastCommand = "AND") then
                 go items' lastCommand
                   (List.filter
                      (fun r => existsb (fun x => key_eq (get x pkcol)
                                                    (get r pkcol)) rows)
                      resultRows)
               else go items' lastCommand (resultRows ++ rows)%list
           end) (Where.items_of first rest) EmptyString [] in
      ret (dedupe pkcol [] acc)
  end.

(** [_isOptimizedWhere(wArgs)]: 0 when the leaf reads a key, an index or a
    search. *)
Definition _isOptimizedWhere (ti : tableInfoT) (l : Where.leaf) : nat :=
  let wQuery := Where.path l in
  let wCondition := Where.op l in
  if (bool_decide (wCondition ∈ ["="; "IN"; "BETWEEN"]) ||
      (str_contains wQuery "search(" &&
       (bool_decide (wCondition = "=") || str_contains wCondition ">" ||
        str_contains wCondition "<")))
     && (bool_decide (wQuery = _pk ti) ||
         bool_decide (wQuery ∈ _secondaryIndexes ti) ||
         str_contains wQuery "search(")
  then 0%nat else 1%nat.

Definition item_truthy (o : option Where.witem) : bool :=
  match o with
  | Some (Where.WConn c) => negb (bool_decide (c = EmptyString))
  | Some (Where.WLeaf _) => true
  | None => false
  end.

(** [_isSubOptimizedWhere(wArgs)] on a compound list: the index of the
    "AND" that follows the last leaf reading a key or an index, or 0. *)
Definition _isSubOptimizedWhere (ti : tableInfoT) (first : Where.leaf)
  (rest : list (string * Where.leaf)) : nat :=
  let wArgs := Where.items_of first rest in
  if Nat.eqb (_isOptimizedWhere ti first) 0 then
    let lastCheck :=
      fold_left (fun lastCheck iw =>
                   match snd iw with
                   | Where.WLeaf l =>
                       if Nat.even (fst iw) &&
                          Nat.eqb (_isOptimizedWhere ti l) 0 &&
                          item_truthy (wArgs !! S (fst iw))
                       then S (fst iw) else lastCheck
                   | Where.WConn _ => lastCheck
                   end)
        (imap (fun i w => (i, w)) wArgs) 0%nat in
    if bool_decide (wArgs !! lastCheck = Some (Where.WConn "AND"))
    then lastCheck else 0%nat
  else 0%nat.

(** *** [_selectByRange] and [_selectByTrie] *)

(** The outcome of a loop that does not end. *)
Definition Diverges : string := "the loop does not end".

(** [let counter = n; while (counter--) toIdx++;]. *)
Definition count_up (toIdx : Z) (counter : Z) : M Z :=
  if counter <? 0 then throw Diverges else ret (toIdx + counter).

(** [_selectByRange(callback)] for [range = [limit, offset]]. *)
Definition _selectByRange (table : string) (r : Z * Z) : M (list row) :=
  if 0 <? fst r then _rangeRead_idx cfg table (snd r) (snd r + fst r)
  else
    let* count := getIndex_length cfg table in
    let fromIdx := if 0 <? fst r then snd r else count + fst r - snd r in
    let* toIdx := count_up fromIdx (Z.abs (fst r) - 1) in
    _rangeRead_idx cfg table fromIdx toIdx.

(** [_selectByTrie(callback)]. *)
Definition _selectByTrie (table : string) (t : string * string)
  : M (list row) :=
  _trieRead cfg table (fst t) (snd t).

(** *** [_fullTableScan] *)

Definition select_query (table : tableRef) (w : whereClause) : query :=
  {| action := "select"; table := table; actionArgs := None;
     qwhere := Some w; range := None; trie := None; join := None;
     groupBy := None; orderBy := None; having := None; offset := None;
     limit := None; orm := None; comments := []; queryID := None |}.

Definition result_rows (r : queryResult) : list row :=
  match r with
  | RRows rows => rows
  | RWrite _ _ rows => rows
  | _ => []
  end.

(** The search leaves of a compound list, run before the scan: the element
    at [i] fills [arraySearchCache[i]]. *)
Fixpoint prepare_searches (table : string) (items : list Where.witem)
  (i : nat) (cache : gmap nat (list row)) : M (gmap nat (list row)) :=
  match items with
  | [] => ret cache
  | Where.WConn EmptyString :: _ => throw TypeError
  | Where.WConn _ :: items' => prepare_searches table items' (S i) cache
  | Where.WLeaf l :: items' =>
      if str_contains (Where.path l) "search(" then
        let* res := nested (select_query (TName table)
                              (WArr (Where.WSingle l))) in
        prepare_searches table items' (S i) (<[i := result_rows res]> cache)
      else prepare_searches table items' (S i) cache
  end.

(** [_fullTableScan(callback)]. *)
Definition _fullTableScan (table : string) (w : option whereClause)
  : M (list row) :=
  let* PK := pk_of cfg table in
  let* arraySearchCache :=
    match w with
    | Some (WArr (Where.WCompound first rest)) =>
        prepare_searches table (Where.items_of first rest) 0 ∅
    | _ => ret ∅
    end in
  let* rows :=
    _read_scan cfg table
      (fun row i =>
         match w with
         | None => Ok true
         | Some (WArr wh) => where_row row wh false (Some arraySearchCache) PK
         | Some (WFn f) => Ok (f row i)
         end) in
  if bool_decide (arraySearchCache = ∅) then ret rows
  else
    let rowCache := concat (map snd (map_to_list arraySearchCache)) in
    ret (map (fun r =>
                default r (List.find (fun c => key_eq (get c PK) (get r PK))
                             (rev rowCache))) rows).

(** *** The constructor of [_RowSelection] *)

Definition JoinOrmError : string :=
  "Cannot do a JOIN and ORM command at the same time!".
Definition OneOfError : string :=
  "Can only have ONE of Trie, Range or Where!".

(** The number of [where], [range] and [trie] that the query sets. *)
Definition selectors_set (q : query) : nat :=
  ((if is_set (qwhere q) then 1 else 0) +
   (if is_set (range q) then 1 else 0) +
   (if is_set (trie q) then 1 else 0))%nat.

(** [new _RowSelection(qu, q, s, callback)] on the table [table]. *)
Definition _RowSelection (table : string) (q : query) : M (list row) :=
  if is_set (join q) && is_set (orm q) then throw JoinOrmError
  else if (1 <? selectors_set q)%nat then throw OneOfError
  else if is_set (join q) then ret []
  else
    match trie q, range q with
    | Some (column, search), _ =>
        if negb (bool_decide (column = EmptyString)) &&
           negb (bool_decide (search = EmptyString))
        then _selectByTrie table (column, search)
        else _fullTableScan table (qwhere q)
    | None, Some r => _selectByRange table r
    | None, None =>
        match qwhere q with
        | None | Some (WFn _) | Some (WArr Where.WEmpty) =>
            _fullTableScan table (qwhere q)
        | Some (WArr (Where.WSingle l)) =>
            let* ti := info_of cfg table in
            if Nat.eqb (_isOptimizedWhere ti l) 0
            then _selectByKeysOrSeach table (Where.WSingle l)
            else _fullTableScan table (qwhere q)
        | Some (WArr (Where.WCompound first rest)) =>
            let* ti := info_of cfg table in
            let doFastRead :=
              Nat.eqb (fold_left (fun prev l => (prev + _isOptimizedWhere ti l)%nat)
                         (first :: map snd rest) 0%nat) 0 in
            if doFastRead
            then _selectByKeysOrSeach table (Where.WCompound first rest)
            else
              let whereSlice := _isSubOptimizedWhere ti first rest in
              if (0 <? whereSlice)%nat then
                let k := Nat.div2 whereSlice in
                let fastWhere := Where.WCompound first (take k rest) in
                let slowWhere :=
                  match drop k rest with
                  | (_, l) :: tl => Where.WCompound l tl
                  | [] => Where.WEmpty
                  end in
                let* PK := pk_of cfg table in
                let* rows := _selectByKeysOrSeach table fastWhere in
                lift (filterM_idx
                        (fun r i => where_row r slowWhere false None PK)
                        0 rows)
              else _fullTableScan table (qwhere q)
        end
    end.

End Selector.

(** *** [InstanceSelection] *)

Section Instance.

Variable X : externals.

Definition InstanceError : string :=
  "Cannot do a JOIN, ORM or TRIE command with instance table!".

Fixpoint flagsM_idx (keep : row -> nat -> res bool) (idx : nat)
  (rs : list row) : res (list bool) :=
  match rs with
  | [] => Ok []
  | r :: rs' =>
      rbind (keep r idx) (fun k =>
      rbind (flagsM_idx keep (S idx) rs') (fun tl => Ok (k :: tl)))
  end.

(** Which rows of the instance table [getRows] selects, by position. *)
Definition instance_flags (rows : list row) (q : query)
  : res (list bool) :=
  if is_set (join q) || is_set (orm q) || is_set (trie q)
  then Throw InstanceError
  else
    match range q with
    | Some range =>
        let from := if fst range <? 0
                    then Z.of_nat (length rows) + fst range - snd range
                    else snd range in
        let cnt := Z.abs (fst range) - 1 in
        if cnt <? 0 then Throw Diverges
        else
          let to := from + cnt in
          Ok (map (fun ir => (from <=? fst ir) && (fst ir <=? to))
                (with_index 0 rows))
    | None =>
        flagsM_idx
          (fun row i =>
             match qwhere q with
             | Some (WArr w) =>
                 Where._where (objQuery X) (js_match X) (toNumberStr X) row
                   false None "undefined" w
             | Some (WFn f) => Ok (f row i)
             | None => Ok true
             end) 0 rows
    end.

Definition select_flagged {A} (l : list A) (flags : list bool) : list A :=
  map fst (List.filter snd (zip l flags)).

(** [new InstanceSelection(q).getRows(callback)] on the rows [rows] of the
    instance table. *)
Definition instance_getRows (rows : list row) (q : query)
  : res (list row) :=
  rbind (instance_flags rows q) (fun flags => Ok (select_flagged rows flags)).

End Instance.

End Selection.

(** ** Mutating a selection ([_MutateSelection]) *)

Module Mutate.
Import Store Storage Query Search JSObj Selection.

Section Mutator.

Variable cfg : config.
Variable X : externals.

(** [Array.prototype.sort] with a comparator, as a stable insertion sort. *)
Fixpoint insert_by {A} (cmp : A -> A -> Z) (x : A) (l : list A) : list A :=
  match l with
  | [] => [x]
  | y :: l' => if 0 <? cmp y x then x :: l else y :: insert_by cmp x l'
  end.

Definition sort_by {A} (cmp : A -> A -> Z) (l : list A) : list A :=
  fold_left (fun acc x => insert_by cmp x acc) l [].

(** [_sortObj(objA, objB, columns, resolvePaths)]. *)
Definition _sortObj (columns : list (string * string)) (resolvePaths : bool)
  (objA objB : row) : Z :=
  fold_left
    (fun prev cur =>
       let A := if resolvePaths then objQuery X (fst cur) objA false
                else get objA (fst cur) in
       let B := if resolvePaths then objQuery X (fst cur) objB false
                else get objB (fst cur) in
       if prev =? 0 then
         if strict_eq A B then 0
         else (if Where.gt (toNumberStr X) A B then 1 else -1) *
              (if bool_decide (snd cur = "desc") then -1 else 1)
       else prev)
    columns 0.

Fixpoint join_dot (l : list string) : string :=
  match l with
  | [] => EmptyString
  | [s] => s
  | s :: l' => s +:+ "." +:+ join_dot l'
  end.

(** [_groupBy(rows)]: the sorted rows and [_sortGroups]. *)
Definition _groupBy (columns : list (string * string)) (rows : list row)
  : list row * jsobj (list nat) :=
  let sortedRows := sort_by (_sortObj columns true) rows in
  (sortedRows,
   fold_left (fun groups iv =>
                let groupByKey :=
                  join_dot (map (fun k => to_string (get (snd iv) (fst k)))
                              columns) in
                obj_set groups groupByKey
                  (default [] (obj_get groups groupByKey) ++ [fst iv])%list)
     (imap (fun i v => (i, v)) sortedRows) []).

(** [_having(rows)]. *)
Definition _having (h : whereClause) (rows : list row) : res (list row) :=
  filterM_idx (fun row idx =>
                 match h with
                 | WArr w =>
                     Where._where (objQuery X) (js_match X) (toNumberStr X)
                       row true None "undefined" w
                 | WFn f => Ok (f row idx)
                 end) 0 rows.

(** [_orderBy(rows)]. *)
Definition _orderBy (columns : list (string * string)) (rows : list row)
  : list row :=
  sort_by (_sortObj columns false) rows.

Definition filter_idx {A} (keep : nat -> bool) (l : list A) : list A :=
  map snd (List.filter (fun ia => keep (fst ia)) (imap (fun i a => (i, a)) l)).

(** [_offset(rows)] and [_limit(rows)]. *)
Definition _offset (offset : Z) (rows : list row) : list row :=
  filter_idx (fun index => offset <=? Z.of_nat index) rows.

Definition _limit (limit : Z) (rows : list row) : list row :=
  filter_idx (fun index => Z.of_nat index <? limit) rows.

(** *** [_mutateRows] *)

Definition upper_ascii (c : ascii) : ascii :=
  let n := nat_of_ascii c in
  if (97 <=? n)%nat && (n <=? 122)%nat then ascii_of_nat (n - 32) else c.

Fixpoint toUpperCase (s : string) : string :=
  match s with
  | EmptyString => EmptyString
  | String c s' => String (upper_ascii c) (toUpperCase s')
  end.

(** [s.split(sep)]. *)
Fixpoint split_on_go (fuel : nat) (sep : string) (cur s : string)
  : list string :=
  match fuel with
  | O => [cur +:+ s]
  | S fuel' =>
      match s with
      | EmptyString => [cur]
      | String c s' =>
          if String.prefix sep s
          then cur :: split_on_go fuel' sep EmptyString
                        (String.substring (String.length sep)
                           (String.length s - String.length sep) s)
          else split_on_go fuel' sep (cur +:+ String c EmptyString) s'
      end
  end.

Definition split_on (sep s : string) : list string :=
  split_on_go (S (String.length s)) sep EmptyString s.

(** The text up to the last opening parenthesis, that parenthesis left
    out; [None] without one. *)
Fixpoint before_last_open (s : string) : option string :=
  match s with
  | EmptyString => None
  | String c s' =>
      match before_last_open s' with
      | Some b => Some (String c b)
      | None => if Ascii.eqb c "("%char then Some EmptyString else None
      end
  end.

Definition strip_parens : string -> string :=
  filter_chars (fun c => negb (Ascii.eqb c "("%char || Ascii.eqb c ")"%char)).

(** The name of the function that a selection expression calls. *)
Definition fnName_of (column : string) : string :=
  toUpperCase (strip_parens (default EmptyString (before_last_open column))).

(** The key under which the result of the function is kept. *)
Definition fnKey_of (column : string) : string :=
  match split_on " AS " column with
  | [_] => fnName_of column
  | pieces => trim (List.last pieces EmptyString)
  end.

(** The arguments of the call: the text from the first opening to the last
    closing parenthesis, split at the commas. *)
Definition fnArgs_of (column : string) : list string :=
  let inner :=
    match find_sub column "(" with
    | Some (_, tl) =>
        match split_last_paren tl with
        | Some (inner, _) => strip_parens inner
        | None => EmptyString
        end
    | None => EmptyString
    end in
  map trim (split_comma EmptyString inner).

Definition has_paren (column : string) : bool := str_contains column "(".

Definition NotAFunction (fnName : string) : string :=
  "'" +:+ fnName +:+ "' is not a valid function!".

(** [columnData]: the function and the key of each selection expression that
    calls one.  An unregistered name throws. *)
Fixpoint columnData_of (columnSelection : list string)
  : res (jsobj (nsqlFunction * string)) :=
  match columnSelection with
  | [] => Ok []
  | column :: rest =>
      if negb (has_paren column) then columnData_of rest
      else
        match functions cfg !! fnName_of column with
        | None => Throw (NotAFunction (fnName_of column))
        | Some fn =>
            rbind (columnData_of rest) (fun cd =>
            Ok (obj_set (obj_delete cd column) column (fn, fnKey_of column)))
        end
  end.

(** What a function handed to its callback. *)
Inductive fnResult : Type :=
  | AggResult (v : value)
  | ScalarResult (l : list value).

Definition call_fn (fn : nsqlFunction) (rows : list row) (args : list string)
  : fnResult :=
  match fn with
  | FnA call => AggResult (call rows args)
  | FnS call => ScalarResult (call rows args)
  end.

Definition is_aggregate (fn : nsqlFunction) : bool :=
  match fn with FnA _ => true | FnS _ => false end.

(** A result as a column value; an array keeps its primitive elements. *)
Definition value_of_result (r : fnResult) : value :=
  match r with
  | AggResult v => v
  | ScalarResult l =>
      VArr (omap (fun v => match v with VPrim p => Some p | VArr _ => None end)
              l)
  end.

(** [fnResults[key][idx]]. *)
Definition pick_result (fnResults : jsobj fnResult) (key : string)
  (idx : nat) : res value :=
  match obj_get fnResults key with
  | Some (AggResult v) => Where.index_value v idx
  | Some (ScalarResult l) => Ok (default undefined (l !! idx))
  | None => Throw TypeError
  end.

(** [doMuateRows(row, idx, fnResults)]. *)
Definition doMuateRows (q : query) (columnSelection : list string)
  (columnData : jsobj (nsqlFunction * string)) (theRow : row) (idx : nat)
  (fnResults : jsobj fnResult) : res row :=
  fold_left
    (fun acc column =>
       rbind acc (fun newRow =>
       let hasFunc := has_paren column in
       let alias := split_on " AS " column in
       let name := if str_contains column " AS "
                   then default "undefined" (alias !! 1%nat)
                   else column in
       if hasFunc then
         match obj_get columnData column with
         | Some (fn, key) =>
             if is_aggregate fn then
               Ok (<[name := default undefined
                               (value_of_result <$> obj_get fnResults key)]>
                     newRow)
             else
               rbind (pick_result fnResults key idx) (fun v =>
               Ok (<[name := v]> newRow))
         | None => Throw TypeError
         end
       else
         let key := if str_contains column " AS "
                    then trim (default EmptyString (alias !! 0%nat))
                    else column in
         Ok (<[name := objQuery X key theRow (is_set (join q))]> newRow)))
    columnSelection (Ok (∅ : row)).

Fixpoint mapM_idx {A B} (f : A -> nat -> res B) (i : nat) (l : list A)
  : res (list B) :=
  match l with
  | [] => Ok []
  | a :: l' =>
      rbind (f a i) (fun b =>
      rbind (mapM_idx f (S i) l') (fun bs => Ok (b :: bs)))
  end.

(** [_mutateRows(rows, complete)] with a selection that is not empty. *)
Definition _mutateRows (q : query) (columnSelection : list string)
  (sortGroups : option (jsobj (list nat))) (rows : list row)
  : res (list row) :=
  rbind (columnData_of columnSelection) (fun columnData =>
  let hasAggregateFun :=
    existsb (fun e => is_aggregate (fst (snd e))) columnData in
  let called := List.filter has_paren columnSelection in
  let group_rows (k : string) : list row :=
    match sortGroups with
    | Some groups =>
        filter_idx (fun i => bool_decide (i ∈ default [] (obj_get groups k)))
          rows
    | None => []
    end in
  let results_for (rs : list row) : jsobj fnResult :=
    fold_left (fun acc column =>
                 match obj_get columnData column with
                 | Some (fn, key) =>
                     obj_set acc key (call_fn fn rs (fnArgs_of column))
                 | None => acc
                 end) called [] in
  let functionResults : jsobj fnResult :=
    match sortGroups with
    | Some _ => if hasAggregateFun then [] else results_for rows
    | None => results_for rows
    end in
  if bool_decide (rows = []) && hasAggregateFun then
    Ok [fold_left (fun oneRow e =>
                     match obj_get functionResults (snd (snd e)) with
                     | Some r =>
                         if strict_eq (value_of_result r) undefined
                         then oneRow else <[fst e := value_of_result r]> oneRow
                     | None => oneRow
                     end) columnData ∅]
  else
    match sortGroups with
    | Some groups =>
        if hasAggregateFun then
          fold_left (fun acc k =>
                       rbind acc (fun newRows =>
                       match group_rows k with
                       | thisRow :: _ =>
                           rbind (doMuateRows q columnSelection columnData
                                    thisRow 0 (results_for (group_rows k)))
                             (fun r => Ok (newRows ++ [r])%list)
                       | [] => Ok newRows
                       end)) (obj_keys groups) (Ok [])
        else mapM_idx (fun v i => doMuateRows q columnSelection columnData v i
                                    functionResults) 0 rows
    | None =>
        if hasAggregateFun then
          mapM_idx (fun v i => doMuateRows q columnSelection columnData v i
                                 functionResults) 0 (take 1 rows)
        else mapM_idx (fun v i => doMuateRows q columnSelection columnData v i
                                    functionResults) 0 rows
    end).

(** *** [_executeQueryArguments] *)

(** The rows under mutation: [orig] is what the array handed in holds by
    now, [cur] is [inputRows], and [aliased] tells whether [inputRows] is
    still that array, so that a sort in place reaches it. *)
Record mstate : Type := mk_mstate {
  orig : list row;
  cur : list row;
  aliased : bool;
  sortGroups : option (jsobj (list nat))
}.

Definition fresh (st : mstate) (rows : list row) : mstate :=
  {| orig := orig st; cur := rows; aliased := false;
     sortGroups := sortGroups st |}.

Definition in_place (st : mstate) (rows : list row) : mstate :=
  {| orig := if aliased st then rows else orig st; cur := rows;
     aliased := aliased st; sortGroups := sortGroups st |}.

(** [_executeQueryArguments(inputRows, callback)]. *)
Definition _executeQueryArguments (q : query) (inputRows : list row)
  : M mstate :=
  let st0 := {| orig := inputRows; cur := inputRows; aliased := true;
                sortGroups := None |} in
  let* st1 := (if is_set (join q)
               then let* rows := joinStage X q (cur st0) in
                    ret (fresh st0 rows)
               else ret st0) in
  let st2 := match groupBy q with
             | Some columns =>
                 let '(sorted, groups) := _groupBy columns (cur st1) in
                 {| orig := if aliased st1 then sorted else orig st1;
                    cur := sorted; aliased := aliased st1;
                    sortGroups := match sorted with
                                  | [] => None
                                  | _ :: _ => Some groups
                                  end |}
             | None => st1
             end in
  let* st3 := (if is_set (orm q)
               then let* rows := ormStage X q (cur st2) in
                    ret (fresh st2 rows)
               else ret st2) in
  let* st4 := match actionArgs q with
              | Some (AColumns (c :: cs)) =>
                  let* rows := lift (_mutateRows q (c :: cs) (sortGroups st3)
                                       (cur st3)) in
                  ret (fresh st3 rows)
              | _ => ret st3
              end in
  let* st5 := match having q with
              | Some h =>
                  let* rows := lift (_having h (cur st4)) in
                  ret (fresh st4 rows)
              | None => ret st4
              end in
  let st6 := match orderBy q with
             | Some columns => in_place st5 (_orderBy columns (cur st5))
             | None => st5
             end in
  let st7 := if num_set (offset q)
             then fresh st6 (_offset (default 0 (offset q)) (cur st6))
             else st6 in
  let st8 := if num_set (limit q)
             then fresh st7 (_limit (default 0 (limit q)) (cur st7))
             else st7 in
  ret st8.

End Mutator.

End Mutate.

(** ** The storage query ([_NanoSQLStorageQuery]) *)

Module StorageQuery.
Import Store Storage Query Search JSObj Selection Mutate.

Section Query.

Variable cfg : config.
Variable X : externals.
(** A query handed to the [nSQL] instance from inside a query. *)
Variable nested : query -> M queryResult.

(** The table name of a query on a stored table. *)
Definition table_name (q : query) : string := table_key q.

(** [_getRows(complete)]. *)
Definition _getRows (q : query) : M (list row) :=
  match table q with
  | TInstance rows => lift (instance_getRows X rows q)
  | TName name => _RowSelection cfg X nested name q
  end.

Definition cache_of (s : state) (table : string)
  : gmap string (list row) :=
  default ∅ (_cache s !! table).

(** [_store._cache[table][hash] = rows]. *)
Definition cache_store (table hash : string) (rows : list row) : M unit :=
  let* c := gets _cache in
  set_cache (<[table := <[hash := rows]> (default ∅ (c !! table))]> c).

(** [_store._cache[table] = {}]. *)
Definition cache_clear (table : string) : M unit :=
  let* c := gets _cache in
  set_cache (<[table := ∅]> c).

(** Whether any of [having], [orderBy], [offset], [limit], [actionArgs],
    [groupBy], [orm], [join] is set. *)
Definition has_arguments (q : query) : bool :=
  is_set (having q) || is_set (orderBy q) || num_set (offset q) ||
  num_set (limit q) || is_set (actionArgs q) || is_set (groupBy q) ||
  is_set (orm q) || is_set (join q).

Definition canCache (q : query) : bool :=
  negb (is_set (join q)) && negb (is_set (orm q)) && _doCache cfg &&
  negb (isInstanceTable q).

(** [_select(next)]. *)
Definition _select (q : query) : M queryResult :=
  let _hash := hashQuery X (clear_queryID q) in
  let* cached := gets (fun s => cache_of s (table_name q) !! _hash) in
  match (if canCache q then cached else None) with
  | Some rows => ret (RRows rows)
  | None =>
      let* rows := _getRows q in
      if negb (has_arguments q) then
        (if canCache q then cache_store (table_name q) _hash rows
         else ret tt) ;;
        ret (RRows rows)
      else
        let* st := _executeQueryArguments cfg X q rows in
        (if canCache q then cache_store (table_name q) _hash (orig st)
         else ret tt) ;;
        ret (RRows (cur st))
  end.

(** *** ORM synchronisation *)

(** A key as an element of an array: a primitive; an array given as key
    stands for the text it prints as. *)
Definition key_prim (v : value) : prim :=
  match v with
  | VPrim p => p
  | VArr _ => PStr (to_string v)
  end.

(** [(x || [])] where an array is read. *)
Definition or_empty_list (v : value) : res (list prim) :=
  match v with
  | VArr l => Ok l
  | VPrim _ => if truthy v then Throw TypeError else Ok []
  end.

(** [l.sort()]: the elements ordered by the text they print as,
    [undefined] last. *)
Definition default_sort (l : list prim) : list prim :=
  sort_by (fun a b =>
             match a, b with
             | PUndef, PUndef => 0
             | PUndef, _ => 1
             | _, PUndef => -1
             | _, _ => if String.ltb (prim_to_string b) (prim_to_string a)
                       then 1 else 0
             end) l.

(** [l.splice(l.indexOf(x), 1)] when [x] is in [l]. *)
Fixpoint remove_first (x : prim) (l : list prim) : list prim :=
  match l with
  | [] => []
  | y :: l' => if prim_strict_eq y x then l' else y :: remove_first x l'
  end.

Definition upsert_query (table : string) (r : row) (comments : list string)
  : query :=
  {| action := "upsert"; table := TName table; actionArgs := Some (ARow r);
     qwhere := None; range := None; trie := None; join := None;
     groupBy := None; orderBy := None; having := None; offset := None;
     limit := None; orm := None; comments := comments; queryID := None |}.

(** A row as the adapter hands it out. *)
Definition fetched (r : row) : obj :=
  {| frozen := adapterFreezes cfg; fields := r |}.

(** The body run for one remote row of [_updateORMRows]. *)
Definition update_orm_row (relation : relation) (add : bool)
  (primaryKey : value) (r : row) : M unit :=
  let newRow := if frozen (fetched r) then _assign (fetched r)
                else fetched r in
  let col := _fromColumn relation in
  let* newRow' :=
    lift (match _fromType relation with
          | ArrayT =>
              rbind (or_empty_list (get (fields newRow) col)) (fun l =>
              let pk := key_prim primaryKey in
              let l' := if add
                        then (if includes l pk then l else (l ++ [pk])%list)
                        else remove_first pk l in
              set_prop newRow col (VArr (default_sort l')))
          | SingleT =>
              set_prop newRow col (if add then primaryKey else null)
          end) in
  let* _ := nested (upsert_query (_fromTable relation) (fields newRow')
                      ["_orm_skip"]) in
  ret tt.

(** [_updateORMRows(relation, fromPKs, add, primaryKey, complete)]. *)
Definition _updateORMRows (relation : relation) (fromPKs : list value)
  (add : bool) (primaryKey : value) : M unit :=
  let* fromPk := pk_of cfg (_fromTable relation) in
  let* rows := _read_keys cfg (_fromTable relation) fromPKs in
  iterM (update_orm_row relation add primaryKey) rows.

(** [equals] of [_syncORM]. *)
Definition equals (val1 val2 : value) : bool :=
  match val1, val2 with
  | VArr l1, VArr l2 =>
      if negb (Nat.eqb (length l1) (length l2)) then false
      else
        negb (bool_decide
                (List.filter
                   (fun vi => negb (strict_eq (VPrim (snd vi))
                                      (from_option VPrim undefined
                                         (l2 !! fst vi))))
                   (imap (fun i v => (i, v)) l1) = []))
  | _, _ => strict_eq val1 val2
  end.

(** The ids of a relation column: [(row[col] || [])] for an array relation,
    [[row[col]].filter(v => v)] for a single one. *)
Definition relation_ids (relation : relation) (r : row)
  : res (list value) :=
  let v := get r (_thisColumn relation) in
  match _thisType relation with
  | ArrayT => rbind (or_empty_list v) (fun l => Ok (map VPrim l))
  | SingleT => Ok (if truthy v then [v] else [])
  end.

(** The body of [_syncORM] for one row position and one relation. *)
Definition sync_relation (type : string) (table : string)
  (oldRow newRow : option row) (relation : relation) : M unit :=
  let col := _thisColumn relation in
  let* pkcol := pk_of cfg table in
  if bool_decide (type = "del") then
    match oldRow with
    | None => throw TypeError
    | Some old =>
        let delPrimarykey := get old pkcol in
        let* updateIDs := lift (relation_ids relation old) in
        _updateORMRows relation updateIDs false delPrimarykey
    end
  else if bool_decide (type = "add") then
    match newRow with
    | None => throw TypeError
    | Some new =>
        let primaryKey := get new pkcol in
        match oldRow with
        | Some old =>
            if equals (get old col) (get new col) then ret tt
            else
              match _thisType relation with
              | ArrayT =>
                  let* newIds := lift (or_empty_list (get new col)) in
                  let* oldIds := lift (or_empty_list (get old col)) in
                  let addIds :=
                    List.filter (fun v => negb (includes oldIds v)) newIds in
                  let removeIds :=
                    List.filter (fun v => negb (includes newIds v)) oldIds in
                  _updateORMRows relation (map VPrim addIds) true primaryKey ;;
                  _updateORMRows relation (map VPrim removeIds) false
                    primaryKey
              | SingleT =>
                  (if negb (Where.is_nullish (get old col))
                   then _updateORMRows relation [get old col] false primaryKey
                   else ret tt) ;;
                  (if negb (Where.is_nullish (get new col))
                   then _updateORMRows relation [get new col] true primaryKey
                   else ret tt)
              end
        | None =>
            let* valuesToAdd := lift (relation_ids relation new) in
            match valuesToAdd with
            | [] => ret tt
            | _ :: _ => _updateORMRows relation valuesToAdd true primaryKey
            end
        end
    end
  else ret tt.

(** [_syncORM(type, oldRows, newRows, complete)]. *)
Definition _syncORM (q : query) (type : string) (oldRows newRows : list row)
  : M unit :=
  if negb (_hasORM cfg) then ret tt
  else
    let useRelations := _relToTable cfg !! table_name q in
    if bool_decide ("_orm_skip" ∈ comments q) then ret tt
    else
      match useRelations with
      | None | Some [] => ret tt
      | Some relations =>
          let cnt := Nat.max (length oldRows) (length newRows) in
          iterM (fun idx =>
                   iterM (sync_relation type (table_name q) (oldRows !! idx)
                            (newRows !! idx)) relations)
            (seq 0 cnt)
      end.

(** *** Search index clean-up *)

(** [wordsToRemove] of [_clearFromSearchIndex] for the exact ([l = 0]) and
    the fuzzy ([l = 1]) table. *)
Definition wordsToRemove (l : nat) (tokens : list token)
  (recorded : list (string * nat)) : jsobj bool :=
  fold_left (fun words t =>
               match obj_get words (fst t) with
               | Some true => words
               | _ =>
                   if Nat.eqb l 0 then obj_set words (fst t) true
                   else obj_set words
                          (default "undefined" (wordCache_get tokens (fst t)))
                          true
               end) recorded [].

(** [_clearFromSearchIndex(pk, rowData, complete)]. *)
Definition _clearFromSearchIndex (table : string) (pk : value)
  (rowData : row) : M unit :=
  let* ti := info_of cfg table in
  let columns := map fst (_searchColumns ti) in
  let tokenTable := "_" +:+ table +:+ "_search_tokens_" in
  iterM (fun col =>
    let* tokens := tokenize cfg X table col (get rowData col) in
    let* rec := tokens_read (tokenTable +:+ col) pk in
    match rec with
    | None => ret tt
    | Some r =>
        iterM (fun l =>
          let tableSection :=
            if Nat.eqb l 0 then "_search_" else "_search_fuzzy_" in
          iterM (fun word =>
            if bool_decide (word = EmptyString) then ret tt
            else
              let indexTable := "_" +:+ table +:+ tableSection +:+ col in
              let* wRow := search_read indexTable word in
              match wRow with
              | None => ret tt
              | Some w =>
                  search_write indexTable word
                    (mk_sri (wrd w)
                       (List.filter (fun h => negb (strict_eq (hit_id h) pk))
                          (sri_rows w)))
              end)
            (obj_keys (wordsToRemove l tokens (tr_tokens r))))
          [0%nat; 1%nat] ;;
        tokens_delete (tokenTable +:+ col) pk
    end) columns.

(** *** View projection *)

(** [columns.forEach(col => newRowData[col.thisColumn] = ...)]. *)
Definition set_view_columns (cols : list viewColumn)
  (f : viewColumn -> value) (newRowData : row) : row :=
  fold_left (fun r col => <[thisColumn col := f col]> r) cols newRowData.

(** The body run for one view of [_updateRowViews]: [newRowData] is
    assigned in place, and comes back as it is afterwards. *)
Definition update_row_view (existingRow : option row) (newRowData : row)
  (view : string * viewDef) : M row :=
  let pk := pkColumn (snd view) in
  if strict_eq (get newRowData pk) undefined then ret newRowData
  else
    match existingRow with
    | None => throw TypeError
    | Some existing =>
        if strict_eq (get newRowData pk) (get existing pk) then ret newRowData
        else if strict_eq (get newRowData pk) null then
          ret (set_view_columns (columns (snd view)) (fun _ => null)
                 newRowData)
        else
          let* refRows := _read_keys cfg (fst view) [get newRowData pk] in
          match refRows with
          | [] =>
              if bool_decide (mode (snd view) = LIVE) then
                ret (set_view_columns (columns (snd view)) (fun _ => null)
                       newRowData)
              else
                match columns (snd view) with
                | [] => ret newRowData
                | _ :: _ => throw TypeError
                end
          | ref :: _ =>
              ret (set_view_columns (columns (snd view))
                     (fun col => get ref (otherColumn col)) newRowData)
          end
    end.

(** [_updateRowViews(newRowData, existingRow, complete)]. *)
Definition _updateRowViews (table : string) (newRowData : row)
  (existingRow : option row) : M row :=
  if negb (_hasViews cfg) then ret newRowData
  else
    let* ti := info_of cfg table in
    (fix go views newRowData :=
       match views with
       | [] => ret newRowData
       | view :: views' =>
           let* r := update_row_view existingRow newRowData view in
           go views' r
       end) (_views ti) newRowData.

(** [while (i--) ...] over the view columns, last column first. *)
Definition fold_columns_down {A} (f : A -> viewColumn -> res A)
  (cols : list viewColumn) (a : A) : res A :=
  fold_left (fun acc col => rbind acc (fun a => f a col)) (rev cols) (Ok a).

(** The body run for one related row of [_updateRemoteViews]: the row is
    assigned as it was fetched. *)
Definition update_remote_row (viewTableName : string) (view : viewDef)
  (doDel : bool) (source : row) (rRow : obj) : M unit :=
  let* changed :=
    lift (if doDel then
            if bool_decide (mode view = LIVE) then
              rbind (set_prop rRow (pkColumn view) null) (fun o =>
              rbind (fold_columns_down
                       (fun o col => set_prop o (otherColumn col) null)
                       (columns view) o) (fun o' => Ok (true, o')))
            else Ok (false, rRow)
          else
            fold_columns_down
              (fun acc col =>
                 if negb (strict_eq (get (fields (snd acc)) (otherColumn col))
                            (get source (thisColumn col)))
                 then rbind (set_prop (snd acc) (otherColumn col)
                               (get source (thisColumn col)))
                        (fun o => Ok (true, o))
                 else Ok acc)
              (columns view) (false, rRow)) in
  if negb (fst changed) then ret tt
  else
    let* rPk := pk_of cfg viewTableName in
    let* _ := adapterWrite cfg viewTableName
                (get (fields (snd changed)) rPk) (fields (snd changed)) in
    ret tt.

(** [_updateRemoteViews(updatedRows, doDel, complete)]. *)
Definition _updateRemoteViews (table : string) (updatedRows : list row)
  (doDel : bool) : M unit :=
  let* pk := pk_of cfg table in
  let* ti := info_of cfg table in
  iterM (fun r =>
    iterM (fun vt =>
      let* vti := info_of cfg (vt_table vt) in
      match List.find (fun e => bool_decide (fst e = table)) (_views vti) with
      | None => throw TypeError
      | Some (_, view) =>
          if doDel && bool_decide (mode view = GHOST) then ret tt
          else
            let* relatedRows :=
              _secondaryIndexRead cfg (vt_table vt) (vt_column vt)
                (get r pk) in
            iterM (fun rRow =>
                     update_remote_row (vt_table vt) view doDel r
                       (fetched rRow))
              relatedRows
      end) (_viewTables ti)) updatedRows.

(** [_doAfterQuery(newRows, doDel, next)]. *)
Definition _doAfterQuery (table : string) (newRows : list row)
  (doDel : bool) : M unit :=
  if negb (_hasViews cfg) then ret tt
  else
    let* ti := info_of cfg table in
    match _viewTables ti with
    | [] => ret tt
    | _ :: _ => _updateRemoteViews table newRows doDel
    end.

(** *** Upsert, delete, drop *)

(** [actionArgs || {}] read as an object. *)
Definition actionArgs_obj (q : query) : row :=
  match actionArgs q with
  | Some (ARow r) => r
  | Some (AColumns l) =>
      list_to_map (imap (fun i c => (pretty (N.of_nat i), str c)) l)
  | None => ∅
  end.

(** [{...actionArgs, ...r}]. *)
Definition spread_args_then_row (q : query) (r : row) : row :=
  r ∪ actionArgs_obj q.

Definition count_msg (n : nat) (what : string) : string :=
  pretty (N.of_nat n) +:+ what.

(** The instance table branch of [_upsert]. *)
Definition upsert_instance (rows : list row) (q : query) : res queryResult :=
  rbind (instance_flags X rows q) (fun flags =>
  Ok (RRows (map (fun rf => if snd rf : bool
                            then spread_args_then_row q (fst rf)
                            else fst rf)
               (zip rows flags)))).

(** The rows of [fastCHAIN(rows, ...)] in the WHERE branch of [_upsert].
    [actionArgs || {}] is read for every row: a given [actionArgs] is one
    object, assigned by [_updateRowViews] row after row; without one each row
    has an empty object of its own. *)
Fixpoint upsert_rows (q : query) (table pk : string) (newRowData : row)
  (rows : list row) : M (list row) :=
  match rows with
  | [] => ret []
  | r :: rows' =>
      _updateSearchIndex cfg (stemmer X) (metaphone X) (hash X)
        (userTokenizer X) table (get r pk) r ;;
      let* updatedColumns := _updateRowViews table newRowData (Some r) in
      let* written := _write cfg table (get r pk) (Some r) updatedColumns in
      let* tl := upsert_rows q table pk
                   (if is_set (actionArgs q) then updatedColumns else ∅)
                   rows' in
      ret (written :: tl)
  end.

(** [_upsert(next)]. *)
Definition _upsert (q : query) : M queryResult :=
  let* pk := pk_of cfg (table_key q) in
  match table q with
  | TInstance rows => lift (upsert_instance rows q)
  | TName table =>
      if is_set (qwhere q) then
        let* rows := _getRows q in
        match rows with
        | _ :: _ =>
            let* newRows := upsert_rows q table pk (actionArgs_obj q) rows in
            let pks := map (fun r => get r pk) newRows in
            cache_clear table ;;
            _syncORM q "add" rows newRows ;;
            _doAfterQuery table newRows false ;;
            ret (RWrite (count_msg (length newRows) " row(s) modfied.")
                   pks newRows)
        | [] => ret (RWrite "0 row(s) modfied." [] [])
        end
      else
        let row := actionArgs_obj q in
        cache_clear table ;;
        let write (oldRow : option JS.row) : M queryResult :=
          let* updatedColumns := _updateRowViews table row oldRow in
          let* result := _write cfg table (get updatedColumns pk) oldRow
                           updatedColumns in
          _updateSearchIndex cfg (stemmer X) (metaphone X) (hash X)
            (userTokenizer X) table (get result pk) result ;;
          (if _hasORM cfg
           then _syncORM q "add" (option_list oldRow) [result]
           else ret tt) ;;
          _doAfterQuery table [result] false ;;
          ret (RWrite "1 row inserted." [get result pk] [result]) in
        if negb (strict_eq (get row pk) undefined) &&
           negb (bool_decide ("_rebuild_search_index" ∈ comments q))
        then
          let* rows := _read_keys cfg table [get row pk] in
          match rows with
          | old :: _ => write (Some old)
          | [] => write None
          end
        else write None
  end.

(** [_drop(next)]. *)
Definition _drop (q : query) : M queryResult :=
  match table q with
  | TInstance _ => ret (RRows [])
  | TName table =>
      let* rows := _rangeRead_all cfg table in
      cache_clear table ;;
      Storage._drop cfg table ;;
      let* pk := pk_of cfg table in
      _syncORM q "del" rows [] ;;
      _doAfterQuery table rows true ;;
      ret (RWrite ("'" +:+ table +:+ "' table dropped.")
             (map (fun r => get r pk) rows) rows)
  end.

(** [_delete(next)]. *)
Definition _delete (q : query) : M queryResult :=
  match table q with
  | TInstance rows =>
      if is_set (qwhere q) then
        let* flags := lift (instance_flags X rows q) in
        ret (RRows (select_flagged rows (map negb flags)))
      else ret (RRows [])
  | TName table =>
      if is_set (qwhere q) then
        let* rows := _getRows q in
        match rows with
        | _ :: _ =>
            let* pk := pk_of cfg table in
            iterM (fun r =>
                     _clearFromSearchIndex table (get r pk) r ;;
                     Storage._delete cfg table (get r pk)) rows ;;
            cache_clear table ;;
            let pks := map (fun r => get r pk) rows in
            _syncORM q "del" rows [] ;;
            _doAfterQuery table rows true ;;
            ret (RWrite (count_msg (length rows) " row(s) deleted.") pks rows)
        | [] => ret (RWrite "0 row(s) deleted." [] [])
        end
      else _drop q
  end.

(** [doQuery(query, next)]: dispatch on the action. *)
Definition doQuery (q : query) : M queryResult :=
  if bool_decide (action q = "select") then _select q
  else if bool_decide (action q = "upsert") then _upsert q
  else if bool_decide (action q = "delete") then _delete q
  else if bool_decide (action q = "drop") then _drop q
  else if bool_decide (action q = "show tables") then
    ret (RNames (map fst (map_to_list (tableInfo cfg))))
  else if bool_decide (action q = "describe") then
    match table q with
    | TName table =>
        match models cfg !! table with
        | Some m => ret (RModel m)
        | None => ret RNone
        end
    | TInstance _ => ret RNone
    end
  else throw TypeError.

End Query.

(** Queries handed to the [nSQL] instance from inside a query come back to
    [doQuery]; none of them hands out a further one: the upserts of the ORM
    synchronisation carry "_orm_skip", and the selects of the full table
    scan read one search leaf. *)
Definition doQuery_inner (cfg : config) (X : externals) : query -> M queryResult :=
  doQuery cfg X (fun _ => throw "nested").

Definition run (cfg : config) (X : externals) : query -> M queryResult :=
  doQuery cfg X (doQuery_inner cfg X).

End StorageQuery.

(** ** Properties of the store kept by a computation *)

Module Invariants.
Import Store StorageQuery.

(** The cache of a table holds no result. *)
Definition cache_empty (T : string) (s : state) : Prop :=
  cache_of s T = ∅.

(** A computation that keeps a property of the state, whatever its
    outcome. *)
Definition keeps {A} (P : state -> Prop) (m : M A) : Prop :=
  forall s, P s -> P (snd (m s)).

End Invariants.

(** ** The checks on a query descriptor *)

Module Checks.
Import Store Storage Query Selection StorageQuery.





End Checks.

(** ** Concrete collaborators and schemas *)

Module Examples.
Import Store Storage Query Search Selection Mutate StorageQuery.

(** Paths without dots: the column itself. *)
Definition plain_objQuery (p : string) (r : row) (_ : bool) : value :=
  get r p.

(** A fingerprint that tells queries apart by action, table, offset and
    limit. *)
Definition print_query (q : query) : string :=
  action q +:+ ":" +:+ table_key q +:+ ":" +:+
  pretty (default 0 (offset q)) +:+ ":" +:+ pretty (default 0 (limit q)).

Definition X0 : externals :=
  {| objQuery := plain_objQuery;
     js_match := fun _ _ => false;
     toNumberStr := fun _ => None;
     stemmer := fun w => w;
     metaphone := fun w => w;
     hash := to_string;
     hashQuery := print_query;
     userTokenizer := None;
     fuzzySearch := fun _ _ => ret [];
     joinStage := fun _ rows => ret rows;
     ormStage := fun _ rows => ret rows |}.

Definition plain_table (name pk : string) (keys : list string) : tableInfoT :=
  {| _pk := pk; _name := name; _keys := keys; _secondaryIndexes := [];
     _searchColumns := []; _views := []; _viewTables := [] |}.

Definition base_config (tables : gmap string tableInfoT) : config :=
  {| tableInfo := tables; _hasORM := false; _hasViews := false;
     _doCache := true; _relToTable := ∅; functions := ∅; models := ∅;
     rangeInclusive := true; adapterFreezes := false |}.

Definition state_with (table : string) (rows : list row) : state :=
  {| rows_of := {[ table := rows ]}; search_of := ∅; tokens_of := ∅;
     _cache := ∅; log := [] |}.

Definition select_all (table : string) : query :=
  {| action := "select"; table := TName table; actionArgs := None;
     qwhere := None; range := None; trie := None; join := None;
     groupBy := None; orderBy := None; having := None; offset := None;
     limit := None; orm := None; comments := []; queryID := None |}.

Definition with_limit (q : query) (n : Z) : query :=
  {| action := action q; table := table q; actionArgs := actionArgs q;
     qwhere := qwhere q; range := range q; trie := trie q; join := join q;
     groupBy := groupBy q; orderBy := orderBy q; having := having q;
     offset := offset q; limit := Some n; orm := orm q;
     comments := comments q; queryID := queryID q |}.

Definition with_where (q : query) (w : Where.whereT) : query :=
  {| action := action q; table := table q; actionArgs := actionArgs q;
     qwhere := Some (WArr w); range := range q; trie := trie q;
     join := join q; groupBy := groupBy q; orderBy := orderBy q;
     having := having q; offset := offset q; limit := limit q; orm := orm q;
     comments := comments q; queryID := queryID q |}.

Definition with_range (q : query) (r : Z * Z) : query :=
  {| action := action q; table := table q; actionArgs := actionArgs q;
     qwhere := qwhere q; range := Some r; trie := trie q; join := join q;
     groupBy := groupBy q; orderBy := orderBy q; having := having q;
     offset := offset q; limit := limit q; orm := orm q;
     comments := comments q; queryID := queryID q |}.


Definition with_action (q : query) (a : string) (args : option actionArgsT)
  : query :=
  {| action := a; table := table q; actionArgs := args;
     qwhere := qwhere q; range := range q; trie := trie q; join := join q;
     groupBy := groupBy q; orderBy := orderBy q; having := having q;
     offset := offset q; limit := limit q; orm := orm q;
     comments := comments q; queryID := queryID q |}.

Definition on_table (q : query) (t : tableRef) : query :=
  {| action := action q; table := t; actionArgs := actionArgs q;
     qwhere := qwhere q; range := range q; trie := trie q; join := join q;
     groupBy := groupBy q; orderBy := orderBy q; having := having q;
     offset := offset q; limit := limit q; orm := orm q;
     comments := comments q; queryID := queryID q |}.

(** Rows [{id: n}] and [{id: n, name: s}]. *)
Definition row_id (n : Z) : row := {[ "id" := num n ]}.
Definition row_named (n : Z) (s : string) : row :=
  {[ "id" := num n; "name" := str s ]}.

End Examples.

(** ** Schemas of the scenarios *)

Module Scenarios.
Import Store Storage Query Search Selection Mutate StorageQuery Examples.

(** Users and orders: [orders.userName] is a LIVE view of [users.name] by
    [orders.userId]. *)
Definition usersT : tableInfoT :=
  {| _pk := "id"; _name := "users"; _keys := ["id"; "name"];
     _secondaryIndexes := []; _searchColumns := []; _views := [];
     _viewTables := [ {| vt_table := "orders"; vt_column := "userId" |} ] |}.

Definition userName_view : viewDef :=
  {| pkColumn := "userId";
     columns := [ {| thisColumn := "userName"; otherColumn := "name" |} ];
     mode := LIVE |}.

Definition ordersT : tableInfoT :=
  {| _pk := "id"; _name := "orders"; _keys := ["id"; "userId"; "userName"];
     _secondaryIndexes := ["userId"]; _searchColumns := [];
     _views := [("users", userName_view)]; _viewTables := [] |}.

Definition views_config (freezes : bool) : config :=
  {| tableInfo := {[ "users" := usersT; "orders" := ordersT ]};
     _hasORM := false; _hasViews := true; _doCache := true;
     _relToTable := ∅; functions := ∅; models := ∅;
     rangeInclusive := true; adapterFreezes := freezes |}.

Definition order_row (id userId : Z) (userName : string) : row :=
  {[ "id" := num id; "userId" := num userId; "userName" := str userName ]}.

Definition views_state : state :=
  {| rows_of := {[ "users" := [row_named 5 "Ada"];
                   "orders" := [order_row 1 5 "Ada"] ]};
     search_of := ∅; tokens_of := ∅; _cache := ∅; log := [] |}.

Definition where_id (n : Z) : Where.whereT :=
  Where.WSingle (Where.mk_leaf "id" "=" (num n)).

Definition delete_user_5 : query :=
  with_where (with_action (select_all "users") "delete" None) (where_id 5).

Definition upsert_order (r : row) : query :=
  with_action (select_all "orders") "upsert" (Some (ARow r)).

(** One table [t] keyed by [id]. *)
Definition t_config (inclusive : bool) : config :=
  {| tableInfo := {[ "t" := plain_table "t" "id" ["id"] ]};
     _hasORM := false; _hasViews := false; _doCache := true;
     _relToTable := ∅; functions := ∅; models := ∅;
     rangeInclusive := inclusive; adapterFreezes := false |}.

Definition three_rows : list row := [row_id 1; row_id 2; row_id 3].

(** The rows that the specification of a range select names: for a
    positive limit the positions from [offset] up to, not including,
    [offset + limit]; for a negative limit the positions from
    [count + limit - offset] to [count - offset - 1]. *)
Definition range_spec (rows : list row) (limit offset : Z) : list row :=
  let count := Z.of_nat (length rows) in
  map snd
    (List.filter
       (fun ir =>
          if 0 <? limit
          then (offset <=? fst ir) && (fst ir <? offset + limit)
          else (count + limit - offset <=? fst ir) &&
               (fst ir <=? count - offset - 1))
       (with_index 0 rows)).

(** The instance table upsert that the specification names: the fields of
    [actionArgs] over those of the row. *)
Definition merge_spec (q : query) (r : row) : row :=
  actionArgs_obj q ∪ r.

Definition rename_1_to_b : query :=
  with_where
    (with_action (on_table (select_all "t") (TInstance [row_named 1 "a"]))
       "upsert" (Some (ARow {[ "name" := str "b" ]})))
    (where_id 1).

(** A table of documents whose [body] is search-indexed with the raw
    tokenizer. *)
Definition docsT : tableInfoT :=
  {| _pk := "id"; _name := "docs"; _keys := ["id"; "body"];
     _secondaryIndexes := []; _searchColumns := [("body", ("1", "raw"))];
     _views := []; _viewTables := [] |}.

Definition docs_config : config :=
  {| tableInfo := {[ "docs" := docsT ]}; _hasORM := false;
     _hasViews := false; _doCache := true; _relToTable := ∅;
     functions := ∅; models := ∅; rangeInclusive := true;
     adapterFreezes := false |}.

Definition doc (n : Z) (body : string) : row :=
  {[ "id" := num n; "body" := str body ]}.

Definition upsert_doc (r : row) : query :=
  with_action (select_all "docs") "upsert" (Some (ARow r)).

Definition five_docs : list row :=
  [doc 1 "The quick brown fox"; doc 2 "Slow brown dog";
   doc 3 "brown brown fox"; doc 4 "bye bye"; doc 5 "a b x c"].

(** The store after the five documents were upserted one by one. *)
Definition docs_state : state :=
  fold_left (fun s r => snd (run docs_config X0 (upsert_doc r) s))
    five_docs empty_state.

Definition search_body (term : string) : query :=
  with_where (select_all "docs")
    (Where.WSingle (Where.mk_leaf "search(body)" "=" (str term))).

(** The rows that the specification of an exact search names: those whose
    words hold the words of the term in order and side by side. *)
Fixpoint starts_with (q ws : list string) : bool :=
  match q, ws with
  | [], _ => true
  | _ :: _, [] => false
  | a :: q', b :: ws' => bool_decide (a = b) && starts_with q' ws'
  end.

Fixpoint holds_contiguous (q ws : list string) : bool :=
  starts_with q ws ||
  match ws with
  | [] => false
  | _ :: ws' => holds_contiguous q ws'
  end.

Definition search_spec (rows : list row) (col term : string) : list row :=
  List.filter (fun r => holds_contiguous (words_of term)
                          (words_of (to_string (get r col)))) rows.


(** A store whose cache holds the result of a select on [t]. *)
Definition cached_state : state :=
  snd (run (t_config true) X0 (select_all "t") (state_with "t" [row_id 1])).

Definition upsert_t (r : row) : query :=
  with_action (select_all "t") "upsert" (Some (ARow r)).

(** An upsert whose WHERE clause selects no row. *)
Definition upsert_where_7 : query :=
  with_where (upsert_t {[ "name" := str "x" ]}) (where_id 7).




(** Posts and tags, related through [posts.tags] and [tags.posts]. *)
Definition posts_tags : relation :=
  {| _thisColumn := "tags"; _thisType := ArrayT; _fromTable := "tags";
     _fromColumn := "posts"; _fromType := ArrayT |}.

Definition orm_config : config :=
  {| tableInfo := {[ "posts" := plain_table "posts" "id" ["id"; "tags"];
                     "tags" := plain_table "tags" "id" ["id"; "posts"] ]};
     _hasORM := true; _hasViews := false; _doCache := true;
     _relToTable := {[ "posts" := [posts_tags] ]}; functions := ∅;
     models := ∅; rangeInclusive := true; adapterFreezes := false |}.

Definition post_9 (tags : list Z) : row :=
  {[ "id" := num 9; "tags" := VArr (map PNum tags) ]}.

Definition untagged_state : state :=
  {| rows_of := {[ "posts" := [post_9 [1]];
                   "tags" := [ {[ "id" := num 1; "posts" := VArr [] ]};
                               {[ "id" := num 2; "posts" := VArr [] ]} ] ]};
     search_of := ∅; tokens_of := ∅; _cache := ∅; log := [] |}.

Definition tags_state : state :=
  {| rows_of := {[ "posts" := [post_9 [1; 2]];
                   "tags" := [ {[ "id" := num 1; "posts" := VArr [PNum 9] ]};
                               {[ "id" := num 2; "posts" := VArr [PNum 9] ]} ] ]};
     search_of := ∅; tokens_of := ∅; _cache := ∅; log := [] |}.

End Scenarios.



(** ** The join of a selection ([_join], [_doJoin])

    The rows of a join are flat: a column [c] of the table [t] is the
    property ["t.c"].  The join condition is held against the object that
    holds the two rows under their table names; [objQuery] of the
    utilities resolves the path in it. *)

From Stdlib Require Import Sorted.

Module Join.
Import Store Storage Query Search JSObj Selection Mutate.

(** [joinTable], [usedSecondTableRows] and [secondRowCache] of [_doJoin];
    [secondRowCache] is an array with holes. *)
Record joinState : Type := mk_joinState {
  joinTable : list row;
  usedSecondTableRows : list nat;
  secondRowCache : list (option row)
}.

(** [a[i] = x] on an array with holes: an index past the end extends the
    array. *)
Definition set_at {A} (i : nat) (x : A) (a : list (option A))
  : list (option A) :=
  if (i <? length a)%nat then <[i := Some x]> a
  else (a ++ replicate (i - length a) None ++ [Some x])%list.

Fixpoint foldM {A B} (f : B -> A -> M B) (l : list A) (b : B) : M B :=
  match l with
  | [] => ret b
  | a :: l' => let* b' := f b a in foldM f l' b'
  end.

Section Joiner.

Variable cfg : config.
Variable X : externals.
(** [objQuery(path, {[first]: firstRow, [second]: secondRow})]. *)
Variable pairQuery : string -> string * row -> string * row -> value.

(** Modelled from the spec: [_read(table, (row, idx, keep) => ..., complete)],
    the rows handed to the callback, in primary key order. *)
Definition _read_each (table : string) : M (list row) :=
  let* _ := pk_of cfg table in
  emit (EvRead table) ;;
  gets (fun s => table_rows s table).

(** [doJoinRows(leftRow, rightRow)]. *)
Definition doJoinRows (firstTableData seconTableData : tableInfoT)
  (leftRow rightRow : option row) : row :=
  fold_left
    (fun prev cur =>
       fold_left (fun prev k =>
                    <[_name (fst cur) +:+ "." +:+ k
                      := get (default ∅ (snd cur)) k]> prev)
         (_keys (fst cur)) prev)
    [(firstTableData, leftRow); (seconTableData, rightRow)] (∅ : row).

(** [_where(pair, [_left, _check, value], 0)]: with a join condition the
    list starts with a text and is a single leaf; without one its elements
    are [undefined] and reading the first leaf throws. *)
Definition willJoinRows (type : string)
  (joinConditions : option (string * string * string)) (rightKey : string)
  (firstTableData seconTableData : tableInfoT) (firstRow secondRow : row)
  : res bool :=
  match joinConditions with
  | None => Throw TypeError
  | Some (_left, _check, _) =>
      Where._compare (js_match X) (toNumberStr X)
        (get (if bool_decide (type = "right") then firstRow else secondRow)
           rightKey)
        (str _check)
        (pairQuery _left (_name firstTableData, firstRow)
           (_name seconTableData, secondRow))
  end.

(** The scan of the second table for one row of the first. *)
Fixpoint scanSecond (type : string)
  (joinConditions : option (string * string * string)) (rightKey : string)
  (firstTableData seconTableData : tableInfoT) (firstRow : row)
  (rows : list row) (idx2 : nat) (st : joinState) (hasOneRelation : bool)
  : res (joinState * bool) :=
  match rows with
  | [] => Ok (st, hasOneRelation)
  | secondRow :: rows' =>
      let joined := doJoinRows firstTableData seconTableData (Some firstRow)
                      (Some secondRow) in
      if bool_decide (type = "cross") then
        scanSecond type joinConditions rightKey firstTableData seconTableData
          firstRow rows' (S idx2)
          {| joinTable := (joinTable st ++ [joined])%list;
             usedSecondTableRows := usedSecondTableRows st;
             secondRowCache := secondRowCache st |} true
      else
        rbind (willJoinRows type joinConditions rightKey firstTableData
                 seconTableData firstRow secondRow) (fun willJoin =>
        if willJoin : bool then
          scanSecond type joinConditions rightKey firstTableData
            seconTableData firstRow rows' (S idx2)
            {| joinTable := (joinTable st ++ [joined])%list;
               usedSecondTableRows :=
                 if bool_decide (type = "outer")
                 then idx2 :: usedSecondTableRows st
                 else usedSecondTableRows st;
               secondRowCache := secondRowCache st |} true
        else
          scanSecond type joinConditions rightKey firstTableData
            seconTableData firstRow rows' (S idx2)
            {| joinTable := joinTable st;
               usedSecondTableRows := usedSecondTableRows st;
               secondRowCache :=
                 if bool_decide (type = "outer")
                 then set_at idx2 secondRow (secondRowCache st)
                 else secondRowCache st |} hasOneRelation)
  end.

(** The callback of the scan of the first table. *)
Definition joinFirstRow (type : string)
  (joinConditions : option (string * string * string)) (rightKey : string)
  (firstTableData : tableInfoT) (secondKey : string) (st : joinState)
  (firstRow : row) : M joinState :=
  let* seconTableData := info_of cfg secondKey in
  let* rows := _read_each (_name seconTableData) in
  let* scanned := lift (scanSecond type joinConditions rightKey firstTableData
                          seconTableData firstRow rows 0 st false) in
  ret (if negb (snd scanned) &&
          bool_decide (type ∈ ["left"; "right"; "outer"])
       then {| joinTable :=
                 (joinTable (fst scanned) ++
                  [doJoinRows firstTableData seconTableData (Some firstRow)
                     None])%list;
               usedSecondTableRows := usedSecondTableRows (fst scanned);
               secondRowCache := secondRowCache (fst scanned) |}
       else fst scanned).

(** [secondRowCache.filter((val, i) => !usedSecondTableRows[i])]: [filter]
    passes over the holes. *)
Definition unusedRows (st : joinState) : list row :=
  omap id (imap (fun i o =>
                   if bool_decide (i ∈ usedSecondTableRows st) then None
                   else o) (secondRowCache st)).

(** [_doJoin(type, leftTable, rightTable, joinConditions, complete)]. *)
Definition _doJoin (type leftTable rightTable : string)
  (joinConditions : option (string * string * string)) : M (list row) :=
  let firstKey := if bool_decide (type = "right") then rightTable
                  else leftTable in
  let secondKey := if bool_decide (type = "right") then leftTable
                   else rightTable in
  let rightKey :=
    match joinConditions with
    | Some (_, _, _right) =>
        if bool_decide (_right = EmptyString) then EmptyString
        else List.last (split_on "." _right) EmptyString
    | None => EmptyString
    end in
  let* firstTableData := info_of cfg firstKey in
  let* rows := _read_each (_name firstTableData) in
  let* st := foldM (joinFirstRow type joinConditions rightKey firstTableData
                      secondKey) rows (mk_joinState [] [] []) in
  if bool_decide (type = "outer") then
    match unusedRows st with
    | [] => ret (joinTable st)
    | addRows =>
        let* seconTableData := info_of cfg secondKey in
        ret (joinTable st ++
             map (fun r => doJoinRows firstTableData seconTableData None
                             (Some r)) addRows)%list
    end
  else ret (joinTable st).

(** [_join(rows, complete)]. *)
Definition _join (q : query) (rows : list row) : M (list row) :=
  match join q with
  | None => ret rows
  | Some j =>
      let joinConditions :=
        if negb (bool_decide (join_type j = "cross")) then join_where j
        else None in
      let* joinedRows := _doJoin (join_type j) (table_key q) (join_table j)
                           joinConditions in
      match qwhere q with
      | Some (WArr w) =>
          lift (filterM_idx
                  (fun theRow idx => where_row X theRow w true None "undefined")
                  0 joinedRows)
      | Some (WFn f) =>
          lift (filterM_idx (fun theRow idx => Ok (f theRow idx)) 0 joinedRows)
      | None =>
          match range q with
          | Some r =>
              ret (filter_idx (fun idx => (Z.of_nat idx <=? fst r) &&
                                          (snd r <=? Z.of_nat idx))
                     joinedRows)
          | None => ret joinedRows
          end
      end
  end.

(** The collaborators with the join of this module in the place of
    [joinStage]. *)
Definition with_join : externals :=
  {| objQuery := objQuery X; js_match := js_match X;
     toNumberStr := toNumberStr X; stemmer := stemmer X;
     metaphone := metaphone X; hash := hash X; hashQuery := hashQuery X;
     userTokenizer := userTokenizer X; fuzzySearch := fuzzySearch X;
     joinStage := _join; ormStage := ormStage X |}.

End Joiner.

(** A path [t.c] in the object that holds two rows under their table
    names; the second row comes later in the object literal and wins
    when the names agree. *)
Definition plain_pairQuery (path : string) (p1 p2 : string * row) : value :=
  match split_on "." path with
  | [t; c] =>
      if bool_decide (t = fst p2) then get (snd p2) c
      else if bool_decide (t = fst p1) then get (snd p1) c
      else undefined
  | _ => undefined
  end.

End Join.

(** ** Notions used by the further properties, continued *)

Module Extra.
Import Store Storage Query Search Selection Mutate StorageQuery Invariants.

(** A given value other than the two sentinels "NULL" and "NOT NULL". *)
Definition plain_value (v : value) : Prop :=
  v <> str "NULL" /\ v <> str "NOT NULL".


(** The row holds a number in each of the columns. *)
Definition numeric_in (columns : list (string * string)) (r : row) : Prop :=
  Forall (fun c => exists n, get r (fst c) = num n) columns.

(** The number in a column. *)
Definition col_num (r : row) (c : string) : Z :=
  match get r c with
  | VPrim (PNum n) => n
  | _ => 0
  end.

(** The store [s'] holds the rows, the search indexes and the token
    records of [s], and its log is the log of [s] with reads after it. *)
Definition reads_only (s s' : state) : Prop :=
  rows_of s' = rows_of s /\ search_of s' = search_of s /\
  tokens_of s' = tokens_of s /\
  exists l, log s' = (log s ++ l)%list /\
            Forall (fun e => exists t, e = EvRead t) l.

(** The collaborators that run in a select do no more than read. *)
Definition quiet (X : externals) (s : state) : Prop :=
  (forall t l, keeps (reads_only s) (fuzzySearch X t l)) /\
  (forall q rows, keeps (reads_only s) (joinStage X q rows)) /\
  (forall q rows, keeps (reads_only s) (ormStage X q rows)).




(** The rows that a join other than a cross join gives for one row of the
    first table, [joins] telling which rows of the second table join it:
    one row for every such row, or, when there is none and the join is a
    left, right or outer join, the row alone. *)
Definition joined_with (type : string) (fi si : tableInfoT)
  (joins : row -> row -> bool) (second : list row) (a : row) : list row :=
  match List.filter (joins a) second with
  | [] => if bool_decide (type ∈ ["left"; "right"; "outer"])
          then [Join.doJoinRows fi si (Some a) None] else []
  | matches => map (fun b => Join.doJoinRows fi si (Some a) (Some b)) matches
  end.

(** The column of the right table that the join condition names. *)
Definition rightKey_of (joinConditions : option (string * string * string))
  : string :=
  match joinConditions with
  | Some (_, _, _right) =>
      if bool_decide (_right = EmptyString) then EmptyString
      else List.last (split_on "." _right) EmptyString
  | None => EmptyString
  end.

(** A select on [orders] that joins [users] and names no join condition,
    and one that joins every pair and keeps a range. *)
Definition orders_join_users : query :=
  {| action := "select"; table := TName "orders"; actionArgs := None;
     qwhere := None; range := None; trie := None;
     join := Some (mk_join "inner" "users" None);
     groupBy := None; orderBy := None; having := None; offset := None;
     limit := None; orm := None; comments := []; queryID := None |}.

Definition orders_cross_users_range : query :=
  {| action := "select"; table := TName "orders"; actionArgs := None;
     qwhere := None; range := Some (0, 0); trie := None;
     join := Some (mk_join "cross" "users" None);
     groupBy := None; orderBy := None; having := None; offset := None;
     limit := None; orm := None; comments := []; queryID := None |}.

(** Two computations that do the same on every store. *)
Definition same {A} (m m' : M A) : Prop := forall s, m s = m' s.

(** The queries that the query core hands to the [nSQL] instance: the
    upsert of a related row by the ORM synchronisation, and the select of
    one search leaf by the full table scan. *)
Definition handed_out (q : query) : Prop :=
  (exists t r, q = upsert_query t r ["_orm_skip"]) \/
  (exists t l, q = select_query (TName t) (WArr (Where.WSingle l))).

(** The table [t] with the aggregate function COUNT registered. *)
Definition count_config : config :=
  {| tableInfo := {[ "t" := Examples.plain_table "t" "id" ["id"; "name"] ]};
     _hasORM := false; _hasViews := false; _doCache := true;
     _relToTable := ∅;
     functions :=
       {[ "COUNT" := FnA (fun rows _ => num (Z.of_nat (length rows))) ]};
     models := ∅; rangeInclusive := true; adapterFreezes := false |}.

End Extra.

(** * Properties *)

(** ** The predicate evaluator *)

Module WhereFacts.
Import Where.

Section Facts.

Variable objQuery : string -> row -> bool -> value.
Variable js_match : string -> value -> bool.
Variable toNumberStr : string -> option Z.
Variable singleRow : row.
Variable ignoreFirstPath : bool.
Variable searchCache : option (gmap nat (list row)).
Variable pk : string.

Local Abbreviation leafResult :=
  (leafResult objQuery js_match toNumberStr singleRow ignoreFirstPath
     searchCache pk).
Local Abbreviation where_step :=
  (where_step objQuery js_match toNumberStr singleRow ignoreFirstPath
     searchCache pk).
Local Abbreviation where_reduce :=
  (where_reduce objQuery js_match toNumberStr singleRow ignoreFirstPath
     searchCache pk).
Local Abbreviation eval_rest :=
  (eval_rest objQuery js_match toNumberStr singleRow ignoreFirstPath
     searchCache pk).
Local Abbreviation where_run :=
  (where_run objQuery js_match toNumberStr singleRow ignoreFirstPath
     searchCache pk).
Local Abbreviation _where :=
  (_where objQuery js_match toNumberStr singleRow ignoreFirstPath
     searchCache pk).

Lemma rbind_ok {A B} (m : res A) (f : A -> res B) b :
  rbind m f = Ok b -> exists a, m = Ok a /\ f a = Ok b.
Proof. destruct m; simpl; [eauto | discriminate]. Qed.

Lemma odd_SS n : Nat.odd (S (S n)) = Nat.odd n.
Proof. reflexivity. Qed.


Lemma eqb_S_odd n : Nat.odd n = true -> Nat.eqb (S n) 0 = false.
Proof. reflexivity. Qed.






(** The results carry the connectives of the list. *)
Lemma eval_rest_conns rest : forall idx rs,
  eval_rest idx rest = Ok rs -> map fst rs = map fst rest.
Proof.
  induction rest as [|[c l] rest IH]; intros idx rs Hev; simpl in Hev.
  - by injection Hev as <-.
  - apply rbind_ok in Hev as (r & Hr & Hev).
    apply rbind_ok in Hev as (rs' & Hrs & Hev). injection Hev as <-.
    simpl. f_equal. eauto.
Qed.

Lemma eval_rest_length rest idx rs :
  eval_rest idx rest = Ok rs -> length rs = length rest.
Proof.
  intros H. apply eval_rest_conns in H.
  by rewrite <- (length_map fst rs), H, length_map.
Qed.







End Facts.


End WhereFacts.

(** ** The result cache of [_select] *)

Module CacheFacts.
Import Store Storage Query Selection Mutate StorageQuery Examples Scenarios.

(** What [_select] stores when the query has arguments: the rows handed to
    the mutation, not its result. *)
Lemma select_stores_selected_rows cfg X nested q rows st s s1 s2 :
  canCache cfg q = true ->
  has_arguments q = true ->
  cache_of s (table_name q) !! hashQuery X (clear_queryID q) = None ->
  _getRows cfg X nested q s = (Ok rows, s1) ->
  _executeQueryArguments cfg X q rows s1 = (Ok st, s2) ->
  exists s3,
    _select cfg X nested q s = (Ok (RRows (cur st)), s3) /\
    cache_of s3 (table_name q) !! hashQuery X (clear_queryID q)
      = Some (orig st).
Proof.
  intros Hc Ha Hmiss Hrows Hmut.
  unfold _select, bind, gets. rewrite Hc, Hmiss, Hrows, Ha. cbn [negb].
  rewrite Hmut. unfold cache_store, bind, gets, set_cache, modify, ret.
  eexists. split; [reflexivity|].
  unfold cache_of. simpl. rewrite lookup_insert_eq. simpl.
  by rewrite lookup_insert_eq.
Qed.

(** A cacheable select without arguments stores what it delivers, and the
    next run delivers it again. *)
Lemma select_without_arguments_repeats cfg X nested q rows s s1 :
  canCache cfg q = true ->
  has_arguments q = false ->
  cache_of s (table_name q) !! hashQuery X (clear_queryID q) = None ->
  _getRows cfg X nested q s = (Ok rows, s1) ->
  exists s2,
    _select cfg X nested q s = (Ok (RRows rows), s2) /\
    _select cfg X nested q s2 = (Ok (RRows rows), s2).
Proof.
  intros Hc Ha Hmiss Hrows.
  unfold _select at 1. unfold bind at 1, gets.
  rewrite Hc, Hmiss. unfold bind at 1. rewrite Hrows, Ha. cbn [negb].
  unfold cache_store, bind, gets, set_cache, modify, ret.
  eexists. split; [reflexivity|].
  unfold _select, bind, gets. rewrite Hc.
  unfold cache_of. simpl. rewrite lookup_insert_eq. simpl.
  by rewrite lookup_insert_eq.
Qed.

(** C2: a cacheable select with a limit, on a table of two rows, run twice
    with no write in between.  The first run delivers one row, the cache
    then holds both rows under the fingerprint of the query, and the
    second run delivers both. *)
Theorem select_twice_differs :
  let cfg := t_config true in
  let q := with_limit (select_all "t") 1 in
  let s0 := state_with "t" [row_id 1; row_id 2] in
  canCache cfg q = true /\
  exists s1 s2,
    run cfg X0 q s0 = (Ok (RRows [row_id 1]), s1) /\
    cache_of s1 "t" !! hashQuery X0 (clear_queryID q)
      = Some [row_id 1; row_id 2] /\
    run cfg X0 q s1 = (Ok (RRows [row_id 1; row_id 2]), s2).
Proof.
  split; [reflexivity|].
  eexists. eexists. split; [vm_compute; reflexivity|].
  split; vm_compute; reflexivity.
Qed.

End CacheFacts.

(** ** Instance tables *)

Module InstanceFacts.
Import Store Storage Query Selection Mutate StorageQuery Examples Scenarios.

(** In [{...actionArgs, ...r}] a field of the row wins. *)
Lemma spread_keeps_row_field q (r : row) k v :
  r !! k = Some v -> spread_args_then_row q r !! k = Some v.
Proof. intros H. unfold spread_args_then_row. by apply lookup_union_Some_l. Qed.

(** C6: an upsert of [{name: "b"}] into the instance table
    [[{id: 1, name: "a"}]] where [id = 1].  The instance branch returns the
    row as it was, while the merge of the specification renames it; and
    [_upsert] itself throws on the first line, where it reads the key
    column of a table descriptor that an instance table does not have. *)
Theorem instance_upsert_keeps_row :
  upsert_instance X0 [row_named 1 "a"] rename_1_to_b
    = Ok (RRows [row_named 1 "a"]) /\
  map (merge_spec rename_1_to_b) [row_named 1 "a"] = [row_named 1 "b"] /\
  run (t_config true) X0 rename_1_to_b empty_state
    = (Throw TypeError, empty_state).
Proof. repeat split; vm_compute; reflexivity. Qed.

End InstanceFacts.

(** ** Range selection *)

Module RangeFacts.
Import Store Storage Query Selection Mutate StorageQuery Examples Scenarios.

(** With an adapter whose range includes the last index the branch for a
    negative limit reads the rows of the specification. *)
Example negative_limit_inclusive :
  fst (_selectByRange (t_config true) "t" (-2, 0) (state_with "t" three_rows))
  = Ok (range_spec three_rows (-2) 0).
Proof. vm_compute. reflexivity. Qed.

(** With an adapter whose range stops before the last index the branch for
    a positive limit reads the rows of the specification. *)
Example positive_limit_exclusive :
  fst (_selectByRange (t_config false) "t" (2, 0) (state_with "t" three_rows))
  = Ok (range_spec three_rows 2 0).
Proof. vm_compute. reflexivity. Qed.

(** C7: whichever way the adapter reads the upper end of a range, one of
    the two branches of [_selectByRange] misses the rows of the
    specification by one: with the last index included, a limit of 2 reads
    three rows; with the last index left out, a limit of -2 reads one
    row. *)
Theorem range_select_off_by_one :
  fst (_selectByRange (t_config true) "t" (2, 0) (state_with "t" three_rows))
    = Ok [row_id 1; row_id 2; row_id 3] /\
  range_spec three_rows 2 0 = [row_id 1; row_id 2] /\
  fst (_selectByRange (t_config false) "t" (-2, 0) (state_with "t" three_rows))
    = Ok [row_id 2] /\
  range_spec three_rows (-2) 0 = [row_id 2; row_id 3].
Proof. repeat split; vm_compute; reflexivity. Qed.

End RangeFacts.

(** ** View projection *)

Module ViewFacts.
Import Store Storage Query Selection Mutate StorageQuery Examples Scenarios.

(** Without an existing row, a view whose reference column is set cannot be
    compared: [existingRow[pk]] throws. *)
Lemma update_row_view_without_row cfg newRowData view s :
  strict_eq (get newRowData (pkColumn (snd view))) undefined = false ->
  update_row_view cfg None newRowData view s = (Throw TypeError, s).
Proof. intros H. unfold update_row_view. by rewrite H. Qed.

(** C10: a direct upsert of the new order [{id: 2, userId: 5}] into
    [orders], whose [userName] is a view of [users] by [userId]: there is
    no row 2 yet, the write goes on with a null old row, and the view step
    throws; nothing is written. *)
Theorem direct_upsert_view_throws :
  exists s',
    run (views_config false) X0
      (upsert_order {[ "id" := num 2; "userId" := num 5 ]}) views_state
      = (Throw TypeError, s') /\
    rows_of s' = rows_of views_state.
Proof. eexists. split; vm_compute; reflexivity. Qed.

(** An assignment on a frozen object throws, one on a copy does not. *)
Lemma set_prop_frozen o k v : frozen o = true -> set_prop o k v = Throw TypeError.
Proof. intros H. unfold set_prop. by rewrite H. Qed.

Lemma set_prop_copy o k v :
  set_prop (_assign o) k v
  = Ok {| frozen := false; fields := <[k := v]> (fields o) |}.
Proof. reflexivity. Qed.

(** The remote view update of a delete in LIVE mode assigns the fetched row
    itself: on a frozen row it throws. *)
Lemma update_remote_row_frozen cfg name view source (r : row) s :
  mode view = LIVE ->
  update_remote_row cfg name view true source
    {| frozen := true; fields := r |} s = (Throw TypeError, s).
Proof.
  intros H. unfold update_remote_row. rewrite H. reflexivity.
Qed.

(** C9: deleting user 5, to whom order 1 refers through a LIVE view, with
    an adapter that hands out frozen rows.  The remote view update assigns
    the fetched order row without copying it and throws; with rows that
    are not frozen the same query nulls the reference of the order row. *)
Theorem remote_view_update_assigns_fetched_row :
  (exists s',
     run (views_config true) X0 delete_user_5 views_state
       = (Throw TypeError, s') /\
     table_rows s' "orders" = [order_row 1 5 "Ada"]) /\
  (exists r s',
     run (views_config false) X0 delete_user_5 views_state = (Ok r, s') /\
     map (fun o => get o "userId") (table_rows s' "orders") = [null]).
Proof.
  split.
  - eexists. split; vm_compute; reflexivity.
  - eexists. eexists. split; vm_compute; reflexivity.
Qed.

End ViewFacts.

(** ** Full-text search *)

Module SearchFacts.
Import Store Storage Query Search Selection Mutate StorageQuery Examples Scenarios.

(** The five documents are stored. *)
Example docs_stored : table_rows docs_state "docs" = five_docs.
Proof. vm_compute. reflexivity. Qed.

(** The scenario of the specification: "brown fox" finds the quick brown
    fox and not the slow brown dog. *)
Example search_brown_fox_finds_doc_1 :
  In (doc 1 "The quick brown fox")
    (result_rows (default RNone
       (match fst (run docs_config X0 (search_body "brown fox") docs_state)
        with Ok r => Some r | Throw _ => None end))).
Proof. vm_compute. left. reflexivity. Qed.

(** C4: the exact search on the five documents.  "brown fox" misses the
    document "brown brown fox", which holds the two words side by side;
    "bye bye" misses the document "bye bye", because the two tokens of the
    term are one word of the index; "a b c" returns the document
    "a b x c", in which the three words are not side by side. *)
Theorem exact_search_is_not_contiguous_match :
  fst (run docs_config X0 (search_body "brown fox") docs_state)
    = Ok (RRows [doc 1 "The quick brown fox"]) /\
  search_spec five_docs "body" "brown fox"
    = [doc 1 "The quick brown fox"; doc 3 "brown brown fox"] /\
  fst (run docs_config X0 (search_body "bye bye") docs_state)
    = Ok (RRows []) /\
  search_spec five_docs "body" "bye bye" = [doc 4 "bye bye"] /\
  fst (run docs_config X0 (search_body "a b c") docs_state)
    = Ok (RRows [doc 5 "a b x c"]) /\
  search_spec five_docs "body" "a b c" = [].
Proof. repeat split; vm_compute; reflexivity. Qed.

End SearchFacts.

(** ** Invalidation of the result cache by writes *)

Module InvalidationFacts.
Import Store Storage Query Search Selection Mutate StorageQuery Invariants
  Examples Scenarios.

Lemma bind_ok {A B} (m : M A) (f : A -> M B) s b s' :
  bind m f s = (Ok b, s') ->
  exists a s1, m s = (Ok a, s1) /\ f a s1 = (Ok b, s').
Proof.
  unfold bind. destruct (m s) as [[a|e] s1]; [eauto | discriminate].
Qed.

Section Keeps.

Variable P : state -> Prop.
(** The property looks at the cache alone. *)
Hypothesis P_cache : forall s s', _cache s' = _cache s -> P s -> P s'.

Lemma keeps_ret {A} (a : A) : keeps P (ret a).
Proof. intros s H. exact H. Qed.

Lemma keeps_throw {A} e : keeps P (@throw A e).
Proof. intros s H. exact H. Qed.

Lemma keeps_lift {A} (r : res A) : keeps P (lift r).
Proof. intros s H. exact H. Qed.

Lemma keeps_gets {A} (f : state -> A) : keeps P (gets f).
Proof. intros s H. exact H. Qed.

Lemma keeps_bind {A B} (m : M A) (f : A -> M B) :
  keeps P m -> (forall a, keeps P (f a)) -> keeps P (bind m f).
Proof.
  intros Hm Hf s H. unfold bind. specialize (Hm s H).
  destruct (m s) as [[a|e] s1]; simpl in *; [by apply Hf | exact Hm].
Qed.

Lemma keeps_mapM {A B} (f : A -> M B) l :
  (forall a, keeps P (f a)) -> keeps P (mapM f l).
Proof.
  intros Hf. induction l as [|a l IH]; simpl.
  - apply keeps_ret.
  - apply keeps_bind; [apply Hf|]. intros b.
    apply keeps_bind; [exact IH|]. intros bs. apply keeps_ret.
Qed.

Lemma keeps_iterM {A} (f : A -> M unit) l :
  (forall a, keeps P (f a)) -> keeps P (iterM f l).
Proof.
  intros Hf. induction l as [|a l IH]; simpl.
  - apply keeps_ret.
  - apply keeps_bind; [apply Hf | intros _; exact IH].
Qed.

Lemma keeps_emit e : keeps P (emit e).
Proof. intros s H. eapply P_cache; [|exact H]. reflexivity. Qed.

Lemma keeps_set_rows t rs : keeps P (set_rows t rs).
Proof. intros s H. eapply P_cache; [|exact H]. reflexivity. Qed.

Lemma keeps_set_search t x : keeps P (set_search t x).
Proof. intros s H. eapply P_cache; [|exact H]. reflexivity. Qed.

Lemma keeps_set_tokens t x : keeps P (set_tokens t x).
Proof. intros s H. eapply P_cache; [|exact H]. reflexivity. Qed.

End Keeps.

Create HintDb keepsdb.

#[local] Hint Resolve keeps_ret keeps_throw keeps_lift keeps_gets keeps_emit
  keeps_set_rows keeps_set_search keeps_set_tokens : keepsdb.

(** Take a computation apart along its binds and case distinctions. *)
Ltac keeps_step :=
  first
    [ progress intros
    | assumption
    | solve [eauto 3 with keepsdb]
    | match goal with
      | |- keeps _ (bind _ _) => apply keeps_bind
      | |- keeps _ (mapM _ _) => apply keeps_mapM
      | |- keeps _ (iterM _ _) => apply keeps_iterM
      | |- keeps _ (match ?x with _ => _ end) => destruct x
      | |- keeps _ (if ?b then _ else _) => destruct b
      | |- keeps _ (let _ := _ in _) => cbv zeta
      end ].

Ltac keeps_tac := repeat keeps_step.

Section StorageKeeps.

Variable cfg : config.
Variable X : externals.
Variable P : state -> Prop.
Hypothesis P_cache : forall s s', _cache s' = _cache s -> P s -> P s'.

Local Hint Resolve P_cache : keepsdb.

Lemma keeps_pk_of t : keeps P (pk_of cfg t).
Proof. unfold pk_of. keeps_tac. Qed.

Lemma keeps_info_of t : keeps P (info_of cfg t).
Proof. unfold info_of. keeps_tac. Qed.

Local Hint Resolve keeps_pk_of keeps_info_of : keepsdb.

Lemma keeps_adapter_read t k : keeps P (adapter_read cfg t k).
Proof. unfold adapter_read. keeps_tac. Qed.

Lemma keeps_adapterWrite t k r : keeps P (adapterWrite cfg t k r).
Proof. unfold adapterWrite. keeps_tac. Qed.

Local Hint Resolve keeps_adapter_read keeps_adapterWrite : keepsdb.

Lemma keeps_read_keys t ks : keeps P (_read_keys cfg t ks).
Proof. unfold _read_keys. keeps_tac. Qed.

Lemma keeps_write t k o r : keeps P (_write cfg t k o r).
Proof. unfold _write. keeps_tac. Qed.

Lemma keeps_delete t k : keeps P (Storage._delete cfg t k).
Proof. unfold Storage._delete. keeps_tac. Qed.

Lemma keeps_drop t : keeps P (Storage._drop cfg t).
Proof. unfold Storage._drop. keeps_tac. Qed.

Lemma keeps_rangeRead_all t : keeps P (_rangeRead_all cfg t).
Proof. unfold _rangeRead_all. keeps_tac. Qed.

Lemma keeps_secondaryIndexRead t c v :
  keeps P (_secondaryIndexRead cfg t c v).
Proof. unfold _secondaryIndexRead. keeps_tac. Qed.

Lemma keeps_search_read t w : keeps P (search_read t w).
Proof. unfold search_read. keeps_tac. Qed.

Lemma keeps_search_write t w r : keeps P (search_write t w r).
Proof. unfold search_write. keeps_tac. Qed.

Lemma keeps_tokens_read t k : keeps P (tokens_read t k).
Proof. unfold tokens_read. keeps_tac. Qed.

Lemma keeps_tokens_write t k r : keeps P (tokens_write t k r).
Proof. unfold tokens_write. keeps_tac. Qed.

Lemma keeps_tokens_delete t k : keeps P (tokens_delete t k).
Proof. unfold tokens_delete. keeps_tac. Qed.

Local Hint Resolve keeps_read_keys keeps_write keeps_delete keeps_drop
  keeps_rangeRead_all keeps_secondaryIndexRead keeps_search_read
  keeps_search_write keeps_tokens_read keeps_tokens_write
  keeps_tokens_delete : keepsdb.

Lemma keeps_tokenizer st me ut t c v :
  keeps P (_tokenizer cfg st me ut t c v).
Proof. unfold _tokenizer. keeps_tac. Qed.

Local Hint Resolve keeps_tokenizer : keepsdb.

Lemma keeps_update_word t c k nt j w ps l :
  keeps P (update_word t c k nt j w ps l).
Proof. unfold update_word. keeps_tac. Qed.

Local Hint Resolve keeps_update_word : keepsdb.

Lemma keeps_updateSearchIndex st me h ut t k r :
  keeps P (_updateSearchIndex cfg st me h ut t k r).
Proof. unfold _updateSearchIndex. keeps_tac. Qed.

Lemma keeps_clearFromSearchIndex t k r :
  keeps P (_clearFromSearchIndex cfg X t k r).
Proof. unfold _clearFromSearchIndex, tokenize. keeps_tac. Qed.

Lemma keeps_update_row_view e r v : keeps P (update_row_view cfg e r v).
Proof. unfold update_row_view. keeps_tac. Qed.

Local Hint Resolve keeps_update_row_view : keepsdb.

Lemma keeps_updateRowViews t r e : keeps P (_updateRowViews cfg t r e).
Proof.
  unfold _updateRowViews. keeps_tac.
  match goal with
  | |- keeps _ (_ ?l ?r) => revert r; induction l; keeps_tac
  end.
Qed.

Lemma keeps_update_remote_row n v d src o :
  keeps P (update_remote_row cfg n v d src o).
Proof. unfold update_remote_row. keeps_tac. Qed.

Local Hint Resolve keeps_update_remote_row : keepsdb.

Lemma keeps_updateRemoteViews t rs d : keeps P (_updateRemoteViews cfg t rs d).
Proof. unfold _updateRemoteViews. keeps_tac. Qed.

Local Hint Resolve keeps_updateRemoteViews : keepsdb.

Lemma keeps_doAfterQuery t rs d : keeps P (_doAfterQuery cfg t rs d).
Proof. unfold _doAfterQuery. keeps_tac. Qed.

End StorageKeeps.

#[local] Hint Resolve keeps_pk_of keeps_info_of keeps_read_keys keeps_write
  keeps_delete keeps_drop keeps_rangeRead_all keeps_updateSearchIndex
  keeps_clearFromSearchIndex keeps_updateRowViews keeps_doAfterQuery
  : keepsdb.

Section QueryKeeps.

Variable cfg : config.
Variable X : externals.
Variable T : string.

Lemma cache_empty_frame s s' :
  _cache s' = _cache s -> cache_empty T s -> cache_empty T s'.
Proof. unfold cache_empty, cache_of. by intros ->. Qed.

Local Hint Resolve cache_empty_frame : keepsdb.

(** Clearing the cache of a table empties it and leaves the empty cache of
    another table empty. *)
Lemma cache_clear_empties s : cache_empty T (snd (cache_clear T s)).
Proof.
  unfold cache_empty, cache_of, cache_clear, bind, gets, set_cache, modify.
  simpl. by rewrite lookup_insert_eq.
Qed.

Lemma keeps_cache_clear t : keeps (cache_empty T) (cache_clear t).
Proof.
  intros s H. unfold cache_empty, cache_of, cache_clear, bind, gets,
    set_cache, modify in *. simpl.
  destruct (decide (t = T)) as [->|Hne].
  - by rewrite lookup_insert_eq.
  - by rewrite lookup_insert_ne.
Qed.

Local Hint Resolve keeps_cache_clear : keepsdb.

Section Sync.

Variable nested : query -> M queryResult.
(** The upserts handed to the instance keep the cache of [T] empty. *)
Hypothesis nested_upsert :
  forall t r c, keeps (cache_empty T) (nested (upsert_query t r c)).

Local Hint Resolve nested_upsert : keepsdb.

Lemma keeps_update_orm_row rel add k r :
  keeps (cache_empty T) (update_orm_row cfg nested rel add k r).
Proof. unfold update_orm_row. keeps_tac. Qed.

Local Hint Resolve keeps_update_orm_row : keepsdb.

Lemma keeps_updateORMRows rel ks add k :
  keeps (cache_empty T) (_updateORMRows cfg nested rel ks add k).
Proof. unfold _updateORMRows. keeps_tac. Qed.

Local Hint Resolve keeps_updateORMRows : keepsdb.

Lemma keeps_sync_relation type t o n rel :
  keeps (cache_empty T) (sync_relation cfg nested type t o n rel).
Proof. unfold sync_relation. keeps_tac. Qed.

Local Hint Resolve keeps_sync_relation : keepsdb.

Lemma keeps_syncORM q type olds news :
  keeps (cache_empty T) (_syncORM cfg nested q type olds news).
Proof. unfold _syncORM. keeps_tac. Qed.

Local Hint Resolve keeps_syncORM : keepsdb.

(** A direct upsert keeps the cache of [T] empty. *)
Lemma keeps_direct_upsert t r c :
  keeps (cache_empty T) (_upsert cfg X nested (upsert_query t r c)).
Proof.
  unfold _upsert, upsert_query. cbn [table qwhere is_set table_key
    actionArgs_obj actionArgs comments]. keeps_tac.
Qed.

End Sync.

(** The queries that a query hands to the instance. *)
Lemma keeps_inner_upsert t r c :
  keeps (cache_empty T) (doQuery_inner cfg X (upsert_query t r c)).
Proof.
  unfold doQuery_inner, doQuery. cbn [action upsert_query].
  rewrite bool_decide_eq_false_2 by discriminate.
  rewrite bool_decide_eq_true_2 by reflexivity.
  apply keeps_direct_upsert. intros. apply keeps_throw.
Qed.

End QueryKeeps.

Lemma keeps_run {A} (P : state -> Prop) (m : M A) s r s' :
  keeps P m -> P s -> m s = (r, s') -> P s'.
Proof. intros Hk HP Hm. specialize (Hk s HP). by rewrite Hm in Hk. Qed.

#[local] Hint Resolve keeps_cache_clear keeps_syncORM keeps_inner_upsert
  cache_empty_frame : keepsdb.

(** A drop on a stored table leaves its cache empty. *)
Lemma drop_clears_cache cfg X q T r s s' :
  table q = TName T ->
  _drop cfg (doQuery_inner cfg X) q s = (Ok r, s') ->
  cache_empty T s'.
Proof.
  intros HT Hrun. unfold _drop in Hrun. rewrite HT in Hrun.
  apply bind_ok in Hrun as (rows & s1 & _ & Hrun).
  apply bind_ok in Hrun as ([] & s2 & Hclear & Hrun).
  eapply keeps_run; [| |exact Hrun].
  - keeps_tac.
  - replace s2 with (snd (cache_clear T s1)) by (by rewrite Hclear).
    apply cache_clear_empties.
Qed.

(** C3, as the code has it: when an upsert, a delete or a drop on a stored
    table [T] completes, the cache of [T] holds no result, provided the
    query wrote: it has no WHERE clause, or it is a drop, or it reports at
    least one affected row.  An upsert or delete whose WHERE clause selects
    no row writes nothing and does not clear the cache. *)
Theorem write_clears_cache cfg X q T r s s' :
  table q = TName T ->
  action q = "upsert" \/ action q = "delete" \/ action q = "drop" ->
  run cfg X q s = (Ok r, s') ->
  is_set (qwhere q) = false \/ action q = "drop" \/ result_rows r <> [] ->
  cache_empty T s'.
Proof.
  intros HT Hact Hrun Hwrote. unfold run, doQuery in Hrun.
  destruct Hact as [Ha|[Ha|Ha]]; rewrite Ha in Hrun; simpl in Hrun.
  - (* upsert *)
    unfold _upsert in Hrun.
    apply bind_ok in Hrun as (pk & s0 & _ & Hrun). rewrite HT in Hrun.
    destruct (is_set (qwhere q)) eqn:Hw.
    + apply bind_ok in Hrun as (rows & s1 & _ & Hrun).
      destruct rows as [|r0 rows].
      * injection Hrun as <- <-.
        destruct Hwrote as [?|[?|?]]; [discriminate|congruence|done].
      * apply bind_ok in Hrun as (newRows & s2 & _ & Hrun).
        apply bind_ok in Hrun as ([] & s3 & Hclear & Hrun).
        eapply keeps_run; [| |exact Hrun].
        { keeps_tac. }
        replace s3 with (snd (cache_clear T s2)) by (by rewrite Hclear).
        apply cache_clear_empties.
    + apply bind_ok in Hrun as ([] & s1 & Hclear & Hrun).
      eapply keeps_run; [| |exact Hrun].
      { keeps_tac. }
      replace s1 with (snd (cache_clear T s0)) by (by rewrite Hclear).
      apply cache_clear_empties.
  - (* delete *)
    unfold _delete in Hrun. rewrite HT in Hrun.
    destruct (is_set (qwhere q)) eqn:Hw.
    + apply bind_ok in Hrun as (rows & s1 & _ & Hrun).
      destruct rows as [|r0 rows].
      * injection Hrun as <- <-.
        destruct Hwrote as [?|[?|?]]; [discriminate|congruence|done].
      * apply bind_ok in Hrun as (pk & s2 & _ & Hrun).
        apply bind_ok in Hrun as ([] & s3 & _ & Hrun).
        apply bind_ok in Hrun as ([] & s4 & Hclear & Hrun).
        eapply keeps_run; [| |exact Hrun].
        { keeps_tac. }
        replace s4 with (snd (cache_clear T s3)) by (by rewrite Hclear).
        apply cache_clear_empties.
    + by eapply drop_clears_cache.
  - (* drop *)
    by eapply drop_clears_cache.
Qed.

(** A direct upsert of [{id: 1}] into [t], whose cache holds a result. *)
Lemma write_clears_cache_witness :
  cache_empty "t" (snd (run (t_config true) X0 (upsert_t (row_id 1)) cached_state)).
Proof.
  destruct (run (t_config true) X0 (upsert_t (row_id 1)) cached_state)
    as [[r|e] s'] eqn:E.
  - simpl.
    apply (write_clears_cache (t_config true) X0 (upsert_t (row_id 1)) "t"
             r cached_state s');
      [reflexivity | left; reflexivity | exact E | left; reflexivity].
  - vm_compute in E. discriminate.
Defined.

(** An upsert on [t] whose WHERE clause selects no row completes and leaves
    the cached result of [t] where it was. *)
Lemma upsert_without_match_keeps_cache :
  cache_of cached_state "t" !! hashQuery X0 (clear_queryID (select_all "t"))
    = Some [row_id 1] /\
  exists r s',
    run (t_config true) X0 upsert_where_7 cached_state = (Ok r, s') /\
    cache_of s' "t" !! hashQuery X0 (clear_queryID (select_all "t"))
      = Some [row_id 1].
Proof.
  split; [vm_compute; reflexivity|].
  eexists. eexists. split; vm_compute; reflexivity.
Qed.

End InvalidationFacts.

(** ** Misuse of the query descriptor *)

Module MisuseFacts.
Import Store Storage Query Search Selection Mutate StorageQuery Checks
  Examples Scenarios.









End MisuseFacts.

(** ** ORM synchronisation *)

Module OrmFacts.
Import Store Storage Query Search Selection Mutate StorageQuery Examples
  Scenarios.

Lemma prim_strict_eq_refl p : prim_strict_eq p p = true.
Proof. unfold prim_strict_eq. by apply bool_decide_eq_true_2. Qed.

Lemma indexOf_from_found l : forall i x,
  x ∈ l -> 0 <= i -> 0 <= indexOf_from i l x.
Proof.
  induction l as [|y l IH]; intros i x Hin Hi; [by inversion Hin|].
  simpl. destruct (prim_strict_eq y x) eqn:E; [exact Hi|].
  apply elem_of_cons in Hin as [->|Hin].
  - by rewrite prim_strict_eq_refl in E.
  - apply IH; [exact Hin | lia].
Qed.

Lemma includes_elem l x : x ∈ l -> includes l x = true.
Proof.
  intros Hin. unfold includes, indexOf.
  pose proof (indexOf_from_found l 0 x Hin (Z.le_refl 0)).
  apply negb_true_iff, Z.eqb_neq. lia.
Qed.




(** The array elements differ and the lengths agree: [equals] answers
    [true], so that the synchronizer takes the rows for equal. *)
Example equals_of_different_arrays :
  equals (VArr [PNum 1; PNum 2]) (VArr [PNum 2; PNum 3]) = true.
Proof. reflexivity. Qed.

(** Tags that grow from one to two are synchronised: the new tag receives
    the post. *)
Example grown_relation_value_is_synchronised :
  table_rows
    (snd (sync_relation orm_config (doQuery_inner orm_config X0) "add"
            "posts" (Some (post_9 [1])) (Some (post_9 [1; 2])) posts_tags
            untagged_state)) "tags"
  = [ {[ "id" := num 1; "posts" := VArr [] ]};
      {[ "id" := num 2; "posts" := VArr [PNum 9] ]} ].
Proof. vm_compute. reflexivity. Qed.





End OrmFacts.

(** * Further properties of the query core *)

(** ** Leaf comparisons ([_compare]) *)

Module CompareFacts.
Import Where Extra.

Lemma strict_eq_str v s : strict_eq v (str s) = true <-> v = str s.
Proof.
  destruct v as [p|l]; simpl; [|split; discriminate].
  unfold prim_strict_eq. rewrite bool_decide_eq_true. unfold str.
  split; congruence.
Qed.

Lemma strict_eq_str_ne v s : v <> str s -> strict_eq v (str s) = false.
Proof.
  intros H. destruct (strict_eq v (str s)) eqn:E; [|reflexivity].
  by apply strict_eq_str in E.
Qed.

Lemma plain_not_sentinel v :
  plain_value v ->
  strict_eq v (str "NULL") || strict_eq v (str "NOT NULL") = false.
Proof.
  intros [H1 H2]. by rewrite (strict_eq_str_ne _ _ H1), (strict_eq_str_ne _ _ H2).
Qed.

Lemma includes_true l x : includes l x = true <-> x ∈ l.
Proof.
  split; [|apply OrmFacts.includes_elem].
  unfold includes, indexOf. generalize 0 at 1.
  induction l as [|y l IH]; intros i; simpl.
  - discriminate.
  - destruct (prim_strict_eq y x) eqn:E.
    + intros _. apply bool_decide_eq_true in E. subst. left.
    + intros H. right. by apply (IH (i + 1)).
Qed.





(** An operator other than "LIKE" and "NOT LIKE" compares the values as
    they are. *)
Ltac plain_op op :=
  repeat match goal with
         | |- context [setValue (str op) ?v] =>
             change (setValue (str op) v) with v
         end.

Section Facts.

Variable js_match : string -> value -> bool.
Variable toNumberStr : string -> option Z.

Local Abbreviation _compare := (_compare js_match toNumberStr).


(** "REGEX" never answers false: it answers true when the column is a text
    that matches, and throws otherwise, also for a column that is not a
    text. *)
Theorem regex_true_or_throws (given column : value) :
  plain_value given ->
  (forall b, _compare given (str "REGEX") column = Ok b -> b = true) /\
  (forall s, column = str s -> js_match s given = false ->
             _compare given (str "REGEX") column = Throw TypeError) /\
  ((forall s, column <> str s) ->
   _compare given (str "REGEX") column = Throw TypeError).
Proof.
  intros Hp. unfold Where._compare.
  rewrite (plain_not_sentinel _ Hp).
  change (setValue (str "REGEX") column) with column.
  change (setValue (str "REGEX") given) with given.
  cbv beta iota delta [str]. repeat split.
  - intros b. destruct column as [[| | | |s]|l]; try discriminate.
    destruct (js_match s given); [|discriminate]. congruence.
  - intros s -> Hm. by rewrite Hm.
  - intros Hns. destruct column as [[| | | |s]|l]; try reflexivity.
    by destruct (Hns s).
Qed.

(** "BETWEEN" on numbers includes both bounds; a given value that is
    [null] or [undefined] throws. *)
Theorem between_is_inclusive (a b x : Z) (column : value) :
  _compare (VArr [PNum a; PNum b]) (str "BETWEEN") (num x)
    = Ok ((a <=? x) && (x <=? b)) /\
  _compare null (str "BETWEEN") column = Throw TypeError /\
  _compare undefined (str "BETWEEN") column = Throw TypeError.
Proof.
  repeat split; try reflexivity.
  unfold Where._compare. simpl. unfold le, ge, js_lt. simpl.
  destruct (Z.ltb_spec x a), (Z.leb_spec a x); try lia; simpl;
    [reflexivity|].
  destruct (Z.ltb_spec b x), (Z.leb_spec x b); try lia; reflexivity.
Qed.

Lemma filter_has_arrays c g :
  filter_has c (VArr g) = Ok (List.filter (includes g) c).
Proof.
  induction c as [|x c IH]; simpl; [reflexivity|].
  rewrite IH. simpl. reflexivity.
Qed.

Lemma filter_nonempty_iff {A} (f : A -> bool) (l : list A) :
  List.filter f l <> [] <-> exists x, x ∈ l /\ f x = true.
Proof.
  induction l as [|a l IH]; simpl.
  - split; [done|]. intros (x & Hx & _). by inversion Hx.
  - destruct (f a) eqn:E.
    + split; [|done]. intros _. exists a. split; [left|done].
    + rewrite IH. split.
      * intros (x & Hx & Hf). exists x. split; [by right|done].
      * intros (x & Hx & Hf). apply elem_of_cons in Hx as [->|Hx];
          [congruence|]. by exists x.
Qed.

(** "INTERSECT" on two arrays answers whether they share an element, so it
    does not matter which of the two is the column; "NOT INTERSECT" is its
    negation, and a column that is absent intersects with nothing. *)
Theorem intersect_shares_element (given column : list prim) (v : value) :
  (exists b,
     _compare (VArr given) (str "INTERSECT") (VArr column) = Ok b /\
     _compare (VArr given) (str "NOT INTERSECT") (VArr column) = Ok (negb b) /\
     _compare (VArr column) (str "INTERSECT") (VArr given) = Ok b /\
     (b = true <-> exists x, x ∈ column /\ x ∈ given)) /\
  (plain_value v ->
   _compare v (str "INTERSECT") undefined = Ok false /\
   _compare v (str "NOT INTERSECT") undefined = Ok true).
Proof.
  split.
  - exists (negb (bool_decide (List.filter (includes given) column = []))).
    unfold Where._compare, or_empty_filter.
    plain_op "INTERSECT". plain_op "NOT INTERSECT".
    cbn -[filter_has List.filter includes].
    rewrite !filter_has_arrays. cbn -[List.filter includes].
    rewrite negb_involutive.
    assert (Hiff : List.filter (includes given) column <> [] <->
                   exists x, x ∈ column /\ x ∈ given).
    { rewrite filter_nonempty_iff. by setoid_rewrite includes_true. }
    assert (Hiff' : List.filter (includes column) given <> [] <->
                    exists x, x ∈ column /\ x ∈ given).
    { rewrite filter_nonempty_iff. setoid_rewrite includes_true.
      split; intros (x & ? & ?); by exists x. }
    repeat split.
    + do 2 f_equal. apply bool_decide_ext. split; intros H.
      * destruct (decide (List.filter (includes given) column = []))
          as [E|E]; [done|]. exfalso. apply Hiff in E. apply Hiff' in E.
        done.
      * destruct (decide (List.filter (includes column) given = []))
          as [E|E]; [done|]. exfalso. apply Hiff' in E. apply Hiff in E.
        done.
    + intros H. apply negb_true_iff, bool_decide_eq_false in H.
      by apply Hiff.
    + intros H. apply negb_true_iff, bool_decide_eq_false. by apply Hiff.
  - intros Hp. unfold Where._compare. rewrite (plain_not_sentinel _ Hp).
    split; reflexivity.
Qed.

End Facts.


Lemma regex_true_or_throws_witness :
  (forall b, Where._compare (fun _ _ => false) (fun _ => None) (str "^a")
               (str "REGEX") (str "b") = Ok b -> b = true) /\
  (forall s, str "b" = str s -> (fun _ _ => false) s (str "^a") = false ->
             Where._compare (fun _ _ => false) (fun _ => None) (str "^a")
               (str "REGEX") (str "b") = Throw TypeError) /\
  ((forall s, str "b" <> str s) ->
   Where._compare (fun _ _ => false) (fun _ => None) (str "^a")
     (str "REGEX") (str "b") = Throw TypeError).
Proof.
  apply (regex_true_or_throws (fun _ _ => false) (fun _ => None)
           (str "^a") (str "b")).
  split; discriminate.
Defined.

End CompareFacts.

(** ** Computations that leave a property of the store alone *)

Module Frame.
Import Store Storage Invariants.

Create HintDb framedb.

#[export] Hint Resolve InvalidationFacts.keeps_ret
  InvalidationFacts.keeps_throw InvalidationFacts.keeps_lift
  InvalidationFacts.keeps_gets : framedb.

(** Take a computation apart along its binds and case distinctions. *)
Ltac frame_step :=
  first
    [ progress intros
    | assumption
    | solve [eauto 3 with framedb]
    | match goal with
      | |- keeps _ (bind _ _) => apply InvalidationFacts.keeps_bind
      | |- keeps _ (mapM _ _) => apply InvalidationFacts.keeps_mapM
      | |- keeps _ (iterM _ _) => apply InvalidationFacts.keeps_iterM
      | |- keeps _ (match ?x with _ => _ end) => destruct x
      | |- keeps _ (if ?b then _ else _) => destruct b
      | |- keeps _ (let _ := _ in _) => cbv zeta
      end ].

Ltac frame_tac := repeat frame_step.

End Frame.

(** ** Windows of a list by position *)

Module WindowFacts.
Import Store Storage.

(** The elements whose position lies between [lo] and [hi], both
    included, positions counted from [k]. *)
Lemma window_from {A} (lo hi : Z) (l : list A) : forall k,
  map snd (List.filter (fun ia => (lo <=? fst ia) && (fst ia <=? hi))
             (with_index k l))
  = take (Z.to_nat (hi + 1 - k) - Z.to_nat (lo - k))
      (drop (Z.to_nat (lo - k)) l).
Proof.
  induction l as [|a l IH]; intros k.
  - simpl. by rewrite drop_nil, take_nil.
  - cbn [with_index List.filter fst].
    destruct (Z.leb_spec lo k) as [Hlo|Hlo];
      destruct (Z.leb_spec k hi) as [Hhi|Hhi]; cbn [andb map snd];
      rewrite IH.
    + replace (Z.to_nat (lo - k)) with 0%nat by lia.
      replace (Z.to_nat (lo - (k + 1))) with 0%nat by lia.
      replace (Z.to_nat (hi + 1 - k) - 0)%nat
        with (S (Z.to_nat (hi + 1 - (k + 1)))) by lia.
      cbn [drop take]. f_equal. f_equal. lia.
    + replace (Z.to_nat (lo - k)) with 0%nat by lia.
      replace (Z.to_nat (lo - (k + 1))) with 0%nat by lia.
      replace (Z.to_nat (hi + 1 - k) - 0)%nat with 0%nat by lia.
      replace (Z.to_nat (hi + 1 - (k + 1)) - 0)%nat with 0%nat by lia.
      reflexivity.
    + replace (Z.to_nat (lo - k)) with (S (Z.to_nat (lo - (k + 1)))) by lia.
      cbn [drop]. f_equal. lia.
    + replace (Z.to_nat (lo - k)) with (S (Z.to_nat (lo - (k + 1)))) by lia.
      cbn [drop]. f_equal. lia.
Qed.

Lemma window {A} (lo hi : Z) (l : list A) :
  map snd (List.filter (fun ia => (lo <=? fst ia) && (fst ia <=? hi))
             (with_index 0 l))
  = take (Z.to_nat (hi + 1) - Z.to_nat lo) (drop (Z.to_nat lo) l).
Proof. rewrite window_from. by rewrite !Z.sub_0_r. Qed.

(** The same with the upper position left out. *)
Lemma window_open {A} (lo hi : Z) (l : list A) :
  map snd (List.filter (fun ia => (lo <=? fst ia) && (fst ia <? hi))
             (with_index 0 l))
  = take (Z.to_nat hi - Z.to_nat lo) (drop (Z.to_nat lo) l).
Proof.
  transitivity (map snd (List.filter
      (fun ia => (lo <=? fst ia) && (fst ia <=? hi - 1)) (with_index 0 l))).
  - f_equal. apply filter_ext. intros [i a]. simpl. f_equal. lia.
  - rewrite window. by replace (hi - 1 + 1) with hi by lia.
Qed.


End WindowFacts.

(** ** Queries on an instance table ([InstanceSelection]) *)

Module InstanceTableFacts.
Import Store Storage Query Search Selection Mutate StorageQuery Invariants
  Frame.

Lemma select_flagged_window {A} (f : Z * A -> bool) (l : list A) : forall k,
  select_flagged l (map f (with_index k l))
  = map snd (List.filter f (with_index k l)).
Proof.
  unfold select_flagged. induction l as [|a l IH]; intros k; [done|].
  cbn [with_index map zip zip_with List.filter snd].
  destruct (f (k, a)); cbn [map fst snd]; by rewrite IH.
Qed.





Section Facts.

Variable cfg : config.
Variable X : externals.

(** A range select on an instance table.  [range = [limit, offset]] with a
    positive [limit] yields the [limit] rows from position [offset] on; with
    a negative [limit] the [-limit] rows that end [offset] rows before the
    end of the table; a [where] given beside the range plays no part.  With
    [limit = 0] the count-down [while (cnt--)] starts at [-1] and never
    reaches [0]. *)
Theorem instance_range_is_window (rows : list row) (q : query)
  (limit offset : Z) :
  join q = None -> orm q = None -> trie q = None ->
  range q = Some (limit, offset) ->
  (0 < limit -> 0 <= offset ->
   instance_getRows X rows q
   = Ok (take (Z.to_nat limit) (drop (Z.to_nat offset) rows))) /\
  (limit < 0 -> 0 <= offset -> offset - limit <= Z.of_nat (length rows) ->
   instance_getRows X rows q
   = Ok (take (Z.to_nat (- limit))
           (drop (length rows - Z.to_nat (offset - limit)) rows))) /\
  (limit = 0 -> instance_getRows X rows q = Throw Diverges).
Proof.
  intros Hj Ho Ht Hr. unfold instance_getRows, instance_flags.
  rewrite Hj, Ho, Ht, Hr. cbn [is_set orb fst snd]. cbv zeta.
  split; [|split].
  - intros Hl Hoff.
    destruct (Z.ltb_spec limit 0); [lia|].
    destruct (Z.ltb_spec (Z.abs limit - 1) 0); [lia|].
    cbn [rbind]. f_equal.
    rewrite (select_flagged_window
               (fun ir => (offset <=? fst ir)
                          && (fst ir <=? offset + (Z.abs limit - 1)))).
    rewrite WindowFacts.window. f_equal. lia.
  - intros Hl Hoff Hlen.
    destruct (Z.ltb_spec limit 0); [|lia].
    destruct (Z.ltb_spec (Z.abs limit - 1) 0); [lia|].
    cbn [rbind]. f_equal.
    rewrite (select_flagged_window
               (fun ir => (Z.of_nat (length rows) + limit - offset <=? fst ir)
                          && (fst ir <=? Z.of_nat (length rows) + limit
                                         - offset + (Z.abs limit - 1)))).
    rewrite WindowFacts.window. f_equal; [lia|]. f_equal. lia.
  - intros ->. reflexivity.
Qed.


Lemma instance_ok_plain rows q sel :
  instance_getRows X rows q = Ok sel -> join q = None /\ orm q = None.
Proof.
  unfold instance_getRows, instance_flags.
  destruct (join q); [discriminate|]. destruct (orm q); [discriminate|].
  done.
Qed.

(** A query on an instance table, whatever its action and whatever its
    outcome, leaves the store as it was: no row, index or cache entry is
    written and no adapter call is made. *)
Theorem instance_query_leaves_store nested (rows : list row) (q : query)
  (s : state) :
  table q = TInstance rows ->
  snd (doQuery cfg X nested q s) = s.
Proof.
  intros Ht. symmetry.
  assert (Hpk : forall k, keeps (eq s) (pk_of cfg k)).
  { intros k. unfold pk_of, info_of. frame_tac. }
  assert (Hsel : keeps (eq s) (_select cfg X nested q)).
  { unfold _select, canCache, isInstanceTable, _getRows. rewrite Ht.
    rewrite andb_false_r.
    apply InvalidationFacts.keeps_bind; [frame_tac|]. intros _.
    intros s0 <-. unfold bind at 1. unfold lift at 1.
    destruct (instance_getRows X rows q) as [sel|] eqn:E; [|reflexivity].
    destruct (instance_ok_plain _ _ _ E) as [Hj Ho].
    assert (keeps (eq s) (_executeQueryArguments cfg X q sel)) as Hex.
    { unfold _executeQueryArguments. rewrite Hj, Ho. cbn [is_set].
      frame_tac. }
    destruct (negb (has_arguments q)); [reflexivity|].
    unfold bind at 1. specialize (Hex s eq_refl).
    destruct (_executeQueryArguments cfg X q sel s) as [[st|e] s2];
      simpl in Hex; subst s2; reflexivity. }
  cut (keeps (eq s) (doQuery cfg X nested q)); [intros H; exact (H s eq_refl)|].
  unfold doQuery.
  repeat match goal with
         | |- keeps _ (if bool_decide ?P then _ else _) =>
             destruct (bool_decide P)
         end; try exact Hsel.
  - unfold _upsert. rewrite Ht. frame_tac.
  - unfold _delete. rewrite Ht. frame_tac.
  - unfold _drop. rewrite Ht. frame_tac.
  - frame_tac.
  - rewrite Ht. frame_tac.
  - frame_tac.
Qed.

End Facts.

Lemma instance_range_is_window_witness :
  let q := Examples.with_range
             (Examples.on_table (Examples.select_all "t")
                (TInstance Scenarios.three_rows)) (2, 1) in
  (0 < 2 -> 0 <= 1 ->
   instance_getRows Examples.X0 Scenarios.three_rows q
   = Ok (take (Z.to_nat 2) (drop (Z.to_nat 1) Scenarios.three_rows))) /\
  (2 < 0 -> 0 <= 1 -> 1 - 2 <= Z.of_nat (length Scenarios.three_rows) ->
   instance_getRows Examples.X0 Scenarios.three_rows q
   = Ok (take (Z.to_nat (- 2))
           (drop (length Scenarios.three_rows - Z.to_nat (1 - 2))
              Scenarios.three_rows))) /\
  (2 = 0 ->
   instance_getRows Examples.X0 Scenarios.three_rows q = Throw Diverges).
Proof.
  intros q.
  apply (instance_range_is_window Examples.X0 Scenarios.three_rows q 2 1);
    reflexivity.
Defined.


Lemma instance_query_leaves_store_witness :
  snd (doQuery (Scenarios.t_config true) Examples.X0
         (doQuery_inner (Scenarios.t_config true) Examples.X0)
         Scenarios.rename_1_to_b (Examples.state_with "t" []))
  = Examples.state_with "t" [].
Proof.
  apply (instance_query_leaves_store (Scenarios.t_config true) Examples.X0
           _ [Examples.row_named 1 "a"]).
  reflexivity.
Defined.

End InstanceTableFacts.

(** ** Mutating a selection ([_MutateSelection]) *)

Module MutateFacts.
Import Store Storage Query Search JSObj Selection Mutate StorageQuery
  Invariants Frame Extra.

Lemma filter_idx_take {A} (n : Z) (l : list A) : forall k,
  map snd (List.filter (fun ia : nat * A => Z.of_nat (fst ia) <? n)
             (imap (fun i a => ((k + i)%nat, a)) l))
  = take (Z.to_nat n - k) l.
Proof.
  induction l as [|a l IH]; intros k.
  - by rewrite take_nil.
  - rewrite imap_cons. cbn [List.filter fst].
    rewrite (imap_ext _ (fun i a => ((S k + i)%nat, a)) l)
      by (intros; simpl; f_equal; lia).
    replace (k + 0)%nat with k by lia.
    destruct (Z.ltb_spec (Z.of_nat k) n) as [H|H]; cbn [map snd]; rewrite IH.
    + replace (Z.to_nat n - k)%nat with (S (Z.to_nat n - S k)) by lia.
      reflexivity.
    + replace (Z.to_nat n - k)%nat with 0%nat by lia.
      replace (Z.to_nat n - S k)%nat with 0%nat by lia. reflexivity.
Qed.

Lemma filter_idx_drop {A} (n : Z) (l : list A) : forall k,
  map snd (List.filter (fun ia : nat * A => n <=? Z.of_nat (fst ia))
             (imap (fun i a => ((k + i)%nat, a)) l))
  = drop (Z.to_nat n - k) l.
Proof.
  induction l as [|a l IH]; intros k.
  - by rewrite drop_nil.
  - rewrite imap_cons. cbn [List.filter fst].
    rewrite (imap_ext _ (fun i a => ((S k + i)%nat, a)) l)
      by (intros; simpl; f_equal; lia).
    replace (k + 0)%nat with k by lia.
    destruct (Z.leb_spec n (Z.of_nat k)) as [H|H]; cbn [map snd]; rewrite IH.
    + replace (Z.to_nat n - k)%nat with 0%nat by lia.
      replace (Z.to_nat n - S k)%nat with 0%nat by lia. reflexivity.
    + replace (Z.to_nat n - k)%nat with (S (Z.to_nat n - S k)) by lia.
      reflexivity.
Qed.

Lemma limit_is_take n (rows : list row) : _limit n rows = take (Z.to_nat n) rows.
Proof.
  unfold _limit, filter_idx. rewrite <- (Nat.sub_0_r (Z.to_nat n)).
  exact (filter_idx_take n rows 0).
Qed.

Lemma offset_is_drop n (rows : list row) :
  _offset n rows = drop (Z.to_nat n) rows.
Proof.
  unfold _offset, filter_idx. rewrite <- (Nat.sub_0_r (Z.to_nat n)).
  exact (filter_idx_drop n rows 0).
Qed.

(** *** Sorting with a comparator *)

Lemma insert_by_perm {A} (cmp : A -> A -> Z) x l :
  insert_by cmp x l ≡ₚ x :: l.
Proof.
  induction l as [|y l IH]; simpl; [done|].
  destruct (0 <? cmp y x); [done|]. rewrite IH. apply perm_swap.
Qed.

Lemma sort_fold_perm {A} (cmp : A -> A -> Z) l : forall acc,
  fold_left (fun acc x => insert_by cmp x acc) l acc ≡ₚ (acc ++ l)%list.
Proof.
  induction l as [|x l IH]; intros acc; simpl.
  - by rewrite app_nil_r.
  - rewrite IH, insert_by_perm. by rewrite <- Permutation_middle.
Qed.

Lemma sort_by_perm {A} (cmp : A -> A -> Z) l : sort_by cmp l ≡ₚ l.
Proof. unfold sort_by. by rewrite sort_fold_perm. Qed.

Section Sorting.

Context {A : Type}.
Variable cmp : A -> A -> Z.
Variable P : A -> Prop.
Hypothesis cmp_total : forall a b, P a -> P b -> 0 < cmp a b -> cmp b a <= 0.
Hypothesis cmp_trans : forall a b c, P a -> P b -> P c ->
  cmp a b <= 0 -> cmp b c <= 0 -> cmp a c <= 0.

Lemma insert_by_sorted x l :
  P x -> Forall P l ->
  StronglySorted (fun a b => cmp a b <= 0) l ->
  StronglySorted (fun a b => cmp a b <= 0) (insert_by cmp x l).
Proof.
  intros Hx Hl Hs. induction l as [|y l IH]; simpl.
  - repeat constructor.
  - apply Forall_cons in Hl as [Hy Hl].
    apply StronglySorted_inv in Hs as [Hs Hys].
    destruct (Z.ltb_spec 0 (cmp y x)) as [Hlt|Hge].
    + assert (cmp x y <= 0) as Hxy by (by apply cmp_total).
      constructor; [by constructor|]. constructor; [exact Hxy|].
      rewrite Forall_forall in Hys, Hl. apply Forall_forall. intros z Hz.
      apply (cmp_trans x y z); auto.
    + constructor; [by apply IH|].
      rewrite (insert_by_perm cmp x l). by constructor.
Qed.

Lemma sort_by_sorted l :
  Forall P l -> StronglySorted (fun a b => cmp a b <= 0) (sort_by cmp l).
Proof.
  unfold sort_by.
  cut (forall acc, Forall P acc ->
         StronglySorted (fun a b => cmp a b <= 0) acc -> Forall P l ->
         StronglySorted (fun a b => cmp a b <= 0)
           (fold_left (fun acc x => insert_by cmp x acc) l acc)).
  { intros H Hl. apply H; [constructor | constructor | exact Hl]. }
  induction l as [|x l IH]; intros acc Hacc Hs Hl; simpl; [exact Hs|].
  apply Forall_cons in Hl as [Hx Hl]. apply IH; [| |exact Hl].
  - rewrite (insert_by_perm cmp x acc). by constructor.
  - by apply insert_by_sorted.
Qed.

End Sorting.

Section Facts.

Variable cfg : config.
Variable X : externals.

(** The comparison of one column, and the comparator as the first
    comparison that is not a tie. *)
Lemma sortObj_fold (f : Z -> string * string -> Z) columns :
  (forall p c, p <> 0 -> f p c = p) ->
  forall p, p <> 0 -> fold_left f columns p = p.
Proof.
  intros Hf. induction columns as [|c cs IH]; intros p Hp; simpl; [done|].
  rewrite Hf by done. by apply IH.
Qed.

Lemma sortObj_cons c cs (a b : row) :
  _sortObj X (c :: cs) false a b =
  (if _sortObj X [c] false a b =? 0 then _sortObj X cs false a b
   else _sortObj X [c] false a b).
Proof.
  unfold _sortObj. cbn [fold_left]. rewrite Z.eqb_refl.
  match goal with
  | |- fold_left ?f cs ?p = _ =>
      destruct (Z.eqb_spec p 0) as [->|Hp]; [reflexivity|];
      apply (sortObj_fold f cs); [|exact Hp]
  end.
  intros p c' Hp'. by destruct (Z.eqb_spec p 0).
Qed.

Lemma sortObj_num c dir (a b : row) m n :
  get a c = num m -> get b c = num n ->
  _sortObj X [(c, dir)] false a b =
  (if m =? n then 0
   else (if n <? m then 1 else -1) *
        (if bool_decide (dir = "desc") then -1 else 1)).
Proof.
  intros Ha Hb. unfold _sortObj. cbn [fold_left fst snd]. rewrite Ha, Hb.
  rewrite Z.eqb_refl. unfold strict_eq, num, prim_strict_eq.
  destruct (Z.eqb_spec m n) as [->|Hne].
  - by rewrite bool_decide_eq_true_2.
  - rewrite bool_decide_eq_false_2 by congruence.
    unfold Where.gt, Where.js_lt. cbn.
    destruct (Z.ltb_spec n m).
    + by rewrite bool_decide_eq_true_2.
    + by rewrite bool_decide_eq_false_2.
Qed.

Lemma sortObj_num_cases c dir (a b : row) m n :
  get a c = num m -> get b c = num n ->
  let k := if bool_decide (dir = "desc") then n - m else m - n in
  (k < 0 /\ _sortObj X [(c, dir)] false a b = -1) \/
  (k = 0 /\ _sortObj X [(c, dir)] false a b = 0) \/
  (0 < k /\ _sortObj X [(c, dir)] false a b = 1).
Proof.
  intros Ha Hb. rewrite (sortObj_num c dir a b m n Ha Hb).
  destruct (bool_decide (dir = "desc")), (Z.eqb_spec m n), (Z.ltb_spec n m);
    cbv zeta; lia.
Qed.

Ltac tie_step :=
  change (-1 =? 0) with false; change (1 =? 0) with false;
  change (0 =? 0) with true; cbv iota.

Lemma sortObj_total columns (a b : row) :
  numeric_in columns a -> numeric_in columns b ->
  0 < _sortObj X columns false a b -> _sortObj X columns false b a <= 0.
Proof.
  unfold numeric_in.
  induction columns as [|[c dir] cs IH]; intros Ha Hb;
    [unfold _sortObj; simpl; lia|].
  apply Forall_cons in Ha as [[m Hm] Ha]. apply Forall_cons in Hb as [[n Hn] Hb].
  simpl in Hm, Hn. specialize (IH Ha Hb).
  rewrite (sortObj_cons (c, dir) cs a b), (sortObj_cons (c, dir) cs b a).
  revert IH. generalize (_sortObj X cs false a b) (_sortObj X cs false b a).
  intros x y IH.
  destruct (sortObj_num_cases c dir a b m n Hm Hn)
    as [[H1 ->]|[[H1 ->]|[H1 ->]]];
    destruct (sortObj_num_cases c dir b a n m Hn Hm)
      as [[H2 ->]|[[H2 ->]|[H2 ->]]];
    tie_step; destruct (bool_decide (dir = "desc")); lia.
Qed.

Lemma sortObj_trans columns (a b d : row) :
  numeric_in columns a -> numeric_in columns b -> numeric_in columns d ->
  _sortObj X columns false a b <= 0 -> _sortObj X columns false b d <= 0 ->
  _sortObj X columns false a d <= 0.
Proof.
  unfold numeric_in.
  induction columns as [|[c dir] cs IH]; intros Ha Hb Hd;
    [unfold _sortObj; simpl; lia|].
  apply Forall_cons in Ha as [[m Hm] Ha]. apply Forall_cons in Hb as [[n Hn] Hb].
  apply Forall_cons in Hd as [[k Hk] Hd].
  simpl in Hm, Hn, Hk. specialize (IH Ha Hb Hd).
  rewrite (sortObj_cons (c, dir) cs a b), (sortObj_cons (c, dir) cs b d),
    (sortObj_cons (c, dir) cs a d).
  revert IH.
  generalize (_sortObj X cs false a b) (_sortObj X cs false b d)
    (_sortObj X cs false a d).
  intros x y z IH.
  destruct (sortObj_num_cases c dir a b m n Hm Hn)
    as [[H1 ->]|[[H1 ->]|[H1 ->]]];
    destruct (sortObj_num_cases c dir b d n k Hn Hk)
      as [[H2 ->]|[[H2 ->]|[H2 ->]]];
    destruct (sortObj_num_cases c dir a d m k Hm Hk)
      as [[H3 ->]|[[H3 ->]|[H3 ->]]];
    tie_step; destruct (bool_decide (dir = "desc")); lia.
Qed.

(** [orderBy] keeps every row, each as often as it came in.  Over rows
    that hold numbers in the columns named, the rows come out in the order
    of the comparator: no row is followed by one that the comparator puts
    before it; with several columns a later column decides only between
    rows that tie on the earlier ones.  For one column that is the order of
    the numbers, from the largest down when the direction is "desc" and
    from the smallest up for any other direction. *)
Theorem orderBy_sorts (columns : list (string * string)) (rows : list row) :
  _orderBy X columns rows ≡ₚ rows /\
  (Forall (numeric_in columns) rows ->
   StronglySorted (fun a b => _sortObj X columns false a b <= 0)
     (_orderBy X columns rows)) /\
  (forall c cs a b,
     columns = c :: cs ->
     _sortObj X columns false a b =
     (if _sortObj X [c] false a b =? 0 then _sortObj X cs false a b
      else _sortObj X [c] false a b)) /\
  (forall c dir a b,
     numeric_in [(c, dir)] a -> numeric_in [(c, dir)] b ->
     (_sortObj X [(c, dir)] false a b <= 0 <->
      if bool_decide (dir = "desc") then col_num b c <= col_num a c
      else col_num a c <= col_num b c)).
Proof.
  split; [apply sort_by_perm|]. split; [|split].
  - intros Hnum. unfold _orderBy.
    apply (sort_by_sorted _ (numeric_in columns)); [| |exact Hnum].
    + intros a b. apply sortObj_total.
    + intros a b d. apply sortObj_trans.
  - intros c cs a b ->. apply sortObj_cons.
  - intros c dir a b Ha Hb.
    apply Forall_cons in Ha as [[m Hm] _]. apply Forall_cons in Hb as [[n Hn] _].
    simpl in Hm, Hn.
    rewrite (sortObj_num c dir a b m n) by done.
    unfold col_num. rewrite Hm, Hn. unfold num.
    destruct (Z.eqb_spec m n), (Z.ltb_spec n m),
      (bool_decide (dir = "desc")); simpl; lia.
Qed.

(** *** Projection and functions *)

Lemma obj_get_set_eq {A} (o : jsobj A) k a : obj_get (obj_set o k a) k = Some a.
Proof.
  unfold obj_get. induction o as [|[k' a'] o IH]; simpl.
  - by rewrite bool_decide_eq_true_2.
  - destruct (bool_decide (k' = k)) eqn:E; simpl.
    + by rewrite bool_decide_eq_true_2.
    + by rewrite E.
Qed.

Lemma obj_get_set_ne {A} (o : jsobj A) k k' a :
  k <> k' -> obj_get (obj_set o k a) k' = obj_get o k'.
Proof.
  intros Hne. unfold obj_get. induction o as [|[k0 a0] o IH]; simpl.
  - by rewrite bool_decide_eq_false_2.
  - destruct (bool_decide (k0 = k)) eqn:E; simpl.
    + apply bool_decide_eq_true in E as ->.
      by rewrite !bool_decide_eq_false_2.
    + destruct (bool_decide (k0 = k')); [done|]. exact IH.
Qed.

Lemma obj_get_delete_ne {A} (o : jsobj A) k k' :
  k <> k' -> obj_get (obj_delete o k) k' = obj_get o k'.
Proof.
  intros Hne. unfold obj_get, obj_delete.
  induction o as [|[k0 a0] o IH]; simpl; [done|].
  destruct (bool_decide (k0 = k)) eqn:E; simpl.
  - apply bool_decide_eq_true in E as ->.
    by rewrite bool_decide_eq_false_2.
  - destruct (bool_decide (k0 = k')); [done|]. exact IH.
Qed.

Lemma obj_get_exists {A} (o : jsobj A) k a (p : A -> bool) :
  obj_get o k = Some a -> p a = true -> existsb (fun e => p (snd e)) o = true.
Proof.
  unfold obj_get. induction o as [|[k0 a0] o IH]; simpl; [done|].
  destruct (bool_decide (k0 = k)); simpl.
  - intros [= ->] ->. done.
  - intros H1 H2. rewrite (IH H1 H2). apply orb_true_r.
Qed.

Lemma mapM_idx_total {A B} (f : A -> nat -> res B) (g : A -> B) l :
  (forall a i, a ∈ l -> f a i = Ok (g a)) ->
  forall i, mapM_idx f i l = Ok (map g l).
Proof.
  induction l as [|a l IH]; intros Hf i; simpl; [done|].
  rewrite Hf by apply list_elem_of_here. simpl.
  rewrite IH; [done|]. intros a' i' Hin. apply Hf. by apply elem_of_cons; right.
Qed.

Lemma mapM_idx_length {A B} (f : A -> nat -> res B) l : forall i out,
  mapM_idx f i l = Ok out -> length out = length l.
Proof.
  induction l as [|a l IH]; intros i out; simpl.
  - by intros [= <-].
  - destruct (f a i); [|discriminate]. simpl.
    destruct (mapM_idx f (S i) l) eqn:E; [|discriminate].
    intros [= <-]. simpl. f_equal. by eapply IH.
Qed.

Lemma columnData_plain cols :
  Forall (fun c => has_paren c = false) cols -> columnData_of cfg cols = Ok [].
Proof.
  induction 1 as [|c cols Hc _ IH]; simpl; [done|]. by rewrite Hc.
Qed.

Lemma columnData_holds cols : forall c fn cd,
  c ∈ cols -> has_paren c = true -> functions cfg !! fnName_of c = Some fn ->
  columnData_of cfg cols = Ok cd ->
  obj_get cd c = Some (fn, fnKey_of c).
Proof.
  induction cols as [|c' cols IH]; intros c fn cd Hin Hp Hf Hcd;
    [by inversion Hin|].
  simpl in Hcd. destruct (decide (c' = c)) as [->|Hne].
  - rewrite Hp, Hf in Hcd. simpl in Hcd.
    destruct (columnData_of cfg cols); [|discriminate].
    injection Hcd as <-. apply obj_get_set_eq.
  - apply elem_of_cons in Hin as [->|Hin]; [done|].
    destruct (has_paren c'); simpl in Hcd; [|by eapply IH].
    destruct (functions cfg !! fnName_of c'); [|discriminate].
    destruct (columnData_of cfg cols) as [cd'|] eqn:E; [|discriminate].
    injection Hcd as <-.
    rewrite obj_get_set_ne, obj_get_delete_ne by done. by eapply IH.
Qed.

Lemma project_fold (theRow : row) (j : bool) cols : forall (acc : row) c,
  fold_left (fun acc c => <[c := objQuery X c theRow j]> acc) cols acc !! c
  = if bool_decide (c ∈ cols) then Some (objQuery X c theRow j) else acc !! c.
Proof.
  induction cols as [|c' cols IH]; intros acc c; simpl; [done|].
  rewrite IH. destruct (decide (c ∈ cols)) as [Hin|Hout].
  - rewrite !bool_decide_eq_true_2; [done| |done]. by apply elem_of_cons; right.
  - rewrite (bool_decide_eq_false_2 (c ∈ cols)) by done.
    destruct (decide (c = c')) as [->|Hne].
    + rewrite lookup_insert_eq. rewrite bool_decide_eq_true_2; [done|].
      apply list_elem_of_here.
    + rewrite lookup_insert_ne by done. rewrite bool_decide_eq_false_2; [done|].
      intros [->|?]%elem_of_cons; done.
Qed.

Lemma doMuateRows_plain q cols cd (theRow : row) idx fr :
  Forall (fun c => has_paren c = false /\ str_contains c " AS " = false)
    cols ->
  doMuateRows X q cols cd theRow idx fr =
  Ok (fold_left (fun acc c => <[c := objQuery X c theRow (is_set (join q))]> acc)
        cols ∅).
Proof.
  unfold doMuateRows. generalize (∅ : row).
  induction cols as [|c cols IH]; intros acc Hc; simpl; [done|].
  apply Forall_cons in Hc as [[Hp Ha] Hc]. rewrite Hp, Ha.
  cbn [rbind]. by apply IH.
Qed.

(** A selection of plain columns, none of them a function call or an
    alias: every row comes back, in order, cut down to the selected
    columns.  A selected column holds what the row has under that path and
    is there even when the row has nothing under it; no other column is
    left. *)
Theorem plain_selection_projects (q : query) (cols : list string)
  (sortGroups : option (jsobj (list nat))) (rows : list row) :
  Forall (fun c => has_paren c = false /\ str_contains c " AS " = false)
    cols ->
  exists out,
    _mutateRows cfg X q cols sortGroups rows = Ok out /\
    length out = length rows /\
    forall i r, rows !! i = Some r ->
      exists r', out !! i = Some r' /\
        (forall c, c ∈ cols ->
           r' !! c = Some (objQuery X c r (is_set (join q)))) /\
        (forall c, c ∉ cols -> r' !! c = None).
Proof.
  intros Hc.
  exists (map (fun r =>
                 fold_left (fun acc c =>
                              <[c := objQuery X c r (is_set (join q))]> acc)
                   cols ∅) rows).
  split; [|split].
  - unfold _mutateRows. rewrite columnData_plain
      by (eapply Forall_impl; [exact Hc|]; by intros c [? _]).
    cbn [rbind existsb]. rewrite andb_false_r.
    destruct sortGroups; apply mapM_idx_total; intros r i _;
      by apply doMuateRows_plain.
  - by rewrite length_map.
  - intros i r Hr. eexists. split.
    + rewrite list_lookup_fmap, Hr. reflexivity.
    + split; intros c Hin; rewrite project_fold.
      * by rewrite bool_decide_eq_true_2.
      * by rewrite bool_decide_eq_false_2.
Qed.

(** A selection that calls an aggregate function, with no grouping in
    force: when it completes it gives one row, whether the rows selected
    are many or none. *)
Theorem aggregate_gives_one_row (q : query) (cols : list string)
  (rows out : list row) (c : string) call :
  c ∈ cols -> has_paren c = true ->
  functions cfg !! fnName_of c = Some (FnA call) ->
  _mutateRows cfg X q cols None rows = Ok out ->
  length out = 1%nat.
Proof.
  intros Hin Hp Hf. unfold _mutateRows.
  destruct (columnData_of cfg cols) as [cd|] eqn:Hcd; [|discriminate].
  cbn [rbind]. cbv zeta.
  rewrite (obj_get_exists cd c (FnA call, fnKey_of c)
             (fun e => is_aggregate (fst e)))
    by (try done; by eapply columnData_holds).
  rewrite andb_true_r. destruct rows as [|r rows].
  - rewrite bool_decide_eq_true_2 by done. by intros [= <-].
  - rewrite bool_decide_eq_false_2 by done.
    intros H. by apply mapM_idx_length in H.
Qed.

(** A select that sets [offset] and [limit] and nothing else to mutate
    its rows: the first [offset] rows are dropped, then at most [limit]
    rows are kept.  A [limit] of [0] is no limit, and neither an offset
    nor a limit below [0] is an error: the one drops nothing, the other
    keeps nothing.  The store is not touched. *)
Theorem offset_then_limit (q : query) (rows : list row) (s : state) :
  join q = None -> groupBy q = None -> orm q = None ->
  actionArgs q = None -> having q = None -> orderBy q = None ->
  exists st,
    _executeQueryArguments cfg X q rows s = (Ok st, s) /\
    orig st = rows /\
    cur st =
      let dropped := drop (Z.to_nat (default 0 (offset q))) rows in
      if default 0 (limit q) =? 0 then dropped
      else take (Z.to_nat (default 0 (limit q))) dropped.
Proof.
  intros Hj Hg Ho Ha Hh Hb. unfold _executeQueryArguments.
  rewrite Hj, Hg, Ho, Ha, Hh, Hb. cbn [is_set].
  eexists. split; [reflexivity|]. cbv zeta.
  unfold num_set.
  destruct (offset q) as [o|], (limit q) as [l|]; cbn [default];
    repeat match goal with
           | |- context [negb (?n =? 0)] =>
               destruct (Z.eqb_spec n 0); cbn [negb]
           end;
    cbn [fresh cur orig]; subst;
    rewrite ?limit_is_take, ?offset_is_drop; unfold id; cbn [Z.to_nat drop];
    repeat match goal with
           | |- context [?n =? 0] => destruct (Z.eqb_spec n 0); [lia|]
           end; auto.
Qed.

End Facts.

Lemma plain_selection_projects_witness :
  exists out,
    _mutateRows count_config Examples.X0 (Examples.select_all "t") ["name"]
      None [Examples.row_named 1 "a"] = Ok out /\
    length out = length [Examples.row_named 1 "a"] /\
    forall i r, [Examples.row_named 1 "a"] !! i = Some r ->
      exists r', out !! i = Some r' /\
        (forall c, c ∈ ["name"] ->
           r' !! c = Some (objQuery Examples.X0 c r
                             (is_set (join (Examples.select_all "t"))))) /\
        (forall c, c ∉ ["name"] -> r' !! c = None).
Proof.
  apply (plain_selection_projects count_config Examples.X0
           (Examples.select_all "t") ["name"] None [Examples.row_named 1 "a"]).
  repeat constructor.
Defined.

Lemma aggregate_gives_one_row_witness :
  exists out,
    _mutateRows count_config Examples.X0 (Examples.select_all "t")
      ["COUNT(*)"] None Scenarios.three_rows = Ok out /\
    length out = 1%nat.
Proof.
  eexists. split; [vm_compute; reflexivity|].
  apply (aggregate_gives_one_row count_config Examples.X0
           (Examples.select_all "t") ["COUNT(*)"] Scenarios.three_rows _
           "COUNT(*)" (fun rows _ => num (Z.of_nat (length rows))));
    [apply list_elem_of_here | reflexivity | vm_compute; reflexivity
    | vm_compute; reflexivity].
Defined.

Lemma offset_then_limit_witness :
  let q := Examples.with_limit (Examples.select_all "t") 2 in
  exists st,
    _executeQueryArguments (Scenarios.t_config true) Examples.X0 q
      Scenarios.three_rows (Examples.state_with "t" [])
    = (Ok st, Examples.state_with "t" []) /\
    orig st = Scenarios.three_rows /\
    cur st =
      let dropped := drop (Z.to_nat (default 0 (offset q)))
                       Scenarios.three_rows in
      if default 0 (limit q) =? 0 then dropped
      else take (Z.to_nat (default 0 (limit q))) dropped.
Proof.
  intros q.
  apply (offset_then_limit (Scenarios.t_config true) Examples.X0 q
           Scenarios.three_rows); reflexivity.
Defined.

End MutateFacts.

(** ** Selecting rows ([_RowSelection]) *)

Module SelectionFacts.
Import Store Storage Query Search JSObj Selection Mutate StorageQuery
  Invariants Frame Extra.

Lemma rangeRead_idx_rows cfg table info from to s :
  tableInfo cfg !! table = Some info ->
  fst (_rangeRead_idx cfg table from to s)
  = Ok (take (Z.to_nat (if rangeInclusive cfg then to + 1 else to)
              - Z.to_nat from)
          (drop (Z.to_nat from) (table_rows s table))).
Proof.
  intros Hi. unfold _rangeRead_idx, pk_of. rewrite Hi.
  unfold bind, ret, emit, modify, gets. cbn [fst snd]. f_equal.
  change (table_rows _ table) with (table_rows s table).
  destruct (rangeInclusive cfg).
  - rewrite <- WindowFacts.window. f_equal. apply filter_ext. by intros [i a].
  - rewrite <- WindowFacts.window_open. f_equal. apply filter_ext.
    by intros [i a].
Qed.

Section Facts.

Variable cfg : config.
Variable X : externals.
Variable nested : query -> M queryResult.

(** A range select on a stored table, [range = [limit, offset]].  With a
    positive [limit] the adapter is asked for the positions [offset] to
    [offset + limit]; with a negative one for the [-limit] positions that
    end [offset] rows before the end of the table, the last of them named
    as the upper end.  An adapter that takes the upper end in gives one row
    more than [limit] in the first case; an adapter that leaves it out gives
    one row less than [-limit] in the second.  With [limit = 0] the count
    of the second case starts below zero and the loop does not end. *)
Theorem range_select_window (table : string) (info : tableInfoT)
  (limit offset : Z) (s : state) :
  tableInfo cfg !! table = Some info ->
  let rows := table_rows s table in
  let extra := if rangeInclusive cfg then 1%nat else 0%nat in
  (0 < limit -> 0 <= offset ->
   fst (_selectByRange cfg table (limit, offset) s)
   = Ok (take (Z.to_nat limit + extra) (drop (Z.to_nat offset) rows))) /\
  (limit < 0 -> 0 <= offset -> offset - limit <= Z.of_nat (length rows) ->
   fst (_selectByRange cfg table (limit, offset) s)
   = Ok (take (Z.to_nat (- limit) + extra - 1)
           (drop (length rows - Z.to_nat (offset - limit)) rows))) /\
  (limit = 0 ->
   fst (_selectByRange cfg table (limit, offset) s) = Throw Diverges).
Proof.
  intros Hi rows extra. unfold _selectByRange. cbn [fst snd].
  split; [|split].
  - intros Hl Ho. destruct (Z.ltb_spec 0 limit); [|lia].
    rewrite (rangeRead_idx_rows cfg table info) by done.
    f_equal. f_equal. subst extra. destruct (rangeInclusive cfg); lia.
  - intros Hl Ho Hlen. destruct (Z.ltb_spec 0 limit); [lia|].
    unfold getIndex_length, pk_of, count_up. rewrite Hi.
    destruct (Z.ltb_spec (Z.abs limit - 1) 0); [lia|].
    cbv [bind ret emit modify gets].
    rewrite (rangeRead_idx_rows cfg table info) by done.
    match goal with
    | |- context [table_rows ?s' table] =>
        change (table_rows s' table) with rows
    end.
    f_equal. f_equal; [|f_equal; lia].
    subst extra. destruct (rangeInclusive cfg); lia.
  - intros ->. cbn [Z.ltb Z.compare].
    unfold getIndex_length, pk_of, count_up. rewrite Hi. reflexivity.
Qed.

Lemma dedupe_distinct pk : forall rs pks,
  Forall (fun r => exists p, get r pk = VPrim p) (dedupe pk pks rs) ->
  NoDup (map (fun r => get r pk) (dedupe pk pks rs)) /\
  forall k, k ∈ map (fun r => get r pk) (dedupe pk pks rs) -> k ∉ pks.
Proof.
  induction rs as [|r rs IH]; intros pks Hp; simpl.
  - split; [constructor|]. intros k Hk. by inversion Hk.
  - simpl in Hp. destruct (existsb (strict_eq (get r pk)) pks) eqn:E.
    + by apply IH.
    + apply Forall_cons in Hp as [[p Hkey] Hp].
      destruct (IH _ Hp) as [Hnd Hout]. simpl. split.
      * constructor; [|exact Hnd]. intros Hin.
        apply (Hout _ Hin). apply elem_of_app. right. apply list_elem_of_here.
      * intros k [->|Hk]%elem_of_cons.
        -- intros Hin. apply not_true_iff_false in E. apply E.
           apply existsb_exists. exists (get r pk). split.
           ++ by apply list_elem_of_In.
           ++ rewrite Hkey. simpl. apply OrmFacts.prim_strict_eq_refl.
        -- intros Hin. apply (Hout _ Hk). apply elem_of_app. by left.
Qed.

(** The rows of a fast select with a compound WHERE list: no two of them
    have the same primary key, whatever the leaves selected and however
    they were joined. *)
Theorem compound_select_distinct_keys (table : string) (info : tableInfoT)
  (first : Where.leaf) (rest : list (string * Where.leaf))
  (rows : list row) (s s' : state) :
  tableInfo cfg !! table = Some info ->
  _selectByKeysOrSeach cfg X table (Where.WCompound first rest) s
    = (Ok rows, s') ->
  Forall (fun r => exists p, get r (_pk info) = VPrim p) rows ->
  NoDup (map (fun r => get r (_pk info)) rows).
Proof.
  intros Hi Hsel Hp. unfold _selectByKeysOrSeach, pk_of in Hsel.
  rewrite Hi in Hsel. unfold bind at 1 in Hsel. cbn [ret] in Hsel.
  apply InvalidationFacts.bind_ok in Hsel as (acc & s1 & _ & Hret).
  injection Hret as <- _.
  by apply (dedupe_distinct (_pk info) acc []).
Qed.

Lemma filterM_idx_none : forall (rs : list row) i,
  filterM_idx (fun _ _ => Ok false) i rs = Ok [].
Proof.
  induction rs as [|r rs IH]; intros i; simpl; [done|]. by rewrite IH.
Qed.

(** A WHERE clause that is the empty list matches no row.  A select with
    it reads the table and gives no row; a delete with it deletes nothing
    and lets the table stand, where a delete with no WHERE clause at all
    drops the table. *)
Theorem empty_where_matches_nothing (table : string) (info : tableInfoT)
  (q : query) (s : state) :
  tableInfo cfg !! table = Some info ->
  Query.table q = TName table -> qwhere q = Some (WArr Where.WEmpty) ->
  range q = None -> trie q = None -> join q = None ->
  (forall r ignoreFirstPath cache pk,
     where_row X r Where.WEmpty ignoreFirstPath cache pk = Ok false) /\
  (exists s', _getRows cfg X nested q s = (Ok [], s') /\
              rows_of s' = rows_of s /\ _cache s' = _cache s) /\
  (exists s', _delete cfg X nested q s
              = (Ok (RWrite "0 row(s) deleted." [] []), s') /\
              rows_of s' = rows_of s /\ _cache s' = _cache s).
Proof.
  intros Hi Ht Hw Hr Htr Hj.
  assert (Hrows : _getRows cfg X nested q s
                  = (Ok [], snd (emit (EvRead table) s))).
  { unfold _getRows, _RowSelection, selectors_set. rewrite Ht, Hw, Hr, Htr, Hj.
    cbn [is_set andb Nat.ltb Nat.leb Nat.add].
    unfold _fullTableScan, pk_of, _read_scan, pk_of. rewrite Hi.
    unfold bind at 1. cbn [ret]. unfold bind at 1. cbn [ret].
    unfold bind at 1. unfold bind at 1. cbn [ret].
    unfold bind at 1. cbn [emit modify]. unfold bind at 1. cbn [gets].
    unfold lift. unfold where_row, Where._where. cbn [Where.where_run rbind].
    cbn [Where.prev Where.winit].
    rewrite filterM_idx_none. rewrite bool_decide_eq_true_2 by done.
    reflexivity. }
  split; [done|]. split.
  - eexists. split; [exact Hrows|]. done.
  - eexists. unfold _delete. rewrite Ht, Hw. cbn [is_set].
    unfold bind at 1. rewrite Hrows. split; [reflexivity|]. done.
Qed.

End Facts.

Lemma compound_select_distinct_keys_witness :
  let w1 := Where.mk_leaf "id" "=" (num 1) in
  exists rows s',
    _selectByKeysOrSeach (Scenarios.t_config true) Examples.X0 "t"
      (Where.WCompound w1 [("OR", w1)])
      (Examples.state_with "t" Scenarios.three_rows) = (Ok rows, s') /\
    NoDup (map (fun r => get r (_pk (Examples.plain_table "t" "id" ["id"])))
             rows).
Proof.
  intros w1. eexists. eexists. split; [vm_compute; reflexivity|].
  eapply (compound_select_distinct_keys (Scenarios.t_config true) Examples.X0
           "t" (Examples.plain_table "t" "id" ["id"]) w1 [("OR", w1)] _
           (Examples.state_with "t" Scenarios.three_rows) _);
    [reflexivity | vm_compute; reflexivity |].
  repeat constructor; by eexists.
Defined.

Lemma empty_where_matches_nothing_witness :
  let q := Examples.with_where (Examples.select_all "t") Where.WEmpty in
  let s := Examples.state_with "t" Scenarios.three_rows in
  (forall r ignoreFirstPath cache pk,
     where_row Examples.X0 r Where.WEmpty ignoreFirstPath cache pk
     = Ok false) /\
  (exists s', _getRows (Scenarios.t_config true) Examples.X0
                (doQuery_inner (Scenarios.t_config true) Examples.X0) q s
              = (Ok [], s') /\
              rows_of s' = rows_of s /\ _cache s' = _cache s) /\
  (exists s', _delete (Scenarios.t_config true) Examples.X0
                (doQuery_inner (Scenarios.t_config true) Examples.X0) q s
              = (Ok (RWrite "0 row(s) deleted." [] []), s') /\
              rows_of s' = rows_of s /\ _cache s' = _cache s).
Proof.
  intros q s.
  apply (empty_where_matches_nothing (Scenarios.t_config true) Examples.X0
           _ "t" (Examples.plain_table "t" "id" ["id"]) q s); reflexivity.
Defined.

Lemma range_select_window_witness :
  let rows := table_rows (Examples.state_with "t" Scenarios.three_rows) "t" in
  let extra :=
    if rangeInclusive (Scenarios.t_config false) then 1%nat else 0%nat in
  (0 < -2 -> 0 <= 0 ->
   fst (_selectByRange (Scenarios.t_config false) "t" (-2, 0)
          (Examples.state_with "t" Scenarios.three_rows))
   = Ok (take (Z.to_nat (-2) + extra) (drop (Z.to_nat 0) rows))) /\
  (-2 < 0 -> 0 <= 0 -> 0 - -2 <= Z.of_nat (length rows) ->
   fst (_selectByRange (Scenarios.t_config false) "t" (-2, 0)
          (Examples.state_with "t" Scenarios.three_rows))
   = Ok (take (Z.to_nat (- -2) + extra - 1)
           (drop (length rows - Z.to_nat (0 - -2)) rows))) /\
  (-2 = 0 ->
   fst (_selectByRange (Scenarios.t_config false) "t" (-2, 0)
          (Examples.state_with "t" Scenarios.three_rows)) = Throw Diverges).
Proof.
  apply (range_select_window (Scenarios.t_config false) "t"
           (Examples.plain_table "t" "id" ["id"]) (-2) 0
           (Examples.state_with "t" Scenarios.three_rows)).
  reflexivity.
Defined.

End SelectionFacts.

(** ** What a select leaves alone *)

Module ReadFacts.
Import Store Storage Query Search JSObj Selection Mutate StorageQuery
  Invariants Frame Extra.

Section Reads.

Variable cfg : config.
Variable X : externals.
Variable P : state -> Prop.
Hypothesis P_read : forall t s, P s -> P (snd (emit (EvRead t) s)).
Hypothesis P_cache : forall c s, P s -> P (snd (set_cache c s)).
Hypothesis P_fuzzy : forall t l, keeps P (fuzzySearch X t l).
Hypothesis P_join : forall q rows, keeps P (joinStage X q rows).
Hypothesis P_orm : forall q rows, keeps P (ormStage X q rows).

Lemma reads_emit t : keeps P (emit (EvRead t)).
Proof. intros s. apply P_read. Qed.

Lemma reads_set_cache c : keeps P (set_cache c).
Proof. intros s. apply P_cache. Qed.

Local Hint Resolve reads_emit reads_set_cache P_fuzzy P_join P_orm : framedb.

Lemma reads_pk_of t : keeps P (pk_of cfg t).
Proof. unfold pk_of. frame_tac. Qed.

Lemma reads_info_of t : keeps P (info_of cfg t).
Proof. unfold info_of. frame_tac. Qed.

Local Hint Resolve reads_pk_of reads_info_of : framedb.

Lemma reads_adapter_read t k : keeps P (adapter_read cfg t k).
Proof. unfold adapter_read. frame_tac. Qed.

Local Hint Resolve reads_adapter_read : framedb.

Lemma reads_read_keys t ks : keeps P (_read_keys cfg t ks).
Proof. unfold _read_keys. frame_tac. Qed.

Lemma reads_read_scan t keep : keeps P (_read_scan cfg t keep).
Proof. unfold _read_scan. frame_tac. Qed.

Lemma reads_rangeRead_idx t a b : keeps P (_rangeRead_idx cfg t a b).
Proof. unfold _rangeRead_idx. frame_tac. Qed.

Lemma reads_rangeRead_pk t a b : keeps P (_rangeRead_pk cfg t a b).
Proof. unfold _rangeRead_pk. frame_tac. Qed.

Lemma reads_getIndex_length t : keeps P (getIndex_length cfg t).
Proof. unfold getIndex_length. frame_tac. Qed.

Lemma reads_secondaryIndexRead t c v : keeps P (_secondaryIndexRead cfg t c v).
Proof. unfold _secondaryIndexRead. frame_tac. Qed.

Lemma reads_trieRead t c v : keeps P (_trieRead cfg t c v).
Proof. unfold _trieRead. frame_tac. Qed.

Lemma reads_search_read t w : keeps P (search_read t w).
Proof. unfold search_read. frame_tac. Qed.

Local Hint Resolve reads_read_keys reads_read_scan reads_rangeRead_idx
  reads_rangeRead_pk reads_getIndex_length reads_secondaryIndexRead
  reads_trieRead reads_search_read : framedb.

Lemma reads_tokenize t c v : keeps P (tokenize cfg X t c v).
Proof. unfold tokenize, _tokenizer. frame_tac. Qed.

Local Hint Resolve reads_tokenize : framedb.

Lemma reads_search_column t term w c : keeps P (search_column cfg X t term w c).
Proof. unfold search_column. frame_tac. Qed.

Local Hint Resolve reads_search_column : framedb.

Lemma reads_search_select t l : keeps P (search_select cfg X t l).
Proof.
  unfold search_select.
  destruct (_ || _); [by auto with framedb|].
  apply InvalidationFacts.keeps_bind; [|frame_tac].
  generalize (@nil (string * unit)).
  induction (search_columns (Where.path l)) as [|c cols IH]; intros w;
    frame_tac.
Qed.

Lemma reads_secondary_range t c a b : keeps P (secondary_range cfg t c a b).
Proof. unfold secondary_range. frame_tac. Qed.

Local Hint Resolve reads_search_select reads_secondary_range : framedb.

Lemma reads_selectRowsByIndexOrSearch t l :
  keeps P (_selectRowsByIndexOrSearch cfg X t l).
Proof. unfold _selectRowsByIndexOrSearch. frame_tac. Qed.

Local Hint Resolve reads_selectRowsByIndexOrSearch : framedb.

Lemma reads_selectByKeysOrSeach t w : keeps P (_selectByKeysOrSeach cfg X t w).
Proof.
  unfold _selectByKeysOrSeach.
  apply InvalidationFacts.keeps_bind; [frame_tac|]. intros pkcol.
  destruct w as [l|first rest|]; [frame_tac| |frame_tac].
  apply InvalidationFacts.keeps_bind; [|frame_tac].
  match goal with
  | |- keeps P (?go ?items EmptyString []) =>
      cut (forall its lastCommand resultRows,
             keeps P (go its lastCommand resultRows));
        [intros H; apply H|]
  end.
  induction its as [|[l|c] items IH]; intros lastCommand resultRows;
    frame_tac.
Qed.

Lemma reads_selectByRange t r : keeps P (_selectByRange cfg t r).
Proof. unfold _selectByRange, count_up. frame_tac. Qed.

Lemma reads_selectByTrie t c : keeps P (_selectByTrie cfg t c).
Proof. unfold _selectByTrie. frame_tac. Qed.

Local Hint Resolve reads_selectByKeysOrSeach reads_selectByRange
  reads_selectByTrie : framedb.

Section Nested.

Variable nested : query -> M queryResult.
Hypothesis P_nested : forall q, action q = "select" -> keeps P (nested q).

Lemma reads_prepare_searches t items : forall i cache,
  keeps P (prepare_searches nested t items i cache).
Proof.
  induction items as [|[l|c] items IH]; intros i cache; simpl.
  - frame_tac.
  - destruct (str_contains _ _); [|apply IH].
    apply InvalidationFacts.keeps_bind; [by apply P_nested|].
    intros res. apply IH.
  - destruct c; [frame_tac | apply IH].
Qed.

Local Hint Resolve reads_prepare_searches : framedb.

Lemma reads_fullTableScan t w : keeps P (_fullTableScan cfg X nested t w).
Proof. unfold _fullTableScan. frame_tac. Qed.

Local Hint Resolve reads_fullTableScan : framedb.

Lemma reads_RowSelection t q : keeps P (_RowSelection cfg X nested t q).
Proof. unfold _RowSelection. frame_tac. Qed.

Local Hint Resolve reads_RowSelection : framedb.

Lemma reads_getRows q : keeps P (_getRows cfg X nested q).
Proof. unfold _getRows. frame_tac. Qed.

Lemma reads_executeQueryArguments q rows :
  keeps P (_executeQueryArguments cfg X q rows).
Proof. unfold _executeQueryArguments. frame_tac. Qed.

Lemma reads_cache_store t h rows : keeps P (cache_store t h rows).
Proof. unfold cache_store. frame_tac. Qed.

Local Hint Resolve reads_getRows reads_executeQueryArguments
  reads_cache_store : framedb.

Lemma reads_select q : keeps P (_select cfg X nested q).
Proof. unfold _select. frame_tac. Qed.

End Nested.

Lemma reads_run q : action q = "select" -> keeps P (run cfg X q).
Proof.
  intros Ha. unfold run, doQuery. rewrite bool_decide_eq_true_2 by done.
  apply reads_select. intros q' Ha'. unfold doQuery_inner, doQuery.
  rewrite bool_decide_eq_true_2 by done.
  apply reads_select. intros q'' _. apply InvalidationFacts.keeps_throw.
Qed.

End Reads.

Lemma reads_only_refl s : reads_only s s.
Proof.
  repeat split. exists []. split; [by rewrite app_nil_r | constructor].
Qed.

(** A select writes no data, whatever it selects and however it ends: the
    rows, the search indexes and the token records of every table are the
    same after it as before, and what the log gained are reads. *)
Theorem select_writes_no_data (cfg : config) (X : externals) (q : query)
  (s : state) :
  action q = "select" -> quiet X s ->
  reads_only s (snd (run cfg X q s)).
Proof.
  intros Ha (Hf & Hj & Ho).
  apply (reads_run cfg X (reads_only s)); auto using reads_only_refl.
  - intros t s1 (Hr & Hs & Ht & l & Hl & Hall). repeat split; auto.
    exists (l ++ [EvRead t])%list. split.
    + simpl. rewrite Hl. by rewrite <- app_assoc.
    + apply Forall_app. split; [exact Hall|]. repeat constructor. by eexists.
Qed.

Lemma quiet_X0 s : quiet Examples.X0 s.
Proof. unfold quiet, keeps. simpl. split; [|split]; intros; assumption. Qed.

Lemma select_writes_no_data_witness :
  reads_only Scenarios.docs_state
    (snd (run Scenarios.docs_config Examples.X0 (Scenarios.search_body "brown")
            Scenarios.docs_state)).
Proof.
  apply (select_writes_no_data Scenarios.docs_config Examples.X0
           (Scenarios.search_body "brown") Scenarios.docs_state);
    [reflexivity | apply quiet_X0].
Defined.

End ReadFacts.

(** ** The result cache of [_select] *)

Module CacheMoreFacts.
Import Store Storage Query Search Selection Mutate StorageQuery Invariants.

(** A cacheable select with mutation arguments (ordering, offset, limit, a
    column selection, grouping or a having clause) that misses the cache
    delivers the mutated rows and stores the rows as the mutation left the
    array handed to it; the same select run again delivers the stored rows
    and does not mutate them. *)
Theorem cached_select_skips_mutation cfg X nested q rows st s s1 s2 :
  canCache cfg q = true ->
  has_arguments q = true ->
  cache_of s (table_name q) !! hashQuery X (clear_queryID q) = None ->
  _getRows cfg X nested q s = (Ok rows, s1) ->
  _executeQueryArguments cfg X q rows s1 = (Ok st, s2) ->
  exists s3,
    _select cfg X nested q s = (Ok (RRows (cur st)), s3) /\
    _select cfg X nested q s3 = (Ok (RRows (orig st)), s3).
Proof.
  intros Hc Ha Hmiss Hrows Hmut.
  destruct (CacheFacts.select_stores_selected_rows cfg X nested q rows st
              s s1 s2 Hc Ha Hmiss Hrows Hmut) as (s3 & Hsel & Hcache).
  exists s3. split; [exact Hsel|].
  unfold _select. unfold bind at 1, gets. rewrite Hc, Hcache. reflexivity.
Qed.

Lemma cached_select_skips_mutation_witness :
  let cfg := Scenarios.t_config true in
  let q := Examples.with_limit (Examples.select_all "t") 2 in
  let s := Examples.state_with "t" Scenarios.three_rows in
  exists st s3,
    cur st = [Examples.row_id 1; Examples.row_id 2] /\
    orig st = Scenarios.three_rows /\
    _select cfg Examples.X0 (doQuery_inner cfg Examples.X0) q s
      = (Ok (RRows (cur st)), s3) /\
    _select cfg Examples.X0 (doQuery_inner cfg Examples.X0) q s3
      = (Ok (RRows (orig st)), s3).
Proof.
  intros cfg q s.
  destruct (_getRows cfg Examples.X0 (doQuery_inner cfg Examples.X0) q s)
    as [r1 s1] eqn:Hrows.
  destruct r1 as [rows|e]; [|vm_compute in Hrows; discriminate].
  destruct (_executeQueryArguments cfg Examples.X0 q rows s1)
    as [r2 s2] eqn:Hmut.
  destruct r2 as [st|e];
    [|vm_compute in Hrows; injection Hrows as <- <-;
      vm_compute in Hmut; discriminate].
  destruct (cached_select_skips_mutation cfg Examples.X0
              (doQuery_inner cfg Examples.X0) q rows st s s1 s2
              eq_refl eq_refl eq_refl Hrows Hmut) as (s3 & H1 & H2).
  exists st, s3.
  vm_compute in Hrows. injection Hrows as <- <-.
  vm_compute in Hmut. injection Hmut as <- <-.
  repeat split; [exact H1 | exact H2].
Defined.

Lemma select_without_arguments_repeats_witness :
  let cfg := Scenarios.t_config true in
  let q := Examples.select_all "t" in
  exists s2,
    _select cfg Examples.X0 (doQuery_inner cfg Examples.X0) q
      (Examples.state_with "t" Scenarios.three_rows)
      = (Ok (RRows Scenarios.three_rows), s2) /\
    _select cfg Examples.X0 (doQuery_inner cfg Examples.X0) q s2
      = (Ok (RRows Scenarios.three_rows), s2).
Proof.
  intros cfg q.
  eapply (CacheFacts.select_without_arguments_repeats cfg Examples.X0
            (doQuery_inner cfg Examples.X0) q Scenarios.three_rows
            (Examples.state_with "t" Scenarios.three_rows));
    [reflexivity | reflexivity | reflexivity | vm_compute; reflexivity].
Defined.

End CacheMoreFacts.

(** ** Queries handed out from inside a query *)

Module NestingFacts.
Import Store Storage Query Search Selection Mutate StorageQuery Invariants
  Extra.

Lemma same_refl {A} (m : M A) : same m m.
Proof. by intros s. Qed.

Lemma same_bind {A B} (m m' : M A) (f f' : A -> M B) :
  same m m' -> (forall a, same (f a) (f' a)) -> same (bind m f) (bind m' f').
Proof.
  intros Hm Hf s. unfold bind. rewrite (Hm s).
  destruct (m' s) as [[a|e] s1]; [apply Hf | reflexivity].
Qed.

Lemma same_iterM {A} (f f' : A -> M unit) l :
  (forall a, same (f a) (f' a)) -> same (iterM f l) (iterM f' l).
Proof.
  intros Hf. induction l as [|a l IH]; simpl; [apply same_refl|].
  apply same_bind; [apply Hf | intros _; exact IH].
Qed.

Lemma same_mapM {A B} (f f' : A -> M B) l :
  (forall a, same (f a) (f' a)) -> same (mapM f l) (mapM f' l).
Proof.
  intros Hf. induction l as [|a l IH]; simpl; [apply same_refl|].
  apply same_bind; [apply Hf|]. intros b.
  apply same_bind; [exact IH|]. intros bs. apply same_refl.
Qed.

Create HintDb samedb.

(** Take two computations of the same shape apart side by side. *)
Ltac same_step :=
  first
    [ progress intros
    | apply same_refl
    | assumption
    | solve [eauto 3 with samedb]
    | match goal with
      | |- same (bind _ _) (bind _ _) => apply same_bind
      | |- same (mapM _ _) (mapM _ _) => apply same_mapM
      | |- same (iterM _ _) (iterM _ _) => apply same_iterM
      | |- same (match ?x with _ => _ end) _ => destruct x
      | |- same (if ?b then _ else _) _ => destruct b
      | |- same (let _ := _ in _) _ => cbv zeta
      end ].

Ltac same_tac := repeat same_step.

Section Congruence.

Variable cfg : config.
Variable X : externals.
Variables f g : query -> M queryResult.
Hypothesis f_g : forall q, handed_out q -> same (f q) (g q).

Lemma same_orm_upsert t r :
  same (f (upsert_query t r ["_orm_skip"])) (g (upsert_query t r ["_orm_skip"])).
Proof. apply f_g. left. by eexists; eexists. Qed.

Lemma same_leaf_select t l :
  same (f (select_query (TName t) (WArr (Where.WSingle l))))
       (g (select_query (TName t) (WArr (Where.WSingle l)))).
Proof. apply f_g. right. by eexists; eexists. Qed.

Local Hint Resolve same_orm_upsert same_leaf_select : samedb.

Lemma same_update_orm_row rel add k r :
  same (update_orm_row cfg f rel add k r) (update_orm_row cfg g rel add k r).
Proof. unfold update_orm_row. same_tac. Qed.

Local Hint Resolve same_update_orm_row : samedb.

Lemma same_updateORMRows rel ks add k :
  same (_updateORMRows cfg f rel ks add k) (_updateORMRows cfg g rel ks add k).
Proof. unfold _updateORMRows. same_tac. Qed.

Local Hint Resolve same_updateORMRows : samedb.

Lemma same_sync_relation type t o n rel :
  same (sync_relation cfg f type t o n rel) (sync_relation cfg g type t o n rel).
Proof. unfold sync_relation. same_tac. Qed.

Local Hint Resolve same_sync_relation : samedb.

Lemma same_syncORM q type olds news :
  same (_syncORM cfg f q type olds news) (_syncORM cfg g q type olds news).
Proof. unfold _syncORM. same_tac. Qed.

Lemma same_prepare_searches t items : forall i cache,
  same (prepare_searches f t items i cache) (prepare_searches g t items i cache).
Proof.
  induction items as [|[l|c] items IH]; intros i cache; simpl.
  - apply same_refl.
  - destruct (str_contains _ _); [|apply IH].
    apply same_bind; [apply same_leaf_select|]. intros res. apply IH.
  - destruct c; [apply same_refl | apply IH].
Qed.

Local Hint Resolve same_syncORM same_prepare_searches : samedb.

Lemma same_fullTableScan t w :
  same (_fullTableScan cfg X f t w) (_fullTableScan cfg X g t w).
Proof. unfold _fullTableScan. same_tac. Qed.

Local Hint Resolve same_fullTableScan : samedb.

Lemma same_RowSelection t q :
  same (_RowSelection cfg X f t q) (_RowSelection cfg X g t q).
Proof. unfold _RowSelection. same_tac. Qed.

Local Hint Resolve same_RowSelection : samedb.

Lemma same_getRows q : same (_getRows cfg X f q) (_getRows cfg X g q).
Proof. unfold _getRows. same_tac. Qed.

Local Hint Resolve same_getRows : samedb.

Lemma same_select q : same (_select cfg X f q) (_select cfg X g q).
Proof. unfold _select. same_tac. Qed.

Lemma same_upsert q : same (_upsert cfg X f q) (_upsert cfg X g q).
Proof. unfold _upsert. same_tac. Qed.

Lemma same_drop q : same (_drop cfg f q) (_drop cfg g q).
Proof. unfold _drop. same_tac. Qed.

Local Hint Resolve same_drop : samedb.

Lemma same_delete q :
  same (StorageQuery._delete cfg X f q) (StorageQuery._delete cfg X g q).
Proof. unfold StorageQuery._delete. same_tac. Qed.

Local Hint Resolve same_select same_upsert same_delete : samedb.

Lemma same_doQuery q : same (doQuery cfg X f q) (doQuery cfg X g q).
Proof. unfold doQuery. same_tac. Qed.

End Congruence.

Section Shallow.

Variable cfg : config.
Variable X : externals.

Lemma syncORM_skips f g q type olds news :
  "_orm_skip" ∈ comments q ->
  same (_syncORM cfg f q type olds news) (_syncORM cfg g q type olds news).
Proof.
  intros Hin. unfold _syncORM. rewrite (bool_decide_eq_true_2 _ Hin).
  apply same_refl.
Qed.

(** The upsert of the ORM synchronisation asks for no further query. *)
Lemma orm_upsert_asks_nothing f g t r :
  same (doQuery cfg X f (upsert_query t r ["_orm_skip"]))
       (doQuery cfg X g (upsert_query t r ["_orm_skip"])).
Proof.
  assert (Hskip : forall type olds news,
            same (_syncORM cfg f (upsert_query t r ["_orm_skip"]) type olds news)
                 (_syncORM cfg g (upsert_query t r ["_orm_skip"]) type olds news)).
  { intros. apply syncORM_skips. apply list_elem_of_here. }
  unfold doQuery. cbn [action upsert_query].
  rewrite bool_decide_eq_false_2 by discriminate.
  rewrite bool_decide_eq_true_2 by reflexivity.
  unfold _upsert. cbn [Query.table qwhere upsert_query is_set].
  same_tac.
Qed.

(** The select of one search leaf asks for no further query. *)
Lemma leaf_select_asks_nothing f g t l :
  same (doQuery cfg X f (select_query (TName t) (WArr (Where.WSingle l))))
       (doQuery cfg X g (select_query (TName t) (WArr (Where.WSingle l)))).
Proof.
  unfold doQuery. cbn [action select_query].
  rewrite bool_decide_eq_true_2 by reflexivity.
  unfold _select, _getRows, _RowSelection, has_arguments, canCache,
    selectors_set, _fullTableScan.
  cbn [Query.table qwhere range trie join orm select_query is_set andb
       having orderBy offset limit actionArgs groupBy num_set orb negb].
  same_tac.
Qed.

(** The queries handed out from inside a query hand out none themselves:
    whatever would answer a query at the third level, the outcome of a
    query and the store it leaves are the same. *)
Theorem nesting_is_shallow (n : query -> M queryResult) (q : query)
  (s : state) :
  doQuery cfg X (doQuery cfg X n) q s = run cfg X q s.
Proof.
  unfold run, doQuery_inner. apply same_doQuery.
  intros q' [(t & r & ->)|(t & l & ->)].
  - apply orm_upsert_asks_nothing.
  - apply leaf_select_asks_nothing.
Qed.

End Shallow.

End NestingFacts.

(** ** ORM synchronisation ([_syncORM]) *)

Module OrmMoreFacts.
Import Store Storage Query Search Selection Mutate StorageQuery Invariants
  Extra.

Lemma differ_at (a : list prim) : forall b,
  length a = length b -> a <> b ->
  exists i v w, a !! i = Some v /\ b !! i = Some w /\ v <> w.
Proof.
  induction a as [|x a IH]; intros [|y b] Hlen Hne; try discriminate;
    [done|].
  destruct (decide (x = y)) as [->|Hxy].
  - destruct (IH b) as (i & v & w & Ha & Hb & Hvw);
      [by injection Hlen | congruence|].
    by exists (S i), v, w.
  - by exists 0%nat, x, y.
Qed.

Lemma equals_arrays (a b : list prim) :
  equals (VArr a) (VArr b) = true <-> length a = length b /\ a <> b.
Proof.
  unfold equals.
  destruct (Nat.eqb_spec (length a) (length b)) as [Hlen|Hlen]; cbn [negb].
  2: { split; [discriminate | by intros [? _]]. }
  rewrite negb_true_iff, bool_decide_eq_false.
  rewrite CompareFacts.filter_nonempty_iff. split.
  - intros ([i v] & Hin & Hne). split; [done|]. intros ->.
    apply list_elem_of_lookup in Hin as [j Hj].
    rewrite list_lookup_imap in Hj.
    destruct (b !! j) eqn:E; simpl in Hj; [|discriminate].
    injection Hj as <- <-. simpl in Hne. rewrite E in Hne. simpl in Hne.
    by rewrite OrmFacts.prim_strict_eq_refl in Hne.
  - intros [_ Hne].
    destruct (differ_at a b Hlen Hne) as (i & v & w & Ha & Hb & Hvw).
    exists (i, v). split.
    + apply list_elem_of_lookup. exists i.
      rewrite list_lookup_imap, Ha. reflexivity.
    + simpl. rewrite Hb. simpl. unfold prim_strict_eq.
      by rewrite bool_decide_eq_false_2.
Qed.

(** An upsert that replaces the ids of a relation column by as many other
    ids is not synchronised: the comparison takes an array of the same
    length with a differing element for an unchanged value, so the related
    rows keep the old back references and gain no new ones.  Only a change
    of length, or no change at all, reaches the code that works out the
    ids to add and to remove. *)
Theorem replaced_ids_are_not_synchronised cfg nested (table : string)
  (info : tableInfoT) (rel : relation) (old new : row) (a b : list prim)
  (s : state) :
  tableInfo cfg !! table = Some info ->
  get old (_thisColumn rel) = VArr a -> get new (_thisColumn rel) = VArr b ->
  length a = length b -> a <> b ->
  sync_relation cfg nested "add" table (Some old) (Some new) rel s
  = (Ok tt, s).
Proof.
  intros Hi Ha Hb Hlen Hne. unfold sync_relation, pk_of. rewrite Hi.
  unfold bind at 1. cbn [ret].
  rewrite bool_decide_eq_false_2 by discriminate.
  rewrite bool_decide_eq_true_2 by reflexivity.
  rewrite Ha, Hb. by rewrite (proj2 (equals_arrays a b) (conj Hlen Hne)).
Qed.

Lemma replaced_ids_are_not_synchronised_witness :
  sync_relation Scenarios.orm_config
    (doQuery_inner Scenarios.orm_config Examples.X0) "add" "posts"
    (Some (Scenarios.post_9 [1; 2])) (Some (Scenarios.post_9 [2; 3]))
    Scenarios.posts_tags Scenarios.tags_state
  = (Ok tt, Scenarios.tags_state).
Proof.
  apply (replaced_ids_are_not_synchronised Scenarios.orm_config
           (doQuery_inner Scenarios.orm_config Examples.X0) "posts"
           (Examples.plain_table "posts" "id" ["id"; "tags"])
           Scenarios.posts_tags (Scenarios.post_9 [1; 2])
           (Scenarios.post_9 [2; 3]) [PNum 1; PNum 2] [PNum 2; PNum 3]);
    [reflexivity | reflexivity | reflexivity | reflexivity | discriminate].
Defined.

End OrmMoreFacts.

(** ** The split of a partly indexed WHERE list ([_isSubOptimizedWhere]) *)

Module SplitFacts.
Import Store Storage Query Search JSObj Selection Extra.

Lemma flat_connective (rest : list (string * Where.leaf)) : forall i c,
  Where.flat rest !! i = Some (Where.WConn c) ->
  exists j l, i = (2 * j)%nat /\ rest !! j = Some (c, l).
Proof.
  unfold Where.flat.
  induction rest as [|[c0 l0] rest IH]; intros i c; simpl; [done|].
  destruct i as [|[|i]]; simpl.
  - intros [= ->]. by exists 0%nat, l0.
  - discriminate.
  - intros H. destruct (IH i c H) as (j & l & -> & Hj).
    exists (S j), l. split; [lia | done].
Qed.

(** When the split index is not [0] it is odd and points at an "AND"
    between two leaves, and the first leaf reads a key, an index or a
    search: the list before it and the list after it are both WHERE lists,
    neither of them empty. *)
Theorem suboptimized_split_is_at_and (ti : tableInfoT) (first : Where.leaf)
  (rest : list (string * Where.leaf)) :
  (0 < _isSubOptimizedWhere ti first rest)%nat ->
  let k := _isSubOptimizedWhere ti first rest in
  Nat.odd k = true /\
  _isOptimizedWhere ti first = 0%nat /\
  exists l tl, drop (Nat.div2 k) rest = ("AND", l) :: tl.
Proof.
  unfold _isSubOptimizedWhere.
  destruct (Nat.eqb_spec (_isOptimizedWhere ti first) 0) as [Hopt|_];
    [|simpl; lia].
  match goal with
  | |- context [bool_decide (_ !! ?lc = _)] => generalize lc
  end.
  intros lastCheck. case_bool_decide as Hand; [|simpl; lia].
  intros Hpos. cbv zeta. destruct lastCheck as [|i]; [lia|].
  unfold Where.items_of in Hand. simpl in Hand.
  destruct (flat_connective rest i "AND" Hand) as (j & l & -> & Hj).
  split; [|split; [exact Hopt|]].
  - rewrite Nat.odd_succ. apply Nat.even_spec. by exists j.
  - exists l, (drop (S j) rest).
    replace (Nat.div2 (S (2 * j))) with j.
    + by apply drop_S.
    + symmetry. replace (S (2 * j)) with (2 * j + 1)%nat by lia.
      rewrite Nat.add_comm. simpl. rewrite Nat.add_0_r.
      clear. induction j as [|j IH]; [done|].
      replace (S j + S j)%nat with (S (S (j + j))) by lia.
      simpl. f_equal. simpl in IH. exact IH.
Qed.

Lemma suboptimized_split_is_at_and_witness :
  let ti := Examples.plain_table "t" "id" ["id"; "name"] in
  let first := Where.mk_leaf "id" "=" (num 1) in
  let rest := [("AND", Where.mk_leaf "name" "=" (str "a"))] in
  let k := _isSubOptimizedWhere ti first rest in
  Nat.odd k = true /\
  _isOptimizedWhere ti first = 0%nat /\
  exists l tl, drop (Nat.div2 k) rest = ("AND", l) :: tl.
Proof.
  intros ti first rest.
  apply (suboptimized_split_is_at_and ti first rest). vm_compute. lia.
Defined.

End SplitFacts.

(** ** The tokenizer ([_tokenizer]) *)

Module TokenFacts.
Import Store Storage Query Search Extra.












End TokenFacts.

(** ** The ordering operators of [_compare] *)

Module OrderFacts.
Import Where Extra.

Section Facts.

Variable js_match : string -> value -> bool.
Variable toNumberStr : string -> option Z.

Local Abbreviation _compare := (_compare js_match toNumberStr).

Lemma js_lt_undefined_r v : js_lt toNumberStr v undefined = None.
Proof.
  unfold js_lt. simpl.
  destruct (to_primitive v) as [| | | |a]; simpl; try reflexivity.
  by destruct (toNumberStr a).
Qed.

Lemma js_lt_undefined_l v : js_lt toNumberStr undefined v = None.
Proof. unfold js_lt. simpl. by destruct (to_primitive v). Qed.

(** On numbers the four ordering operators hold the column against the
    given value in the order of the integers.  A column that is
    [undefined], as that of a row which lacks it, satisfies none of the
    four: such a row fails [<=] as well as [>]. *)
Theorem ordering_operators (given column : Z) (v : value) :
  _compare (num given) (str ">") (num column) = Ok (given <? column) /\
  _compare (num given) (str "<") (num column) = Ok (column <? given) /\
  _compare (num given) (str ">=") (num column) = Ok (given <=? column) /\
  _compare (num given) (str "<=") (num column) = Ok (column <=? given) /\
  (plain_value v ->
   forall op, op ∈ [">"; "<"; ">="; "<="] ->
     _compare v (str op) undefined = Ok false).
Proof.
  repeat split.
  - unfold Where._compare. simpl. unfold gt, js_lt. simpl. f_equal.
    destruct (Z.ltb_spec given column);
      [by rewrite bool_decide_eq_true_2
      | rewrite bool_decide_eq_false_2; [done|congruence]].
  - unfold Where._compare. simpl. unfold lt, js_lt. simpl. f_equal.
    destruct (Z.ltb_spec column given);
      [by rewrite bool_decide_eq_true_2
      | rewrite bool_decide_eq_false_2; [done|congruence]].
  - unfold Where._compare. simpl. unfold ge, js_lt. simpl. f_equal.
    destruct (Z.ltb_spec column given), (Z.leb_spec given column); try lia;
      [rewrite bool_decide_eq_false_2; [done|congruence]
      | by rewrite bool_decide_eq_true_2].
  - unfold Where._compare. simpl. unfold le, js_lt. simpl. f_equal.
    destruct (Z.ltb_spec given column), (Z.leb_spec column given); try lia;
      [rewrite bool_decide_eq_false_2; [done|congruence]
      | by rewrite bool_decide_eq_true_2].
  - intros Hp op Hop. unfold Where._compare.
    rewrite (CompareFacts.plain_not_sentinel _ Hp).
    repeat (apply elem_of_cons in Hop as [->|Hop]);
      [| | | |by inversion Hop];
      match goal with
      | |- context [setValue (str ?o) _] =>
          change (setValue (str o) undefined) with undefined;
          change (setValue (str o) v) with v
      end;
      cbv beta iota delta [str]; f_equal; unfold gt, lt, ge, le;
      rewrite ?js_lt_undefined_r, ?js_lt_undefined_l;
      by rewrite bool_decide_eq_false_2.
Qed.

End Facts.

End OrderFacts.

(** ** Grouping ([_groupBy]) *)

Module GroupFacts.
Import Store Storage Query Search JSObj Selection Mutate Extra.

Section Facts.

Variable X : externals.



End Facts.

End GroupFacts.

(** ** The join ([_join], [_doJoin]) *)

Module JoinFacts.
Import Store Storage Query Search JSObj Selection Mutate StorageQuery
  Invariants Frame Join Extra.

Section Facts.

Variable cfg : config.
Variable X : externals.
Variable pairQuery : string -> string * row -> string * row -> value.

Lemma read_each_rows t info s :
  tableInfo cfg !! t = Some info ->
  _read_each cfg t s = (Ok (table_rows s t), snd (emit (EvRead t) s)).
Proof. intros Hi. unfold _read_each, pk_of. by rewrite Hi. Qed.

(** *** The scan of the second table *)

Section Scan.

Variables (type : string) (conds : option (string * string * string)).
Variables (fi si : tableInfoT) (a : row).
Variable joins : row -> bool.

Local Abbreviation scan :=
  (scanSecond X pairQuery type conds (rightKey_of conds) fi si a).

Lemma scan_rows : forall rows idx st h,
  type <> "cross" ->
  (forall b, b ∈ rows ->
     willJoinRows X pairQuery type conds (rightKey_of conds) fi si a b
     = Ok (joins b)) ->
  exists st',
    scan rows idx st h = Ok (st', h || existsb joins rows) /\
    joinTable st' =
      (joinTable st ++
       map (fun b => doJoinRows fi si (Some a) (Some b))
         (List.filter joins rows))%list.
Proof.
  induction rows as [|b rows IH]; intros idx st h Hc Hj.
  - exists st. simpl. by rewrite orb_false_r, app_nil_r.
  - cbn [scanSecond]. rewrite bool_decide_eq_false_2 by done.
    rewrite (Hj b) by apply list_elem_of_here. cbn [rbind List.filter existsb].
    assert (Hj' : forall b', b' ∈ rows ->
              willJoinRows X pairQuery type conds (rightKey_of conds) fi si a b'
              = Ok (joins b')).
    { intros b' Hin. apply Hj. by apply elem_of_cons; right. }
    destruct (joins b).
    + match goal with
      | |- context [scan rows (S idx) ?st1 true] =>
          destruct (IH (S idx) st1 true Hc Hj') as (st' & Hs & Ht)
      end.
      exists st'. rewrite Hs. split; [by rewrite orb_true_r|].
      rewrite Ht. cbn [joinTable map]. by rewrite <- app_assoc.
    + match goal with
      | |- context [scan rows (S idx) ?st1 h] =>
          destruct (IH (S idx) st1 h Hc Hj') as (st' & Hs & Ht)
      end.
      exists st'. rewrite Hs. split; [done|]. by rewrite Ht.
Qed.

Lemma scan_cross : forall rows idx st h,
  type = "cross" ->
  exists st',
    scan rows idx st h
      = Ok (st', h || negb (bool_decide (rows = []))) /\
    joinTable st' =
      (joinTable st ++
       map (fun b => doJoinRows fi si (Some a) (Some b)) rows)%list /\
    usedSecondTableRows st' = usedSecondTableRows st /\
    secondRowCache st' = secondRowCache st.
Proof.
  induction rows as [|b rows IH]; intros idx st h Hc.
  - exists st. simpl. by rewrite orb_false_r, app_nil_r.
  - cbn [scanSecond]. rewrite bool_decide_eq_true_2 by done.
    match goal with
    | |- context [scan rows (S idx) ?st1 true] =>
        destruct (IH (S idx) st1 true Hc) as (st' & Hs & Ht & Hu & Hk)
    end.
    exists st'. rewrite Hs. split; [by rewrite orb_true_r|].
    rewrite Ht, Hu, Hk. cbn [joinTable map]. by rewrite <- app_assoc.
Qed.

End Scan.

(** *** The book-keeping of the outer join *)

Lemma set_at_lookup {A} (i j : nat) (x r : A) (a : list (option A)) :
  set_at i x a !! j = Some (Some r) <->
  (j = i /\ r = x) \/ (j <> i /\ a !! j = Some (Some r)).
Proof.
  unfold set_at. destruct (Nat.ltb_spec i (length a)) as [Hlt|Hge].
  - destruct (decide (j = i)) as [->|Hne].
    + rewrite list_lookup_insert_eq by done. split.
      * intros [= ->]. by left.
      * intros [[_ ->]|[? _]]; done.
    + rewrite list_lookup_insert_ne by done. split.
      * intros H. by right.
      * intros [[? _]|[_ H]]; done.
  - destruct (decide (j = i)) as [->|Hne].
    + rewrite lookup_app_r by done.
      rewrite lookup_app_r by (rewrite length_replicate; lia).
      rewrite length_replicate, Nat.sub_diag. simpl. split.
      * intros [= ->]. by left.
      * intros [[_ ->]|[? _]]; done.
    + split.
      * intros H. right. split; [done|].
        apply lookup_app_Some in H as [H|[Hlen H]]; [done|].
        apply lookup_app_Some in H as [H|[Hlen' H]].
        -- by apply lookup_replicate in H as [? _].
        -- rewrite length_replicate in Hlen', H.
           destruct (j - length a - (i - length a))%nat as [|n] eqn:E;
             [lia | by destruct n].
      * intros [[? _]|[_ H]]; [done|]. by apply lookup_app_l_Some.
Qed.

Section Outer.

Variables (conds : option (string * string * string)).
Variables (fi si : tableInfoT).
Variable second : list row.

Local Abbreviation scan a :=
  (scanSecond X pairQuery "outer" conds (rightKey_of conds) fi si a).

(** What the scan of the second table from position [idx] on adds to the
    two books. *)
Lemma scan_books (a : row) (joins : row -> bool) : forall rows idx st h st' h',
  drop idx second = rows ->
  (forall b, b ∈ rows ->
     willJoinRows X pairQuery "outer" conds (rightKey_of conds) fi si a b
     = Ok (joins b)) ->
  (forall i r, secondRowCache st !! i = Some (Some r) -> second !! i = Some r) ->
  scan a rows idx st h = Ok (st', h') ->
  (forall i, i ∈ usedSecondTableRows st' <->
     i ∈ usedSecondTableRows st \/
     ((idx <= i)%nat /\ exists b, second !! i = Some b /\ joins b = true)) /\
  (forall i r, secondRowCache st' !! i = Some (Some r) <->
     secondRowCache st !! i = Some (Some r) \/
     ((idx <= i)%nat /\ second !! i = Some r /\ joins r = false)).
Proof.
  induction rows as [|b rows IH]; intros idx st h st' h' Hdrop Hj Hcons Hs.
  - simpl in Hs. injection Hs as <- <-.
    assert (Hlen : (length second <= idx)%nat).
    { destruct (Nat.le_gt_cases (length second) idx) as [?|Hlt]; [done|].
      apply (f_equal length) in Hdrop. rewrite length_drop in Hdrop.
      simpl in Hdrop. lia. }
    split; intros i; [|intros r]; (split; [by left|]).
    + intros [?|(Hi & b & Hb & _)]; [done|].
      apply lookup_lt_Some in Hb. lia.
    + intros [?|(Hi & Hb & _)]; [done|].
      apply lookup_lt_Some in Hb. lia.
  - assert (Hb : second !! idx = Some b).
    { rewrite <- (Nat.add_0_r idx), <- lookup_drop, Hdrop. reflexivity. }
    assert (Hdrop' : drop (S idx) second = rows).
    { rewrite <- (Nat.add_1_r idx), <- drop_drop, Hdrop. reflexivity. }
    assert (Hj' : forall b', b' ∈ rows ->
              willJoinRows X pairQuery "outer" conds (rightKey_of conds) fi si
                a b' = Ok (joins b')).
    { intros b' Hin. apply Hj. by apply elem_of_cons; right. }
    cbn [scanSecond] in Hs. rewrite bool_decide_eq_false_2 in Hs by done.
    rewrite (Hj b) in Hs by apply list_elem_of_here. cbn [rbind] in Hs.
    rewrite bool_decide_eq_true_2 in Hs by done.
    destruct (joins b) eqn:Ejb.
    + apply IH in Hs as [Hu Hc]; [|done|done|done].
      cbn [usedSecondTableRows secondRowCache] in Hu, Hc. split.
      * intros i. rewrite Hu, elem_of_cons. split.
        -- intros [[->|?]|(Hi & b' & Hb' & Hjb')].
           ++ right. split; [lia|]. by exists b.
           ++ by left.
           ++ right. split; [lia|]. by exists b'.
        -- intros [?|(Hi & b' & Hb' & Hjb')]; [by left; right|].
           destruct (decide (i = idx)) as [->|Hne]; [by left; left|].
           right. split; [lia|]. by exists b'.
      * intros i r. rewrite Hc. split.
        -- intros [?|(Hi & Hr & Hjr)]; [by left|]. right.
           split; [lia|done].
        -- intros [?|(Hi & Hr & Hjr)]; [by left|].
           destruct (decide (i = idx)) as [->|Hne]; [congruence|].
           right. split; [lia|done].
    + apply IH in Hs as [Hu Hc]; [|done|done|].
      2: { cbn [secondRowCache]. intros i r [[-> ->]|[_ H]]%set_at_lookup;
             [done | by apply Hcons]. }
      cbn [usedSecondTableRows secondRowCache] in Hu, Hc. split.
      * intros i. rewrite Hu. split.
        -- intros [?|(Hi & b' & Hb' & Hjb')]; [by left|].
           right. split; [lia|]. by exists b'.
        -- intros [?|(Hi & b' & Hb' & Hjb')]; [by left|].
           destruct (decide (i = idx)) as [->|Hne]; [congruence|].
           right. split; [lia|]. by exists b'.
      * intros i r. rewrite Hc, set_at_lookup. split.
        -- intros [[[-> ->]|[Hne H]]|(Hi & Hr & Hjr)].
           ++ right. split; [lia|done].
           ++ by left.
           ++ right. split; [lia|done].
        -- intros [H|(Hi & Hr & Hjr)].
           ++ destruct (decide (i = idx)) as [->|Hne].
              ** left. left. split; [done|].
                 apply Hcons in H. congruence.
              ** left. by right.
           ++ destruct (decide (i = idx)) as [->|Hne].
              ** left. left. split; [done|congruence].
              ** right. split; [lia|done].
Qed.

End Outer.

Lemma existsb_filter_nil {A} (f : A -> bool) l :
  existsb f l = false <-> List.filter f l = [].
Proof.
  induction l as [|x l IH]; simpl; [done|].
  destruct (f x); simpl; [split; discriminate | exact IH].
Qed.

Lemma joined_with_split type fi si (joins : row -> row -> bool) second a :
  joined_with type fi si joins second a =
  (map (fun b => doJoinRows fi si (Some a) (Some b))
     (List.filter (joins a) second) ++
   (if negb (existsb (joins a) second) &&
       bool_decide (type ∈ ["left"; "right"; "outer"])
    then [doJoinRows fi si (Some a) None] else []))%list.
Proof.
  unfold joined_with. destruct (List.filter (joins a) second) as [|m ms] eqn:E.
  - rewrite (proj2 (existsb_filter_nil _ _) E). reflexivity.
  - destruct (existsb (joins a) second) eqn:Ex.
    + by rewrite app_nil_r.
    + apply existsb_filter_nil in Ex. congruence.
Qed.

(** *** The scan of the first table *)

Section First.

Variables (type : string) (conds : option (string * string * string)).
Variables (firstKey secondKey : string) (fi si : tableInfoT).
Variable s : state.
Variable joins : row -> row -> bool.

Hypothesis type_not_cross : type <> "cross".
Hypothesis second_info : tableInfo cfg !! secondKey = Some si.
Hypothesis second_name : _name si = secondKey.
Hypothesis joins_ok : forall a b,
  a ∈ table_rows s firstKey -> b ∈ table_rows s secondKey ->
  willJoinRows X pairQuery type conds (rightKey_of conds) fi si a b
  = Ok (joins a b).

Local Abbreviation consistent st :=
  (forall i r, secondRowCache st !! i = Some (Some r) ->
               table_rows s secondKey !! i = Some r).

Lemma joinFirstRow_spec st a s1 :
  rows_of s1 = rows_of s -> a ∈ table_rows s firstKey ->
  (type = "outer" -> consistent st) ->
  exists st' s2,
    joinFirstRow cfg X pairQuery type conds (rightKey_of conds) fi secondKey
      st a s1 = (Ok st', s2) /\
    rows_of s2 = rows_of s /\
    joinTable st' =
      (joinTable st ++
       joined_with type fi si joins (table_rows s secondKey) a)%list /\
    (type = "outer" ->
     (forall i, i ∈ usedSecondTableRows st' <->
        i ∈ usedSecondTableRows st \/
        exists b, table_rows s secondKey !! i = Some b /\ joins a b = true) /\
     (forall i r, secondRowCache st' !! i = Some (Some r) <->
        secondRowCache st !! i = Some (Some r) \/
        (table_rows s secondKey !! i = Some r /\ joins a r = false)) /\
     consistent st').
Proof.
  intros Hrows Ha Hcons. unfold joinFirstRow, info_of. rewrite second_info.
  unfold bind at 1. cbn [ret]. rewrite second_name.
  unfold bind at 1. rewrite (read_each_rows secondKey si s1 second_info).
  assert (HB : table_rows s1 secondKey = table_rows s secondKey).
  { unfold table_rows. by rewrite Hrows. }
  rewrite HB.
  destruct (scan_rows type conds fi si a (joins a) (table_rows s secondKey)
              0 st false type_not_cross) as (st1 & Hscan & Htable).
  { intros b Hb. by apply joins_ok. }
  unfold bind at 1. unfold lift at 1. rewrite Hscan. cbn [ret fst snd orb].
  eexists. eexists. split; [reflexivity|]. split; [exact Hrows|]. split.
  - rewrite joined_with_split.
    destruct (negb (existsb (joins a) (table_rows s secondKey)) &&
              bool_decide (type ∈ ["left"; "right"; "outer"]));
      cbn [joinTable]; rewrite Htable; by rewrite ?app_nil_r, ?app_assoc.
  - intros ->.
    destruct (scan_books conds fi si (table_rows s secondKey) a (joins a)
                (table_rows s secondKey) 0 st false st1 _ eq_refl
                (fun b Hb => joins_ok a b Ha Hb) (Hcons eq_refl) Hscan)
      as [Hu Hc].
    assert (Hu' : forall i, i ∈ usedSecondTableRows st1 <->
              i ∈ usedSecondTableRows st \/
              exists b, table_rows s secondKey !! i = Some b /\
                        joins a b = true).
    { intros i. rewrite Hu. split; intros [?|H]; auto.
      - right. by destruct H as [_ H].
      - right. split; [lia|done]. }
    assert (Hc' : forall i r, secondRowCache st1 !! i = Some (Some r) <->
              secondRowCache st !! i = Some (Some r) \/
              (table_rows s secondKey !! i = Some r /\ joins a r = false)).
    { intros i r. rewrite Hc. split; intros [?|H]; auto.
      - right. by destruct H as [_ H].
      - right. split; [lia|done]. }
    assert (Hk : consistent st1).
    { intros i r [H|[H _]]%Hc'; [by apply Hcons | done]. }
    destruct (negb _ && _); cbn [usedSecondTableRows secondRowCache]; done.
Qed.

Lemma foldM_joinFirstRow_spec : forall l st s1,
  rows_of s1 = rows_of s ->
  (forall a, a ∈ l -> a ∈ table_rows s firstKey) ->
  (type = "outer" -> consistent st) ->
  exists st' s2,
    foldM (joinFirstRow cfg X pairQuery type conds (rightKey_of conds) fi
             secondKey) l st s1 = (Ok st', s2) /\
    rows_of s2 = rows_of s /\
    joinTable st' =
      (joinTable st ++
       concat (map (joined_with type fi si joins (table_rows s secondKey))
                 l))%list /\
    (type = "outer" ->
     (forall i, i ∈ usedSecondTableRows st' <->
        i ∈ usedSecondTableRows st \/
        exists a b, a ∈ l /\ table_rows s secondKey !! i = Some b /\
                    joins a b = true) /\
     (forall i r, secondRowCache st' !! i = Some (Some r) <->
        secondRowCache st !! i = Some (Some r) \/
        (table_rows s secondKey !! i = Some r /\
         exists a, a ∈ l /\ joins a r = false))).
Proof.
  induction l as [|a l IH]; intros st s1 Hrows Hl Hcons.
  - exists st, s1. cbn [foldM ret map concat]. rewrite app_nil_r.
    repeat split; try done.
    + by left.
    + intros [?|(a & b & Ha & _)]; [done | by inversion Ha].
    + by left.
    + intros [?|(_ & a & Ha & _)]; [done | by inversion Ha].
  - destruct (joinFirstRow_spec st a s1 Hrows) as
      (st1 & s2 & Hrun & Hrows2 & Htable & Hbooks);
      [apply Hl, list_elem_of_here | exact Hcons |].
    destruct (IH st1 s2 Hrows2) as (st' & s3 & Hrun' & Hrows3 & Htable' & Hbooks').
    { intros a' Ha'. apply Hl. by apply elem_of_cons; right. }
    { intros Ho. by destruct (Hbooks Ho) as (_ & _ & ?). }
    exists st', s3. cbn [foldM]. unfold bind. rewrite Hrun.
    split; [exact Hrun'|]. split; [exact Hrows3|]. split.
    + rewrite Htable', Htable. cbn [map concat]. by rewrite app_assoc.
    + intros Ho. destruct (Hbooks Ho) as (Hu & Hc & _).
      destruct (Hbooks' Ho) as (Hu' & Hc'). split.
      * intros i. rewrite Hu', Hu. split.
        -- intros [[?|(b & Hb & Hj)]|(a' & b & Ha' & Hb & Hj)].
           ++ by left.
           ++ right. exists a, b. split; [apply list_elem_of_here|done].
           ++ right. exists a', b. split; [by apply elem_of_cons; right|done].
        -- intros [?|(a' & b & [->|Ha']%elem_of_cons & Hb & Hj)].
           ++ by left; left.
           ++ left. right. by exists b.
           ++ right. by exists a', b.
      * intros i r. rewrite Hc', Hc. split.
        -- intros [[?|(Hb & Hj)]|(Hb & a' & Ha' & Hj)].
           ++ by left.
           ++ right. split; [done|]. exists a.
              split; [apply list_elem_of_here|done].
           ++ right. split; [done|]. exists a'.
              split; [by apply elem_of_cons; right|done].
        -- intros [?|(Hb & a' & [->|Ha']%elem_of_cons & Hj)].
           ++ by left; left.
           ++ left. by right.
           ++ right. split; [done|]. by exists a'.
Qed.

End First.

Lemma unusedRows_elem st r :
  r ∈ unusedRows st <->
  exists i, secondRowCache st !! i = Some (Some r) /\
            i ∉ usedSecondTableRows st.
Proof.
  unfold unusedRows. rewrite list_elem_of_omap. split.
  - intros (o & Hin & Ho). apply list_elem_of_lookup in Hin as [i Hi].
    rewrite list_lookup_imap in Hi.
    destruct (secondRowCache st !! i) as [o'|] eqn:E; [|discriminate].
    simpl in Hi. case_bool_decide as Hu; injection Hi as <-; [discriminate|].
    simpl in Ho. subst o'. by exists i.
  - intros (i & Hi & Hu). exists (Some r). split; [|done].
    apply list_elem_of_lookup. exists i.
    rewrite list_lookup_imap, Hi. simpl. by rewrite bool_decide_eq_false_2.
Qed.

(** A join other than a cross join, with a join condition that gives an
    answer for every pair of rows.  The rows of the first table (the right
    table for a right join, the left table otherwise) are taken in order;
    each gives one joined row for every row of the second table that joins
    it, in the order of the second table, or, when none joins it, for a
    left, right and outer join the row alone and for an inner join
    nothing.  Only an outer join adds rows after these: the rows of the
    second table that no row of the first table joins, each alone, and
    none at all when the first table is empty. *)
Theorem join_is_comprehension (type leftTable rightTable : string)
  (conds : option (string * string * string)) (fi si : tableInfoT)
  (joins : row -> row -> bool) (s : state) :
  let firstKey := if bool_decide (type = "right") then rightTable
                  else leftTable in
  let secondKey := if bool_decide (type = "right") then leftTable
                   else rightTable in
  let first := table_rows s firstKey in
  let second := table_rows s secondKey in
  type <> "cross" ->
  tableInfo cfg !! firstKey = Some fi -> _name fi = firstKey ->
  tableInfo cfg !! secondKey = Some si -> _name si = secondKey ->
  (forall a b, a ∈ first -> b ∈ second ->
     willJoinRows X pairQuery type conds (rightKey_of conds) fi si a b
     = Ok (joins a b)) ->
  exists tail,
    fst (_doJoin cfg X pairQuery type leftTable rightTable conds s)
    = Ok (concat (map (joined_with type fi si joins second) first)
          ++ tail)%list /\
    (forall r, r ∈ tail <->
       type = "outer" /\ first <> [] /\
       exists b, b ∈ second /\ r = doJoinRows fi si None (Some b) /\
                 forall a, a ∈ first -> joins a b = false).
Proof.
  intros firstKey secondKey first second Hc Hfi Hfn Hsi Hsn Hj.
  unfold _doJoin. cbv zeta. fold firstKey secondKey.
  change (match conds with
          | Some (_, _, _right) =>
              if bool_decide (_right = EmptyString) then EmptyString
              else List.last (split_on "." _right) EmptyString
          | None => EmptyString
          end) with (rightKey_of conds).
  unfold info_of at 1. rewrite Hfi. unfold bind at 1. cbn [ret].
  rewrite Hfn. unfold bind at 1.
  rewrite (read_each_rows firstKey fi s Hfi). fold first.
  destruct (foldM_joinFirstRow_spec type conds firstKey secondKey fi si s joins
              Hc Hsi Hsn Hj first (mk_joinState [] [] [])
              (snd (emit (EvRead firstKey) s)) eq_refl)
    as (st & s2 & Hrun & Hrows & Htable & Hbooks); [done|done|].
  fold second in Htable, Hbooks.
  unfold bind at 1. rewrite Hrun. cbn [joinTable app] in Htable.
  case_bool_decide as Ho.
  - destruct (Hbooks Ho) as [Hu Hk].
    exists (map (fun r => doJoinRows fi si None (Some r)) (unusedRows st)).
    split.
    + destruct (unusedRows st) as [|r0 rs] eqn:E.
      * cbn [ret fst map]. by rewrite Htable, app_nil_r.
      * unfold info_of. rewrite Hsi. unfold bind. cbn [ret fst].
        by rewrite Htable.
    + intros r. rewrite list_elem_of_fmap. split.
      * intros (b & -> & Hb). apply unusedRows_elem in Hb as (i & Hi & Hnu).
        apply Hk in Hi as [Hi|(Hb & a & Ha & Hja)]; [by inversion Hi|].
        split; [done|]. split; [intros E; rewrite E in Ha; by inversion Ha|].
        exists b. split; [by eapply list_elem_of_lookup_2|]. split; [done|].
        intros a' Ha'. destruct (joins a' b) eqn:E; [|done].
        exfalso. apply Hnu. apply Hu. right. by exists a', b.
      * intros (_ & Hne & b & Hb & -> & Hall).
        exists b. split; [done|].
        apply list_elem_of_lookup in Hb as [i Hi].
        apply unusedRows_elem. exists i. split.
        -- apply Hk. right. split; [done|].
           destruct first as [|a first'] eqn:E; [done|].
           exists a. split; [apply list_elem_of_here|].
           apply Hall, list_elem_of_here.
        -- intros [Hin|(a & b' & Ha & Hb' & Hjab)]%Hu; [by inversion Hin|].
           rewrite Hi in Hb'. injection Hb' as <-.
           by rewrite (Hall a Ha) in Hjab.
  - exists []. cbn [ret fst]. rewrite Htable, app_nil_r. split; [done|].
    intros r. split; [by intros ?%elem_of_nil | by intros [? _]].
Qed.

(** *** The cross join *)

Lemma joinFirstRow_cross conds (rightTable : string) fi si s st a s1 :
  tableInfo cfg !! rightTable = Some si -> _name si = rightTable ->
  rows_of s1 = rows_of s ->
  exists st',
    joinFirstRow cfg X pairQuery "cross" conds (rightKey_of conds) fi
      rightTable st a s1 = (Ok st', snd (emit (EvRead rightTable) s1)) /\
    joinTable st' =
      (joinTable st ++
       map (fun b => doJoinRows fi si (Some a) (Some b))
         (table_rows s rightTable))%list.
Proof.
  intros Hsi Hsn Hrows. unfold joinFirstRow, info_of.
  rewrite Hsi. unfold bind at 1. cbn [ret]. rewrite Hsn.
  unfold bind at 1. rewrite (read_each_rows rightTable si s1 Hsi).
  assert (HB : table_rows s1 rightTable = table_rows s rightTable).
  { unfold table_rows. by rewrite Hrows. }
  rewrite HB.
  destruct (scan_cross "cross" conds fi si a (table_rows s rightTable) 0 st
              false eq_refl) as (st1 & Hscan & Htable & _ & _).
  unfold bind at 1. unfold lift at 1. rewrite Hscan. cbn [ret fst snd].
  rewrite (bool_decide_eq_false_2 ("cross" ∈ ["left"; "right"; "outer"])).
  2: { intros H. repeat (apply elem_of_cons in H as [H|H]; [discriminate|]).
       by inversion H. }
  rewrite andb_false_r. by exists st1.
Qed.

Lemma foldM_cross conds (rightTable : string) fi si s :
  tableInfo cfg !! rightTable = Some si -> _name si = rightTable ->
  forall l st s1,
    rows_of s1 = rows_of s ->
    exists st' s2,
      foldM (joinFirstRow cfg X pairQuery "cross" conds (rightKey_of conds) fi
               rightTable) l st s1 = (Ok st', s2) /\
      rows_of s2 = rows_of s /\
      joinTable st' =
        (joinTable st ++
         concat (map (fun a =>
                        map (fun b => doJoinRows fi si (Some a) (Some b))
                          (table_rows s rightTable)) l))%list.
Proof.
  intros Hsi Hsn. induction l as [|a l IH]; intros st s1 Hrows.
  - exists st, s1. cbn [foldM ret map concat]. by rewrite app_nil_r.
  - destruct (joinFirstRow_cross conds rightTable fi si s st a s1 Hsi Hsn
                Hrows) as (st1 & Hstep & Htable).
    destruct (IH st1 (snd (emit (EvRead rightTable) s1)) Hrows)
      as (st' & s3 & Hrun & Hrows3 & Htable').
    exists st', s3. cbn [foldM]. unfold bind. rewrite Hstep.
    split; [exact Hrun|]. split; [exact Hrows3|].
    rewrite Htable', Htable. cbn [map concat]. by rewrite app_assoc.
Qed.

(** A cross join gives every pair of a row of the left table and a row of
    the right table, the rows of the left table in order and for each of
    them the rows of the right table in order; a join condition given with
    it plays no part. *)
Theorem cross_join_is_product (leftTable rightTable : string)
  (conds : option (string * string * string)) (fi si : tableInfoT)
  (s : state) :
  tableInfo cfg !! leftTable = Some fi -> _name fi = leftTable ->
  tableInfo cfg !! rightTable = Some si -> _name si = rightTable ->
  exists joined,
    fst (_doJoin cfg X pairQuery "cross" leftTable rightTable conds s)
    = Ok joined /\
    joined =
      concat (map (fun a =>
                     map (fun b => doJoinRows fi si (Some a) (Some b))
                       (table_rows s rightTable))
                (table_rows s leftTable)) /\
    length joined
    = (length (table_rows s leftTable) * length (table_rows s rightTable))%nat.
Proof.
  intros Hfi Hfn Hsi Hsn. eexists. split; [|split; [reflexivity|]].
  - unfold _doJoin. cbv zeta.
    rewrite (bool_decide_eq_false_2 ("cross" = "right")) by discriminate.
    rewrite (bool_decide_eq_false_2 ("cross" = "outer")) by discriminate.
    change (match conds with
            | Some (_, _, _right) =>
                if bool_decide (_right = EmptyString) then EmptyString
                else List.last (split_on "." _right) EmptyString
            | None => EmptyString
            end) with (rightKey_of conds).
    unfold info_of at 1. rewrite Hfi. unfold bind at 1. cbn [ret].
    rewrite Hfn. unfold bind at 1.
    rewrite (read_each_rows leftTable fi s Hfi).
    destruct (foldM_cross conds rightTable fi si s Hsi Hsn
                (table_rows s leftTable) (mk_joinState [] [] [])
                (snd (emit (EvRead leftTable) s)) eq_refl)
      as (st & s2 & Hrun & _ & Htable).
    unfold bind at 1. rewrite Hrun. cbn [ret fst]. by rewrite Htable.
  - generalize (table_rows s rightTable) as B. intros B.
    induction (table_rows s leftTable) as [|a A IH]; [done|].
    cbn [map concat]. rewrite length_app, length_map, IH. simpl. lia.
Qed.

(** *** [_join] *)

(** A join other than a cross join that names no join condition throws a
    TypeError as soon as both tables hold a row. *)
Theorem join_without_condition_throws (q : query) (j : joinT)
  (rows : list row) (fi si : tableInfoT) (s : state) :
  let firstKey := if bool_decide (join_type j = "right") then join_table j
                  else table_key q in
  let secondKey := if bool_decide (join_type j = "right") then table_key q
                   else join_table j in
  join q = Some j -> join_type j <> "cross" -> join_where j = None ->
  tableInfo cfg !! firstKey = Some fi -> _name fi = firstKey ->
  tableInfo cfg !! secondKey = Some si -> _name si = secondKey ->
  table_rows s firstKey <> [] -> table_rows s secondKey <> [] ->
  fst (_join cfg X pairQuery q rows s) = Throw TypeError.
Proof.
  intros firstKey secondKey Hj Hc Hw Hfi Hfn Hsi Hsn HA HB.
  unfold _join. rewrite Hj, Hw.
  replace (if negb (bool_decide (join_type j = "cross")) then None else None)
    with (@None (string * string * string)) by (by destruct (negb _)).
  unfold bind at 1. unfold _doJoin. cbv zeta. fold firstKey secondKey.
  unfold info_of at 1. rewrite Hfi. unfold bind at 1. cbn [ret].
  rewrite Hfn. unfold bind at 1.
  rewrite (read_each_rows firstKey fi s Hfi).
  destruct (table_rows s firstKey) as [|a A] eqn:EA; [done|].
  cbn [foldM]. unfold bind at 1. unfold bind at 1.
  unfold joinFirstRow, info_of. rewrite Hsi. unfold bind at 1. cbn [ret].
  rewrite Hsn. unfold bind at 1.
  rewrite (read_each_rows secondKey si _ Hsi).
  match goal with
  | |- context [table_rows ?s1 secondKey] =>
      change (table_rows s1 secondKey) with (table_rows s secondKey)
  end.
  destruct (table_rows s secondKey) as [|b B] eqn:EB; [done|].
  cbn [scanSecond]. rewrite bool_decide_eq_false_2 by done.
  reflexivity.
Qed.

Lemma filter_idx_with_index {A} (keep : Z -> bool) (l : list A) : forall k,
  map snd (List.filter (fun ia : nat * A => keep (Z.of_nat (fst ia)))
             (imap (fun i a => ((k + i)%nat, a)) l))
  = map snd (List.filter (fun ia : Z * A => keep (fst ia))
               (with_index (Z.of_nat k) l)).
Proof.
  induction l as [|a l IH]; intros k; [done|].
  rewrite imap_cons. cbn [with_index List.filter fst].
  rewrite (imap_ext _ (fun i a => ((S k + i)%nat, a)) l)
    by (intros; simpl; f_equal; lia).
  replace (k + 0)%nat with k by lia.
  replace (Z.of_nat k + 1) with (Z.of_nat (S k)) by lia.
  destruct (keep (Z.of_nat k)); cbn [map snd]; by rewrite IH.
Qed.

(** A range given with a join is held against the positions of the joined
    rows with its two numbers in the other roles: the rows at the
    positions from the second number to the first, both included, are
    kept. *)
Theorem join_range_is_from_second_to_first (q : query) (j : joinT)
  (rows joined : list row) (r : Z * Z) (s s' : state) :
  join q = Some j -> qwhere q = None -> range q = Some r ->
  _doJoin cfg X pairQuery (join_type j) (table_key q) (join_table j)
    (if negb (bool_decide (join_type j = "cross")) then join_where j
     else None) s = (Ok joined, s') ->
  _join cfg X pairQuery q rows s
  = (Ok (take (Z.to_nat (fst r + 1) - Z.to_nat (snd r))
           (drop (Z.to_nat (snd r)) joined)), s').
Proof.
  intros Hj Hw Hr Hrun. unfold _join. rewrite Hj, Hw, Hr.
  unfold bind. rewrite Hrun. unfold ret. f_equal. f_equal.
  unfold filter_idx.
  etransitivity;
    [exact (filter_idx_with_index
              (fun z => (z <=? fst r) && (snd r <=? z)) joined 0)|].
  rewrite <- WindowFacts.window. f_equal. apply filter_ext.
  intros [i a]. apply andb_comm.
Qed.

(** *** What a join leaves alone *)

Section Reads.

Variable P : state -> Prop.
Hypothesis P_read : forall t s, P s -> P (snd (emit (EvRead t) s)).

Lemma keeps_read_each t : keeps P (_read_each cfg t).
Proof.
  unfold _read_each, pk_of.
  assert (keeps P (emit (EvRead t))) by (intros s; apply P_read).
  frame_tac.
Qed.

Lemma keeps_joinFirstRow type conds rk fi sk st a :
  keeps P (joinFirstRow cfg X pairQuery type conds rk fi sk st a).
Proof.
  unfold joinFirstRow, info_of. pose proof keeps_read_each. frame_tac.
Qed.

Lemma keeps_foldM {A B} (f : B -> A -> M B) l :
  (forall b a, keeps P (f b a)) -> forall b, keeps P (foldM f l b).
Proof.
  intros Hf. induction l as [|a l IH]; intros b; simpl; frame_tac.
Qed.

Lemma keeps_doJoin type lt rt conds :
  keeps P (_doJoin cfg X pairQuery type lt rt conds).
Proof.
  unfold _doJoin, info_of.
  pose proof keeps_read_each. pose proof keeps_joinFirstRow.
  frame_tac; apply keeps_foldM; frame_tac.
Qed.

Lemma keeps_join q rows : keeps P (_join cfg X pairQuery q rows).
Proof. unfold _join. pose proof keeps_doJoin. frame_tac. Qed.

End Reads.

(** A select that joins writes no data: with the join of this
    development in the place of the collaborator, the rows, the search
    indexes and the token records of every table are the same after the
    select as before, and what the log gained are reads. *)
Theorem join_select_writes_no_data (q : query) (s : state) :
  action q = "select" ->
  (forall t l, keeps (reads_only s) (fuzzySearch X t l)) ->
  (forall q' rows, keeps (reads_only s) (ormStage X q' rows)) ->
  reads_only s (snd (run cfg (with_join cfg X pairQuery) q s)).
Proof.
  intros Ha Hf Ho.
  assert (Hread : forall t s1, reads_only s s1 ->
            reads_only s (snd (emit (EvRead t) s1))).
  { intros t s1 (Hr & Hs & Ht & l & Hl & Hall). repeat split; auto.
    exists (l ++ [EvRead t])%list. split.
    - simpl. rewrite Hl. by rewrite <- app_assoc.
    - apply Forall_app. split; [exact Hall|]. repeat constructor.
      by eexists. }
  apply (ReadFacts.reads_run cfg (with_join cfg X pairQuery) (reads_only s));
    try done.
  - intros q' rows. apply keeps_join. exact Hread.
  - apply ReadFacts.reads_only_refl.
Qed.

End Facts.

Lemma join_select_writes_no_data_witness :
  reads_only Scenarios.views_state
    (snd (run (Scenarios.views_config false)
            (with_join (Scenarios.views_config false) Examples.X0
               plain_pairQuery)
            orders_cross_users_range Scenarios.views_state)).
Proof.
  apply (join_select_writes_no_data (Scenarios.views_config false)
           Examples.X0 plain_pairQuery orders_cross_users_range
           Scenarios.views_state);
    [reflexivity | |]; intros; intros s1 Hs1; exact Hs1.
Defined.

Lemma cross_join_is_product_witness :
  let cfg := Scenarios.views_config false in
  exists joined,
    fst (_doJoin cfg Examples.X0 plain_pairQuery "cross" "orders" "users" None
           Scenarios.views_state) = Ok joined /\
    joined =
      concat (map (fun a =>
                     map (fun b => doJoinRows Scenarios.ordersT
                                     Scenarios.usersT (Some a) (Some b))
                       (table_rows Scenarios.views_state "users"))
                (table_rows Scenarios.views_state "orders")) /\
    length joined
    = (length (table_rows Scenarios.views_state "orders") *
       length (table_rows Scenarios.views_state "users"))%nat.
Proof.
  intros cfg.
  apply (cross_join_is_product cfg Examples.X0 plain_pairQuery "orders"
           "users" None Scenarios.ordersT Scenarios.usersT
           Scenarios.views_state); reflexivity.
Defined.

Lemma join_without_condition_throws_witness :
  fst (_join (Scenarios.views_config false) Examples.X0 plain_pairQuery
         orders_join_users [] Scenarios.views_state) = Throw TypeError.
Proof.
  apply (join_without_condition_throws (Scenarios.views_config false)
           Examples.X0 plain_pairQuery orders_join_users
           (mk_join "inner" "users" None) [] Scenarios.ordersT
           Scenarios.usersT Scenarios.views_state);
    try reflexivity; discriminate.
Defined.

Lemma join_range_is_from_second_to_first_witness :
  exists joined s',
    _join (Scenarios.views_config false) Examples.X0 plain_pairQuery
      orders_cross_users_range [] Scenarios.views_state
    = (Ok (take (Z.to_nat (0 + 1) - Z.to_nat 0) (drop (Z.to_nat 0) joined)),
       s').
Proof.
  eexists. eexists.
  eapply (join_range_is_from_second_to_first (Scenarios.views_config false)
            Examples.X0 plain_pairQuery orders_cross_users_range
            (mk_join "cross" "users" None) [] _ (0, 0)
            Scenarios.views_state);
    [reflexivity | reflexivity | reflexivity | vm_compute; reflexivity].
Defined.

Lemma join_is_comprehension_witness :
  let cfg := Scenarios.views_config false in
  let conds := Some ("orders.userId", "=", "users.id") in
  let joins := fun a b : row =>
    strict_eq (get a "userId") (get b "id") in
  exists tail,
    fst (_doJoin cfg Examples.X0 plain_pairQuery "left" "orders" "users" conds
           Scenarios.views_state)
    = Ok (concat (map (joined_with "left" Scenarios.ordersT Scenarios.usersT
                         joins (table_rows Scenarios.views_state "users"))
                    (table_rows Scenarios.views_state "orders"))
          ++ tail)%list /\
    (forall r, r ∈ tail <->
       "left" = "outer" /\ table_rows Scenarios.views_state "orders" <> [] /\
       exists b, b ∈ table_rows Scenarios.views_state "users" /\
                 r = doJoinRows Scenarios.ordersT Scenarios.usersT None
                       (Some b) /\
                 forall a, a ∈ table_rows Scenarios.views_state "orders" ->
                           joins a b = false).
Proof.
  intros cfg conds joins.
  apply (join_is_comprehension cfg Examples.X0 plain_pairQuery "left" "orders"
           "users" conds Scenarios.ordersT Scenarios.usersT joins
           Scenarios.views_state);
    [discriminate | reflexivity | reflexivity | reflexivity | reflexivity |].
  intros a b Ha Hb.
  vm_compute in Ha. apply list_elem_of_singleton in Ha.
  vm_compute in Hb. apply list_elem_of_singleton in Hb.
  subst a b. vm_compute. reflexivity.
Defined.

End JoinFacts.
